(** * Catslap: template engine for Office documents

    A shallow embedding of the parts of the Python sources that the
    specification makes claims about:

    - [catslap/utils/xml.py]     : the markup tree, entity escaping and
                                   resolution, text insertion;
    - [catslap/base/utils.py]    : the expression resolver adapter;
    - [catslap/base/document.py] : placeholder resolution and the ledger;
    - [catslap/docx/document.py] : the directive engine, the for-loop
                                   rewriter and the run-collapsing pass;
    - [catslap/html/document.py] : the HTML fragment processor.

    Python strings are sequences of code points, modelled as lists of [N].
    Python lists are Rocq lists, dictionaries are association lists that
    keep insertion order.  Exceptions are explicit results. *)

From Stdlib Require Import List ZArith NArith Lia Bool Arith.
From Stdlib Require Ascii String DecimalString DecimalZ.
Import ListNotations.
Import String.StringSyntax.

Set Implicit Arguments.
Set Warnings "-register-all".

(** ** Python strings *)

Module PyStr.

Definition char := N.
Definition pystr := list char.

(** [lit] turns an ASCII literal into a Python string. *)
Definition lit (s : String.string) : pystr :=
  map Ascii.N_of_ascii (String.list_ascii_of_string s).

Delimit Scope string_scope with pys.
Arguments lit s%_pys.

Definition eqb (a b : pystr) : bool :=
  if list_eq_dec N.eq_dec a b then true else false.

(** [str.startswith], also used to test for an occurrence at the cursor. *)
Fixpoint starts_with (p s : pystr) : bool :=
  match p, s with
  | [], _ => true
  | c :: p', d :: s' => N.eqb c d && starts_with p' s'
  | _ :: _, [] => false
  end.

Definition ends_with (p s : pystr) : bool := starts_with (rev p) (rev s).

(** [str.replace(old, new)]: occurrences are found left to right and do not
    overlap.  [skip] counts the characters of a match still to be dropped. *)
Fixpoint replace_from (old new s : pystr) (skip : nat) : pystr :=
  match s with
  | [] => []
  | c :: s' =>
      match skip with
      | S k => replace_from old new s' k
      | O =>
          if starts_with old s
          then new ++ replace_from old new s' (length old - 1)
          else c :: replace_from old new s' 0
      end
  end.

Definition replace (old new s : pystr) : pystr :=
  match old with
  | [] => new ++ flat_map (fun c => c :: new) s
  | _ => replace_from old new s 0
  end.

(** [find_from sub s pos]: [s] is the text from absolute position [pos]. *)
Fixpoint find_from (sub s : pystr) (pos : nat) : option nat :=
  if starts_with sub s then Some pos
  else match s with
       | [] => None
       | _ :: s' => find_from sub s' (S pos)
       end.

(** Python slice bounds: negative indices count from the end, everything is
    clamped to [0, len]. *)
Definition clamp (len : nat) (i : Z) : nat :=
  if (i <? 0)%Z then Z.to_nat (Z.max 0 (Z.of_nat len + i))
  else Nat.min (Z.to_nat i) len.

(** [s[a:b]] *)
Definition slice (s : pystr) (a b : Z) : pystr :=
  let a' := clamp (length s) a in
  let b' := clamp (length s) b in
  firstn (b' - a') (skipn a' s).

(** [s[a:]] *)
Definition slice_from (s : pystr) (a : Z) : pystr :=
  skipn (clamp (length s) a) s.

(** [s.find(sub, start)]: the lowest index at or after [start], or -1. *)
Definition find (sub s : pystr) (start : Z) : Z :=
  let st := clamp (length s) start in
  if (Z.of_nat (length s) <? start)%Z then (-1)%Z
  else match find_from sub (skipn st s) st with
       | Some i => Z.of_nat i
       | None => (-1)%Z
       end.

(** [str(n)] for an integer. *)
Definition str_of_Z (z : Z) : pystr :=
  lit (DecimalString.NilEmpty.string_of_int (Z.to_int z)).

(** Characters removed by [str.strip()] without argument. *)
Definition is_space (c : char) : bool :=
  ((9 <=? c) && (c <=? 13) || (28 <=? c) && (c <=? 32) || (c =? 133)
   || (c =? 160) || (c =? 5760) || (8192 <=? c) && (c <=? 8202)
   || (c =? 8232) || (c =? 8233) || (c =? 8239) || (c =? 8287)
   || (c =? 12288))%N.

Fixpoint lstrip_by (f : char -> bool) (s : pystr) : pystr :=
  match s with
  | c :: s' => if f c then lstrip_by f s' else s
  | [] => []
  end.

Definition rstrip_by (f : char -> bool) (s : pystr) : pystr :=
  rev (lstrip_by f (rev s)).

Definition strip_by (f : char -> bool) (s : pystr) : pystr :=
  rstrip_by f (lstrip_by f s).

Definition strip : pystr -> pystr := strip_by is_space.

Definition is_digit (c : char) : bool := ((48 <=? c) && (c <=? 57))%N.

(** Digits, with single underscores between digits. *)
Fixpoint digits_ok (s : pystr) (after_digit : bool) : bool :=
  match s with
  | [] => after_digit
  | c :: s' =>
      if is_digit c then digits_ok s' true
      else if (c =? 95)%N && after_digit then
        match s' with
        | d :: _ => is_digit d && digits_ok s' false
        | [] => false
        end
      else false
  end.

(** Whether [int(s)] returns (rather than raising [ValueError]), for ASCII
    digits. *)
Definition int_parses (s : pystr) : bool :=
  match strip s with
  | c :: r => if ((c =? 43) || (c =? 45))%N then digits_ok r false
              else digits_ok (c :: r) false
  | [] => false
  end.

(** [s.split(sep)] for a one-character separator. *)
Fixpoint split_char (sep : char) (s : pystr) : list pystr :=
  match s with
  | [] => [[]]
  | c :: s' =>
      match split_char sep s' with
      | w :: ws => if (c =? sep)%N then [] :: w :: ws else (c :: w) :: ws
      | [] => [[c]]
      end
  end.

End PyStr.

Import PyStr.

(** ** Exceptions and results *)

Inductive exn : Type :=
| AttributeError | NameError | TypeError | KeyError | IndexError
| SyntaxError | ValueError | RuntimeError
| XmlParserException | DocumentException.

(** The outcome of a call: a value, a raised exception, or [NoFuel] when the
    recursion bound of the model was too small (never a Python outcome). *)
Inductive res (A : Type) : Type :=
| Ok (a : A)
| Raise (e : exn)
| NoFuel.

Arguments Ok {A} a.
Arguments Raise {A} e.
Arguments NoFuel {A}.

Definition bind {A B} (m : res A) (k : A -> res B) : res B :=
  match m with
  | Ok a => k a
  | Raise e => Raise e
  | NoFuel => NoFuel
  end.

Notation "'let*' x ':=' m 'in' k" := (bind m (fun x => k))
  (at level 10, x pattern, m at level 100, k at level 200).

(** ** Dictionaries (insertion ordered) *)

Section Dict.
Variable V : Type.

Definition dict := list (pystr * V).

Fixpoint dict_get (d : dict) (k : pystr) : option V :=
  match d with
  | [] => None
  | (k', v) :: d' => if PyStr.eqb k' k then Some v else dict_get d' k
  end.

(** [d[k] = v] keeps the position of an existing key. *)
Fixpoint dict_set (d : dict) (k : pystr) (v : V) : dict :=
  match d with
  | [] => [(k, v)]
  | (k', v') :: d' =>
      if PyStr.eqb k' k then (k', v) :: d' else (k', v') :: dict_set d' k v
  end.

Fixpoint dict_del (d : dict) (k : pystr) : dict :=
  match d with
  | [] => []
  | (k', v') :: d' =>
      if PyStr.eqb k' k then d' else (k', v') :: dict_del d' k
  end.

End Dict.

(** ** The markup tree ([catslap/utils/xml.py]) *)

(** Attribute values are strings, [None] (attribute without value) or, after
    identifier reassignment, integers. *)
Inductive attr : Type :=
| AttrNone
| AttrStr (s : pystr)
| AttrInt (z : Z).

(** [XmlText] and [XmlTag].  The parent back-reference is a non-owning
    pointer used for navigation only and is not part of the value. *)
Inductive XmlElement : Type :=
| XmlText (content : pystr)
| XmlTag (name : pystr) (attrs : dict attr) (elements : list XmlElement).

Definition isinstance_XmlTag (e : XmlElement) : bool :=
  match e with XmlTag _ _ _ => true | XmlText _ => false end.

Definition isinstance_XmlText (e : XmlElement) : bool :=
  match e with XmlText _ => true | XmlTag _ _ _ => false end.

(** *** Entities: [XmlParser.escape_entities], [escape_attr_value],
    [resolve_entities] *)

Module Entities.

Definition amp : char := 38%N.
Definition lt : char := 60%N.
Definition gt : char := 62%N.
Definition quot : char := 34%N.
Definition apos : char := 39%N.

Definition escape_entities (row : attr) : pystr :=
  match row with
  | AttrNone => []
  | AttrInt z =>
      let row := str_of_Z z in
      let row := replace [amp] (lit "&amp;") row in
      let row := replace [lt] (lit "&lt;") row in
      let row := replace [gt] (lit "&gt;") row in
      row
  | AttrStr row =>
      let row := replace [amp] (lit "&amp;") row in
      let row := replace [lt] (lit "&lt;") row in
      let row := replace [gt] (lit "&gt;") row in
      row
  end.

Definition escape_attr_value (row : attr) : pystr :=
  match row with
  | AttrNone => []
  | AttrInt z =>
      let row := str_of_Z z in
      let row := replace [amp] (lit "&amp;") row in
      let row := replace [quot] (lit "&quot;") row in
      row
  | AttrStr row =>
      let row := replace [amp] (lit "&amp;") row in
      let row := replace [quot] (lit "&quot;") row in
      row
  end.

Definition resolve_entities_str (row : pystr) : pystr :=
  let row := replace (lit "&#xD;") [13%N] row in
  let row := replace (lit "&#xA;") [10%N] row in
  let row := replace (lit "&lt;") [lt] row in
  let row := replace (lit "&gt;") [gt] row in
  let row := replace (lit "&quot;") [quot] row in
  let row := replace (lit "&apos;") [apos] row in
  let row := replace (lit "&nbsp;") [32%N] row in
  let row := replace (lit "&amp;") [amp] row in
  row.

Definition resolve_entities (row : attr) : pystr :=
  match row with
  | AttrNone => []
  | AttrInt z => resolve_entities_str (str_of_Z z)
  | AttrStr row => resolve_entities_str row
  end.

(** What each context does to one character. *)
Definition text_escape (c : char) : pystr :=
  if (c =? amp)%N then lit "&amp;"
  else if (c =? lt)%N then lit "&lt;"
  else if (c =? gt)%N then lit "&gt;"
  else [c].

Definition attr_escape (c : char) : pystr :=
  if (c =? amp)%N then lit "&amp;"
  else if (c =? quot)%N then lit "&quot;"
  else [c].


End Entities.

(** *** Tree operations of [XmlTag] *)

(** [XmlTag.clone(deep)] and [XmlText.clone]. *)
Fixpoint clone (deep : bool) (e : XmlElement) : XmlElement :=
  match e with
  | XmlText content => XmlText content
  | XmlTag name attrs elements =>
      XmlTag name attrs (if deep then map (clone true) elements else [])
  end.

(** [XmlTag.add_element(item)]: the item goes to the end of the children,
    whatever its kind.  (A method of [XmlTag]; a text node has no children
    and is returned as it is.) *)
Definition add_element (self item : XmlElement) : XmlElement :=
  match self with
  | XmlTag name attrs elements => XmlTag name attrs (elements ++ [item])
  | XmlText _ => self
  end.

(** The argument of [add_text]: an [XmlText] node, or a plain value that
    goes through [str(...)]. *)
Inductive text_arg : Type :=
| TextNode (content : pystr)
| TextValue (v : attr).

Definition str_of_attr (v : attr) : pystr :=
  match v with
  | AttrNone => []
  | AttrStr s => s
  | AttrInt z => str_of_Z z
  end.

(** [XmlTag.add_text(text)] *)
Definition add_text (self : XmlElement) (text : text_arg) : XmlElement :=
  match text with
  | TextNode content => add_element self (XmlText content)
  | TextValue v =>
      let text := str_of_attr v in
      let text := Entities.resolve_entities (AttrStr text) in
      match self with
      | XmlTag name attrs tags =>
          match rev tags with
          | XmlText last_content :: before =>
              XmlTag name attrs (rev before ++ [XmlText (last_content ++ text)])
          | _ => add_element self (XmlText text)
          end
      | XmlText _ => self
      end
  end.

Definition name_of (e : XmlElement) : pystr :=
  match e with XmlTag name _ _ => name | XmlText _ => [] end.

Definition elements_of (e : XmlElement) : list XmlElement :=
  match e with XmlTag _ _ elements => elements | XmlText _ => [] end.

Definition is_tag_named (tag_name : pystr) (e : XmlElement) : bool :=
  match e with
  | XmlTag name _ _ => PyStr.eqb tag_name name
  | XmlText _ => false
  end.

(** [XmlTag.get_tag(tag_name, mandatory=False)]: the first child tag with
    that name, or [None]. *)
Definition get_tag (self : XmlElement) (tag_name : pystr) : option XmlElement :=
  List.find (is_tag_named tag_name) (elements_of self).

(** [XmlTag.get_tags(tag_name)] *)
Definition get_tags (self : XmlElement) (tag_name : pystr) : list XmlElement :=
  filter (is_tag_named tag_name) (elements_of self).

(** [XmlTag.get_text()], that is [get_text_node(mandatory=True).content]. *)
Definition get_text (self : XmlElement) : res pystr :=
  match elements_of self with
  | [] => Ok []
  | XmlText content :: _ => Ok content
  | XmlTag _ _ _ :: _ => Raise XmlParserException
  end.

(** No two text nodes are adjacent among these siblings. *)
Fixpoint no_adjacent_text (elements : list XmlElement) : Prop :=
  match elements with
  | XmlText _ :: ((XmlText _ :: _) as rest) => False
  | _ :: rest => no_adjacent_text rest
  | [] => True
  end.

(** *** The writer ([XmlTag.write], [XmlText.write]) without pretty
    printing, as [XmlParser.get_xml] configures it. *)

Definition HTML_AUTO_END_TAGS : list pystr :=
  [lit "img"; lit "br"; lit "meta"; lit "input"].

Definition mem_str (s : pystr) (l : list pystr) : bool :=
  existsb (PyStr.eqb s) l.

Definition write_attrs (attrs : dict attr) : pystr :=
  flat_map (fun kv =>
    [32%N] ++ fst kv ++
    match snd kv with
    | AttrNone => []
    | v => lit "=" ++ [Entities.quot] ++ Entities.escape_attr_value v
           ++ [Entities.quot]
    end) attrs.

Fixpoint write (e : XmlElement) : pystr :=
  match e with
  | XmlText content => Entities.escape_entities (AttrStr content)
  | XmlTag name attrs elements =>
      lit "<" ++ name ++ write_attrs attrs ++
      match elements with
      | [] => if mem_str name HTML_AUTO_END_TAGS then lit ">" else lit "/>"
      | _ => lit ">" ++ flat_map write elements ++ lit "</" ++ name ++ lit ">"
      end
  end.

(** [XmlParser.get_xml(blocks)] for a single element or [None]. *)
Definition get_xml (blocks : option XmlElement) : pystr :=
  match blocks with
  | None => []
  | Some e => write e
  end.

(** ** Values of the data scope *)

(** The JSON-like values expressions range over.  [VDict true] is a
    [DotDict], [VDict false] a plain [dict].  Floating point numbers are
    left out. *)
Inductive value : Type :=
| VNone
| VBool (b : bool)
| VInt (z : Z)
| VStr (s : pystr)
| VList (items : list value)
| VDict (dot : bool) (entries : list (pystr * value)).

Definition scope := dict value.

Definition is_None (v : value) : bool :=
  match v with VNone => true | _ => false end.

Definition isinstance_dict (v : value) : bool :=
  match v with VDict _ _ => true | _ => false end.

(** [repr] and [str] of a value (strings inside containers are quoted with
    apostrophes, without escapes). *)
Fixpoint py_repr (v : value) : pystr :=
  match v with
  | VNone => lit "None"
  | VBool true => lit "True"
  | VBool false => lit "False"
  | VInt z => str_of_Z z
  | VStr s => lit "'" ++ s ++ lit "'"
  | VList items =>
      lit "[" ++
      (fix go (l : list value) : pystr :=
         match l with
         | [] => []
         | [x] => py_repr x
         | x :: r => py_repr x ++ lit ", " ++ go r
         end) items ++ lit "]"
  | VDict _ entries =>
      lit "{" ++
      (fix go (l : list (pystr * value)) : pystr :=
         match l with
         | [] => []
         | [(k, x)] => lit "'" ++ k ++ lit "': " ++ py_repr x
         | (k, x) :: r => lit "'" ++ k ++ lit "': " ++ py_repr x ++ lit ", " ++ go r
         end) entries ++ lit "}"
  end.

Definition py_str (v : value) : pystr :=
  match v with
  | VStr s => s
  | _ => py_repr v
  end.

(** [DotDict.create]: every dictionary that is a direct value of the map
    becomes a [DotDict], recursively; lists are not entered. *)
Fixpoint dotdict_value (v : value) : value :=
  match v with
  | VDict _ entries =>
      VDict true (map (fun kv => (fst kv, dotdict_value (snd kv))) entries)
  | _ => v
  end.

Definition DotDict_create (value_map : scope) : scope :=
  map (fun kv => (fst kv, dotdict_value (snd kv))) value_map.

(** ** A reference evaluator for access paths

    Python's [eval] is not part of the sources.  The engine below takes the
    evaluator as a parameter; [path_eval] is the instance used on concrete
    inputs.  It covers names, the constants [None], [True], [False],
    attribute access, and subscripts by an integer or a quoted key, and
    follows Python on them (attribute names are taken not to be names of
    built-in methods; anything else is reported as a [SyntaxError]). *)

Module PathEval.

Inductive expr : Type :=
| EConst (v : value)
| EName (n : pystr)
| EAttr (e : expr) (n : pystr)
| EIndex (e : expr) (i : Z)
| EKey (e : expr) (k : pystr).

Definition is_ident_start (c : char) : bool :=
  ((97 <=? c) && (c <=? 122) || (65 <=? c) && (c <=? 90) || (c =? 95))%N.

Definition is_ident_char (c : char) : bool :=
  is_ident_start c || is_digit c.

Fixpoint span (f : char -> bool) (s : pystr) : pystr * pystr :=
  match s with
  | c :: s' =>
      if f c then let (a, b) := span f s' in (c :: a, b) else ([], s)
  | [] => ([], [])
  end.

Definition digits_value (ds : pystr) : Z :=
  fold_left (fun acc c => (acc * 10 + Z.of_N (c - 48))%Z) ds 0%Z.

Fixpoint parse_postfix (fuel : nat) (e : expr) (s : pystr) : option expr :=
  match fuel with
  | O => None
  | S fuel' =>
      match s with
      | [] => Some e
      | 46%N :: s' =>
          let (id, r) := span is_ident_char s' in
          match id with
          | c :: _ =>
              if is_ident_start c then parse_postfix fuel' (EAttr e id) r
              else None
          | [] => None
          end
      | 91%N :: q :: s' =>
          if ((q =? 39) || (q =? 34))%N then
            let (k, r) := span (fun c => negb (c =? q)%N) s' in
            match r with
            | q' :: 93%N :: r' => parse_postfix fuel' (EKey e k) r'
            | _ => None
            end
          else
            let neg := (q =? 45)%N in
            let (ds, r) := span is_digit (if neg then s' else q :: s') in
            match ds, r with
            | _ :: _, 93%N :: r' =>
                let i := digits_value ds in
                parse_postfix fuel' (EIndex e (if neg then (- i)%Z else i)) r'
            | _, _ => None
            end
      | _ => None
      end
  end.

Definition is_blank (c : char) : bool := ((c =? 32) || (c =? 9))%N.

Definition parse (param : pystr) : option expr :=
  let s := rstrip_by is_space (lstrip_by is_blank param) in
  let (id, r) := span is_ident_char s in
  match id with
  | c :: _ =>
      if is_ident_start c then
        let head :=
          if PyStr.eqb id (lit "None") then EConst VNone
          else if PyStr.eqb id (lit "True") then EConst (VBool true)
          else if PyStr.eqb id (lit "False") then EConst (VBool false)
          else EName id in
        parse_postfix (S (length r)) head r
      else None
  | [] => None
  end.

(** [seq[i]] with Python's negative indices. *)
Definition index_list {A} (l : list A) (i : Z) : option A :=
  let n := Z.of_nat (length l) in
  let j := if (i <? 0)%Z then (n + i)%Z else i in
  if ((0 <=? j) && (j <? n))%Z then nth_error l (Z.to_nat j) else None.

Fixpoint eval_expr (locals : scope) (e : expr) : res value :=
  match e with
  | EConst v => Ok v
  | EName n =>
      match dict_get locals n with
      | Some v => Ok v
      | None =>
          (* the globals hold [__builtins__ = None] and nothing else *)
          if PyStr.eqb n (lit "__builtins__") then Ok VNone
          else Raise NameError
      end
  | EAttr e' n =>
      let* v := eval_expr locals e' in
      match v with
      | VDict true entries =>
          (* [DotDict.__getattr__ = dict.get] *)
          match dict_get entries n with
          | Some x => Ok x
          | None => Ok VNone
          end
      | _ => Raise AttributeError
      end
  | EIndex e' i =>
      let* v := eval_expr locals e' in
      match v with
      | VList items =>
          match index_list items i with
          | Some x => Ok x
          | None => Raise IndexError
          end
      | VStr s =>
          match index_list s i with
          | Some c => Ok (VStr [c])
          | None => Raise IndexError
          end
      | VDict _ _ => Raise KeyError
      | _ => Raise TypeError
      end
  | EKey e' k =>
      let* v := eval_expr locals e' in
      match v with
      | VDict _ entries =>
          match dict_get entries k with
          | Some x => Ok x
          | None => Raise KeyError
          end
      | _ => Raise TypeError
      end
  end.

Definition path_eval (param : pystr) (locals : scope) : res value :=
  match parse param with
  | Some e => eval_expr locals e
  | None => Raise SyntaxError
  end.

End PathEval.

(** ** The document state ([catslap/base/document.py])

    [value_map] is the JSON map that [value_resolver] and
    [repeating_resolver] close over when the document is driven through
    [get_bytes_with_json] or [test_with_json]. *)

Inductive style_value : Type :=
| StyleStr (s : pystr)
| StyleList (l : list pystr).

Record Document : Type := mkDocument {
  default_params : scope;
  value_map : scope;
  access_ok_param_list : list pystr;
  access_err_param_list : list pystr;
  test_mode : bool;
  style_map : dict style_value
}.

Definition set_default_params (d : Document) (p : scope) : Document :=
  mkDocument p (value_map d) (access_ok_param_list d)
    (access_err_param_list d) (test_mode d) (style_map d).

Definition set_value_map (d : Document) (p : scope) : Document :=
  mkDocument (default_params d) p (access_ok_param_list d)
    (access_err_param_list d) (test_mode d) (style_map d).

Definition set_access_ok (d : Document) (l : list pystr) : Document :=
  mkDocument (default_params d) (value_map d) l
    (access_err_param_list d) (test_mode d) (style_map d).

Definition set_access_err (d : Document) (l : list pystr) : Document :=
  mkDocument (default_params d) (value_map d) (access_ok_param_list d)
    l (test_mode d) (style_map d).

Definition set_style_map (d : Document) (m : dict style_value) : Document :=
  mkDocument (default_params d) (value_map d) (access_ok_param_list d)
    (access_err_param_list d) (test_mode d) m.

(** A fresh document, as [Document.__init__] leaves it, with the JSON map
    of the caller. *)
Definition new_document (json : scope) (test : bool) : Document :=
  mkDocument [] json [] [] test [].

(** Methods of a document: state passing with exceptions. *)
Definition M (A : Type) : Type := Document -> res (A * Document).

Definition ret {A} (a : A) : M A := fun d => Ok (a, d).

Definition mbind {A B} (m : M A) (k : A -> M B) : M B :=
  fun d =>
    match m d with
    | Ok (a, d') => k a d'
    | Raise e => Raise e
    | NoFuel => NoFuel
    end.

Definition lift {A} (r : res A) : M A :=
  fun d =>
    match r with
    | Ok a => Ok (a, d)
    | Raise e => Raise e
    | NoFuel => NoFuel
    end.

Definition raise {A} (e : exn) : M A := fun _ => Raise e.

Definition out_of_fuel {A} : M A := fun _ => NoFuel.

Notation "x <- m ;; k" := (mbind m (fun x => k))
  (at level 61, m at next level, right associativity).
Notation "' p <- m ;; k" := (mbind m (fun x => let p := x in k))
  (at level 61, p pattern, m at next level, right associativity).
Notation "m ;;; k" := (mbind m (fun _ => k))
  (at level 61, right associativity).

(** [l.append(x)] unless [x in l]. *)
Definition append_new (l : list pystr) (x : pystr) : list pystr :=
  if mem_str x l then l else l ++ [x].

(** ** The expression resolver adapter ([catslap/base/utils.py]) *)

Section Engine.

(** Python's [eval(param, {"__builtins__": None}, locals)]. *)
Variable py_eval : pystr -> scope -> res value.

(** [resolve_param_value(value_map, row, param)].  The map is changed in
    place (the [row] entry, and [DotDict.create]), so the new map is
    returned next to the outcome. *)
Definition resolve_param_value (value_map : scope) (row : option Z)
    (param : pystr) : scope * res value :=
  match param with
  | [] => (value_map, Ok VNone)
  | _ =>
      let value_map :=
        match row, value_map with
        | Some r, _ :: _ => dict_set value_map (lit "row") (VInt r)
        | _, _ => value_map
        end in
      let param := replace [8216%N] (lit "'") param in
      let param := replace [8217%N] (lit "'") param in
      let param := replace [8220%N] [Entities.quot] param in
      let param := replace [8221%N] [Entities.quot] param in
      let value_map := DotDict_create value_map in
      match py_eval param value_map with
      | Raise AttributeError => (value_map, Ok VNone)
      | Raise NameError => (value_map, Ok VNone)
      | Raise TypeError => (value_map, Ok VNone)
      | r => (value_map, r)
      end
  end.

(** [resolve_param_repeating(value_map, param)] *)
Definition resolve_param_repeating (value_map : scope) (param : pystr)
    : scope * res Z :=
  let (value_map, r) := resolve_param_value value_map (Some 0%Z) param in
  (value_map,
   let* value := r in
   match value with
   | VList items => Ok (Z.of_nat (length items))
   | _ => Ok (-1)%Z
   end).

(** [self.default_value_resolver(row, param)] *)
Definition default_value_resolver (row : option Z) (param : pystr) : M value :=
  fun d =>
    let (m, r) := resolve_param_value (default_params d) row param in
    lift r (set_default_params d m).

(** [self.value_resolver(row, param)] *)
Definition value_resolver (row : option Z) (param : pystr) : M value :=
  fun d =>
    let (m, r) := resolve_param_value (value_map d) row param in
    lift r (set_value_map d m).

Definition default_repeat_resolver (param : pystr) : M Z :=
  fun d =>
    let (m, r) := resolve_param_repeating (default_params d) param in
    lift r (set_default_params d m).

Definition repeating_resolver (param : pystr) : M Z :=
  fun d =>
    let (m, r) := resolve_param_repeating (value_map d) param in
    lift r (set_value_map d m).

Definition note_err (param : pystr) : M unit :=
  fun d => Ok (tt, set_access_err d (append_new (access_err_param_list d) param)).

Definition note_ok (param : pystr) : M unit :=
  fun d => Ok (tt, set_access_ok d (append_new (access_ok_param_list d) param)).

(** [Document.resolve_value(row, param)] *)
Definition resolve_value (row : option Z) (param : pystr) : M value :=
  value <- default_value_resolver row param ;;
  value <- (if is_None value then value_resolver row param else ret value) ;;
  if is_None value then
    note_err param ;;; ret (VStr [])
  else
    note_ok param ;;; ret value.

(** [Document.resolve_repeating(param)] *)
Definition resolve_repeating (param : pystr) : M Z :=
  value <- default_repeat_resolver param ;;
  value <- (if (value <? 0)%Z then repeating_resolver param else ret value) ;;
  if (value <? 0)%Z then
    note_err param ;;; ret (-1)%Z
  else
    note_ok param ;;; ret value.

(** The [while idx1 >= 0] loop of [Document.resolve_text]. *)
Fixpoint resolve_text_loop (fuel : nat) (var_row : option Z) (value : pystr)
    (rtext : pystr) (idx0 idx1 : Z) : M pystr :=
  match fuel with
  | O => out_of_fuel
  | S fuel' =>
      if (idx1 >=? 0)%Z then
        let idx2 := find (lit "}}") value idx1 in
        if (idx2 <=? idx1)%Z then ret rtext
        else
          let rtext := rtext ++ slice value idx0 idx1 in
          let param := slice value (idx1 + 2) idx2 in
          resolved <- resolve_value var_row param ;;
          let rtext :=
            if is_None resolved then rtext else rtext ++ py_str resolved in
          let idx0 := (idx2 + 2)%Z in
          let idx1 := find (lit "{{") value idx0 in
          resolve_text_loop fuel' var_row value rtext idx0 idx1
      else ret rtext
  end.

(** [Document.resolve_text(var_row, value)] *)
Definition resolve_text (var_row : option Z) (value : pystr) : M pystr :=
  let idx1 := find (lit "{{") value 0 in
  if (idx1 <? 0)%Z then ret value
  else resolve_text_loop (S (length value)) var_row value [] 0%Z idx1.

(** ** The Word engine ([catslap/docx/document.py]) *)

(** Modelled from the spec: the module [catslap/docx/word_tags.py] is not
    among the sources; its constants name the paragraph, run, text, run
    properties, table, table row and table cell elements, spelled as the
    literals of [docx/elements.py] and [IGNORABLE_EMPTY_TAGS] spell them. *)
Definition TAG_P : pystr := lit "w:p".
Definition TAG_R : pystr := lit "w:r".
Definition TAG_T : pystr := lit "w:t".
Definition TAG_RPR : pystr := lit "w:rPr".
Definition TAG_TBL : pystr := lit "w:tbl".
Definition TAG_TR : pystr := lit "w:tr".
Definition TAG_TABLE_CELL : pystr := lit "w:tc".

Definition IGNORABLE_TAGS : list pystr :=
  [lit "w:lastRenderedPageBreak"; lit "w:proofErr"; lit "w:noProof";
   lit "w:lang"; lit "w:bookmarkStart"; lit "w:bookmarkEnd"].

Definition IGNORABLE_EMPTY_TAGS : list pystr := [lit "w:rPr"; lit "w:pPr"].

Definition KEYWORD_IF : pystr := lit "if".
Definition KEYWORD_ELSE : pystr := lit "else".
Definition KEYWORD_ENDIF : pystr := lit "endif".
Definition KEYWORD_FOR : pystr := lit "for".
Definition KEYWORD_ENDFOR : pystr := lit "endfor".
Definition KEYWORD_STYLE : pystr := lit "style".

(** *** [ProcessStatus] *)

Record ProcessStatus : Type := mkStatus {
  nifs : Z;
  nfors : Z;
  else_mode : bool;
  search : option pystr
}.

Definition search_is (self : ProcessStatus) (keyword : pystr) : bool :=
  match search self with
  | Some k => PyStr.eqb k keyword
  | None => false
  end.

Definition search_is_None (self : ProcessStatus) : bool :=
  match search self with Some _ => false | None => true end.

(** [ProcessStatus.process_directive_keyword(keyword)]: the returned flag
    and the status after the call. *)
Definition process_directive_keyword (self : ProcessStatus) (keyword : pystr)
    : bool * ProcessStatus :=
  let self :=
    if PyStr.eqb keyword KEYWORD_IF then
      let self :=
        if search_is_None self && (nifs self =? 0)%Z
        then mkStatus (nifs self) (nfors self) (else_mode self) (Some keyword)
        else self in
      mkStatus (nifs self + 1) (nfors self) (else_mode self) (search self)
    else if PyStr.eqb keyword KEYWORD_ENDIF then
      mkStatus (nifs self - 1) (nfors self) (else_mode self) (search self)
    else if PyStr.eqb keyword KEYWORD_ELSE then
      if (nifs self =? 1)%Z
      then mkStatus (nifs self) (nfors self) true (search self)
      else self
    else if PyStr.eqb keyword KEYWORD_FOR then
      let self :=
        if search_is_None self && (nfors self =? 0)%Z
        then mkStatus (nifs self) (nfors self) (else_mode self) (Some keyword)
        else self in
      mkStatus (nifs self) (nfors self + 1) (else_mode self) (search self)
    else if PyStr.eqb keyword KEYWORD_ENDFOR then
      mkStatus (nifs self) (nfors self - 1) (else_mode self) (search self)
    else self in
  if search_is self KEYWORD_IF && (nifs self =? 0)%Z then (true, self)
  else if search_is self KEYWORD_FOR && (nfors self =? 0)%Z then (true, self)
  else (false, self).

(** *** Directive scanning *)

(** [WordDocument.__get_directive(tag)]: [None] stands for the pair
    [(None, None)]. *)
Fixpoint get_directive (tag : XmlElement) : res (option (pystr * pystr)) :=
  match tag with
  | XmlText _ => Ok None
  | XmlTag tagname _ elements =>
      if negb (PyStr.eqb tagname TAG_T) then
        (fix each (l : list XmlElement) : res (option (pystr * pystr)) :=
           match l with
           | [] => Ok None
           | tag2 :: l' =>
               let* found := get_directive tag2 in
               match found with
               | Some _ => Ok found
               | None => each l'
               end
           end) elements
      else
        let* text := get_text tag in
        let idx := find (lit "{%") text 0 in
        if (idx <? 0)%Z then Ok None
        else
          let idx := (idx + 2)%Z in
          let idx2 := find (lit "%}") text idx in
          if (idx2 <? 0)%Z then Ok None
          else
            let directive := strip (slice text idx idx2) in
            let idx1 := find (lit " ") directive 0 in
            let keyword :=
              if (idx1 >=? 0)%Z then strip (slice directive 0 idx1)
              else directive in
            let arg :=
              if (idx1 >=? 0)%Z then strip (slice_from directive (idx1 + 1))
              else [] in
            Ok (Some (keyword, arg))
  end.

(** [WordDocument.__process_directive_with_status(tag, status)] *)
Definition process_directive_with_status (tag : XmlElement)
    (status : ProcessStatus) : res (bool * ProcessStatus) :=
  let* found := get_directive tag in
  match found with
  | Some (keyword, _) => Ok (process_directive_keyword status keyword)
  | None => Ok (false, status)
  end.

(** [del elements[idx]] *)
Definition del_at {A} (elements : list A) (idx : nat) : list A :=
  firstn idx elements ++ skipn (S idx) elements.

(** [elements[idx] = x] for an index in range. *)
Definition set_at {A} (elements : list A) (idx : nat) (x : A) : list A :=
  firstn idx elements ++ x :: skipn (S idx) elements.

(** [elements[idx:idx] = out] *)
Definition insert_at {A} (elements : list A) (idx : nat) (out : list A)
    : list A :=
  firstn idx elements ++ out ++ skipn idx elements.

(** The [while idx < len(elements)] loop of [__get_blocks_until_endif], on
    the siblings from [idx] on.  A kept block stays in place and the cursor
    moves past it; anything else is deleted at the cursor.  The result is
    [if_blocks] and the siblings that are left from the cursor on. *)
Fixpoint endif_loop (is_true : bool) (status : ProcessStatus)
    (rest : list XmlElement) : res (list XmlElement * list XmlElement) :=
  match rest with
  | [] => Ok ([], [])
  | tag :: rest' =>
      if negb (isinstance_XmlTag tag) then endif_loop is_true status rest'
      else
        let* (found, status) := process_directive_with_status tag status in
        if found then Ok ([], rest')
        else if negb (else_mode status) then
          if is_true then
            let* (if_blocks, after) := endif_loop is_true status rest' in
            Ok (tag :: if_blocks, after)
          else endif_loop is_true status rest'
        else
          if negb is_true then
            let* (if_blocks, after) := endif_loop is_true status rest' in
            Ok (tag :: if_blocks, after)
          else endif_loop is_true status rest'
  end.

(** [WordDocument.__get_blocks_until_endif(is_true, elements, idx)]:
    [if_blocks] and the list [elements] after the call. *)
Definition get_blocks_until_endif (is_true : bool)
    (elements : list XmlElement) (idx : nat)
    : res (list XmlElement * list XmlElement) :=
  match nth_error elements idx with
  | None => Raise IndexError
  | Some tag =>
      let status := mkStatus 0 0 false (Some KEYWORD_IF) in
      let* (_, status) := process_directive_with_status tag status in
      let* (if_blocks, after) :=
        endif_loop is_true status (skipn (S idx) elements) in
      Ok (if_blocks, firstn idx elements ++ if_blocks ++ after)
  end.

(** The loop of [__get_blocks_until_endfor]: every sibling up to the closing
    directive is cloned into [for_blocks] and deleted. *)
Fixpoint endfor_loop (status : ProcessStatus) (rest : list XmlElement)
    : res (list XmlElement * list XmlElement) :=
  match rest with
  | [] => Ok ([], [])
  | tag :: rest' =>
      if negb (isinstance_XmlTag tag) then endfor_loop status rest'
      else
        let* (found, status) := process_directive_with_status tag status in
        if found then Ok ([], rest')
        else
          let tag := clone true tag in
          let* (for_blocks, after) := endfor_loop status rest' in
          Ok (tag :: for_blocks, after)
  end.

(** [WordDocument.__get_blocks_until_endfor(elements, idx)] *)
Definition get_blocks_until_endfor (elements : list XmlElement) (idx : nat)
    : res (list XmlElement * list XmlElement) :=
  match nth_error elements idx with
  | None => Raise IndexError
  | Some tag =>
      let status := mkStatus 0 0 false (Some KEYWORD_FOR) in
      let* (_, status) := process_directive_with_status tag status in
      let* (for_blocks, after) := endfor_loop status (skipn (S idx) elements) in
      Ok (for_blocks, firstn idx elements ++ after)
  end.

(** [WordDocument.__get_for_values(param)] *)
Definition get_for_values (param : pystr) : res (pystr * pystr) :=
  let idx := find (lit " in ") param 0 in
  if (idx <? 0)%Z then Raise RuntimeError
  else Ok (strip (slice param 0 idx), strip (slice_from param (idx + 4))).

(** [WordDocument.__reassign_ids(block, maxid)]: the block and the
    identifier after the call. *)
Fixpoint reassign_ids (block : XmlElement) (maxid : Z) : XmlElement * Z :=
  match block with
  | XmlText _ => (block, maxid)
  | XmlTag name attrs elements =>
      let (elements, maxid) :=
        (fix each (l : list XmlElement) (maxid : Z) : list XmlElement * Z :=
           match l with
           | [] => ([], maxid)
           | item :: l' =>
               let (item, maxid) := reassign_ids item maxid in
               let (l', maxid) := each l' maxid in
               (item :: l', maxid)
           end) elements maxid in
      match attrs with
      | [] => (XmlTag name attrs elements, maxid)
      | _ =>
          let attrs :=
            match dict_get attrs (lit "o:spid") with
            | Some (AttrStr (_ :: _)) => dict_del attrs (lit "o:spid")
            | Some (AttrInt z) =>
                if (z =? 0)%Z then attrs else dict_del attrs (lit "o:spid")
            | _ => attrs
            end in
          match dict_get attrs (lit "id") with
          | Some (AttrStr ((_ :: _) as idvalue)) =>
              let maxid := (maxid + 1)%Z in
              if int_parses idvalue
              then (XmlTag name (dict_set attrs (lit "id") (AttrInt maxid))
                      elements, maxid)
              else (XmlTag name
                      (dict_set attrs (lit "id")
                         (AttrStr (lit "_id_n" ++ str_of_Z maxid)))
                      elements, maxid)
          | Some (AttrInt z) =>
              if (z =? 0)%Z then (XmlTag name attrs elements, maxid)
              else
                let maxid := (maxid + 1)%Z in
                (XmlTag name (dict_set attrs (lit "id") (AttrInt maxid))
                   elements, maxid)
          | _ => (XmlTag name attrs elements, maxid)
          end
      end
  end.

(** *** Helpers of [catslap/utils/text.py] and [catslap/docx/styles.py] *)

Definition is_trim_char (c : char) : bool :=
  ((c =? 32) || (c =? 9) || (c =? 13) || (c =? 10))%N.

(** [text.trim(string)] *)
Definition trim (s : pystr) : pystr :=
  match s with
  | [] => []
  | c :: s' => strip_by is_trim_char (if (c =? 65279)%N then s' else s)
  end.

Definition quoted_by (a b : char) (text : pystr) : bool :=
  starts_with [a] text && ends_with [b] text.

(** [text.remove_quotes(text)] *)
Definition remove_quotes (text : pystr) : pystr :=
  match text with
  | [] => []
  | _ =>
      let text := strip text in
      if quoted_by 34%N 34%N text || quoted_by 39%N 39%N text
         || quoted_by 96%N 96%N text || quoted_by 180%N 180%N text
         || quoted_by 8220%N 8221%N text || quoted_by 8216%N 8217%N text
      then slice text 1 (-1)
      else text
  end.

Definition CFG_LIST_STYLES : list pystr :=
  [lit "heading"; lit "list_bullet"; lit "list_number"].

Definition only_ascii_char (ch : char) : bool :=
  ((97 <=? ch) && (ch <=? 122) || (65 <=? ch) && (ch <=? 90)
   || (48 <=? ch) && (ch <=? 57) || (ch =? 45) || (ch =? 95) || (ch =? 44))%N.

(** [Styles.__only_ascii(value)] *)
Definition only_ascii (value : pystr) : pystr := filter only_ascii_char value.

(** [text.split_no_empty(string, sep)] for a one-character separator. *)
Definition split_no_empty (s : pystr) (sep : char) : list pystr :=
  map strip (filter (fun item => negb (PyStr.eqb item [])) (split_char sep s)).

(** The [while idx < 6] loop of [Styles.__get_style_list_autonum]. *)
Fixpoint autonum_loop (fuel : nat) (curlist : list pystr) : res (list pystr) :=
  let idx := length curlist in
  if 6 <=? idx then Ok curlist
  else
    match fuel with
    | O => NoFuel
    | S fuel' =>
        match PathEval.index_list curlist (Z.of_nat idx - 1) with
        | None => Raise IndexError
        | Some value =>
            let value :=
              if ends_with (str_of_Z (Z.of_nat idx)) value
              then slice value 0 (-1) else value in
            let value := value ++ str_of_Z (Z.of_nat idx + 1) in
            autonum_loop fuel' (curlist ++ [value])
        end
    end.

Definition get_style_list_autonum (stylevalue : pystr) : res (list pystr) :=
  autonum_loop 6 (split_no_empty stylevalue 44%N).

(** [Styles.setStyle(name, value)] *)
Definition setStyle (name value : pystr) : M unit :=
  let name :=
    if starts_with (lit "style_") name then slice_from name 6 else name in
  let value := only_ascii value in
  if mem_str name CFG_LIST_STYLES then
    l <- lift (get_style_list_autonum value) ;;
    fun d => Ok (tt, set_style_map d (dict_set (style_map d) name (StyleList l)))
  else
    fun d => Ok (tt, set_style_map d (dict_set (style_map d) name (StyleStr value))).

(** [WordDocument.__process_style_directive(param)] *)
Definition process_style_directive (param : pystr) : M bool :=
  let idx := find (lit "=") param 0 in
  if (idx <? 0)%Z then ret false
  else
    let name := strip (slice param 0 idx) in
    let value := remove_quotes (strip (slice_from param (idx + 1))) in
    setStyle name value ;;; ret true.

(** *** Placeholder substitution in a tree *)

(** The [while idx1 >= 0] loop of [__resolve_text_value]; the result is
    [(text1, text2, idx0)] at the exit of the loop. *)
Fixpoint text_value_loop (fuel : nat) (row : option Z) (value : pystr)
    (text1 text2 : pystr) (idx0 idx1 : Z) : M (pystr * pystr * Z) :=
  match fuel with
  | O => out_of_fuel
  | S fuel' =>
      if (idx1 >=? 0)%Z then
        let idx2 := find (lit "}}") value idx1 in
        if (idx2 <=? idx1)%Z then ret (text1, text2, idx0)
        else
          let text1 := text1 ++ slice value idx0 idx1 in
          let text2 := text2 ++ slice value idx0 idx1 in
          let param := slice value (idx1 + 2) idx2 in
          resolved <- resolve_value row param ;;
          let text1 :=
            if is_None resolved then text1 else text1 ++ py_str resolved in
          let idx0 := (idx2 + 2)%Z in
          let idx1 := find (lit "{{") value idx0 in
          text_value_loop fuel' row value text1 text2 idx0 idx1
      else ret (text1, text2, idx0)
  end.

Definition flags : Type := (bool * bool * bool)%type.

(** [WordDocument.__resolve_text_value(row, block)]: the three flags and
    the block after the call. *)
Fixpoint resolve_text_value (row : option Z) (block : XmlElement)
    : M (flags * XmlElement) :=
  match block with
  | XmlText _ => ret ((false, false, false), block)
  | XmlTag tag attrs elements =>
      match elements with
      | [] => ret ((false, false, false), block)
      | first :: others =>
          if negb (PyStr.eqb tag TAG_T) then
            '(fl, elements) <-
              (fix each (l : list XmlElement) (fl : flags)
                 : M (flags * list XmlElement) :=
                 match l with
                 | [] => ret (fl, [])
                 | item :: l' =>
                     match item with
                     | XmlText _ =>
                         '(fl, l') <- each l' fl ;;
                         ret (fl, item :: l')
                     | XmlTag tag0 _ _ =>
                         '(fl0, item) <- resolve_text_value row item ;;
                         let '(sometext0, somedollar0, sometextdollar0) := fl0 in
                         let '(sometext, somedollar, sometextdollar) := fl in
                         if PyStr.eqb tag0 TAG_TR && negb sometextdollar0
                            && somedollar0
                         then each l' fl
                         else if PyStr.eqb tag0 TAG_TBL && negb sometextdollar0
                                 && somedollar0
                         then each l' fl
                         else
                           '(fl, l') <- each l' (sometext0 || sometext,
                                                 somedollar0 || somedollar,
                                                 sometextdollar0 || sometextdollar) ;;
                           ret (fl, item :: l')
                     end
                 end) elements (false, false, false) ;;
            ret (fl, XmlTag tag attrs elements)
          else
            match first with
            | XmlTag _ _ _ => ret ((false, false, false), block)
            | XmlText value =>
                let idx1 := find (lit "{{") value 0 in
                if (idx1 <? 0)%Z then
                  ret ((negb (PyStr.eqb (trim value) []), false, false), block)
                else
                  '(text1, text2, idx0) <-
                    text_value_loop (S (length value)) row value [] [] 0%Z idx1 ;;
                  let text1 := text1 ++ slice_from value idx0 in
                  let text2 := text2 ++ slice_from value idx0 in
                  let sometext := negb (PyStr.eqb text1 text2) in
                  ret ((sometext, true, sometext),
                       XmlTag tag attrs (XmlText text1 :: others))
            end
      end
  end.

(** [WordDocument.__is_paragraph_empty(para_tag)] *)
Definition is_paragraph_empty (para_tag : XmlElement) : res bool :=
  match get_tags para_tag TAG_R with
  | [] => Ok false
  | tag_runs =>
      (fix runs (l : list XmlElement) (has_text : bool) : res bool :=
         match l with
         | [] => Ok has_text
         | tag_run :: l' =>
             match get_tags tag_run TAG_T with
             | [] => Ok false
             | tag_texts =>
                 let* blank :=
                   (fix texts (ts : list XmlElement) : res bool :=
                      match ts with
                      | [] => Ok true
                      | tag_text :: ts' =>
                          let* text := get_text tag_text in
                          if negb (PyStr.eqb (strip text) []) then Ok false
                          else texts ts'
                      end) tag_texts in
                 if blank then runs l' true else Ok false
             end
         end) tag_runs false
  end.

(** Truthiness of an [if] condition (lines 290-297). *)
Definition is_true_value (if_value : value) : bool :=
  match if_value with
  | VBool b => b
  | VInt z => negb (z =? 0)%Z
  | VList items => negb (Nat.eqb (length items) 0)
  | _ => negb (PyStr.eqb (py_str if_value) [])
  end.

(** What [for varvalue in for_list] iterates over. *)
Definition py_iter (for_list : value) : res (list value) :=
  match for_list with
  | VList items => Ok items
  | VStr s => Ok (map (fun c => VStr [c]) s)
  | VDict _ entries => Ok (map (fun kv => VStr (fst kv)) entries)
  | _ => Raise TypeError
  end.

(** [varvalue['row'] = row] when the loop value is a dictionary.  The write
    is recorded on the value bound to the loop variable; the element of the
    list it came from is not tracked. *)
Definition with_row (varvalue : value) (row : Z) : value :=
  match varvalue with
  | VDict dot entries => VDict dot (dict_set entries (lit "row") (VInt row))
  | _ => varvalue
  end.

Definition bind_param (name : pystr) (v : value) : M unit :=
  fun d => Ok (tt, set_default_params d (dict_set (default_params d) name v)).

Section Paragraphs.

(** The loop [while idx < len(elements): idx = self.__process_paragraph(
    elements, idx)] started at index 0, on which [__process_paragraph]
    recurses for the body of a [for] and for table cells. *)
Variable process_all : list XmlElement -> M (list XmlElement).

(** [WordDocument.__process_table(tag)] *)
Fixpoint process_table (tag : XmlElement) : M XmlElement :=
  match tag with
  | XmlText _ => raise AttributeError
  | XmlTag tagname attrs elements =>
      if negb (PyStr.eqb tagname TAG_TABLE_CELL) then
        elements <-
          (fix each (l : list XmlElement) : M (list XmlElement) :=
             match l with
             | [] => ret []
             | tag2 :: l' =>
                 tag2 <- process_table tag2 ;;
                 l' <- each l' ;;
                 ret (tag2 :: l')
             end) elements ;;
        ret (XmlTag tagname attrs elements)
      else
        elements <- process_all elements ;;
        ret (XmlTag tagname attrs elements)
  end.

(** The [for varvalue in for_list] loop of [__process_paragraph]. *)
Fixpoint for_loop (for_varname : pystr) (for_blocks : list XmlElement)
    (for_list : list value) (row : Z) (out : list XmlElement)
    : M (list XmlElement) :=
  match for_list with
  | [] => ret out
  | varvalue :: for_list' =>
      bind_param for_varname (with_row varvalue row) ;;;
      let for_blocks_copy := map (clone true) for_blocks in
      for_blocks_copy <- process_all for_blocks_copy ;;
      for_loop for_varname for_blocks for_list' (row + 1)
        (out ++ for_blocks_copy)
  end.

(** [WordDocument.__process_paragraph(elements, idx)]: the list after the
    call and the returned index. *)
Definition process_paragraph (elements : list XmlElement) (idx : nat)
    : M (list XmlElement * nat) :=
  match nth_error elements idx with
  | None => raise IndexError
  | Some element =>
      match element with
      | XmlText _ => ret (del_at elements idx, idx)
      | XmlTag tagname _ _ =>
          if PyStr.eqb tagname TAG_P then
            found <- lift (get_directive element) ;;
            match found with
            | Some (keyword, condition) =>
                if PyStr.eqb keyword KEYWORD_STYLE then
                  process_style_directive condition ;;;
                  ret (del_at elements idx, idx)
                else if PyStr.eqb keyword KEYWORD_IF then
                  if_value <- resolve_value None condition ;;
                  let is_true := is_true_value if_value in
                  '(_, elements) <-
                    lift (get_blocks_until_endif is_true elements idx) ;;
                  ret (elements, idx)
                else if PyStr.eqb keyword KEYWORD_FOR then
                  '(for_varname, for_list_name) <-
                    lift (get_for_values condition) ;;
                  for_list <- resolve_value None for_list_name ;;
                  '(for_blocks, elements) <-
                    lift (get_blocks_until_endfor elements idx) ;;
                  for_list <- lift (py_iter for_list) ;;
                  out <- for_loop for_varname for_blocks for_list 1 [] ;;
                  bind_param for_varname (VDict false []) ;;;
                  ret (insert_at elements idx out, idx + length out)
                else ret (del_at elements idx, idx)
            | None =>
                '(fl, element) <- resolve_text_value None element ;;
                let '(_, somedollar, _) := fl in
                empty <- (if somedollar then lift (is_paragraph_empty element)
                          else ret false) ;;
                if empty then ret (del_at elements idx, idx)
                else ret (set_at elements idx element, idx + 1)
            end
          else if PyStr.eqb tagname TAG_TBL then
            element <- process_table element ;;
            ret (set_at elements idx element, idx + 1)
          else
            '(_, element) <- resolve_text_value None element ;;
            ret (set_at elements idx element, idx + 1)
      end
  end.

(** One more turn of the [while] loop, then [continue_with]. *)
Definition process_step (continue_with : list XmlElement -> nat -> M (list XmlElement))
    (elements : list XmlElement) (idx : nat) : M (list XmlElement) :=
  if idx <? length elements then
    '(elements, idx) <- process_paragraph elements idx ;;
    continue_with elements idx
  else ret elements.

End Paragraphs.

(** The [while] loop of [process_paragraphs]; [fuel] bounds the turns of
    the loop and the depth of the nested loops. *)
Fixpoint process_elements (fuel : nat) (elements : list XmlElement) (idx : nat)
    : M (list XmlElement) :=
  match fuel with
  | O => out_of_fuel
  | S fuel' =>
      process_step (fun l => process_elements fuel' l 0)
        (process_elements fuel') elements idx
  end.


(** *** Run collapsing *)

(** [WordDocument.__is_the_same_rpr(rpr1, rpr2)] *)
Definition is_the_same_rpr (rpr1 rpr2 : option XmlElement) : bool :=
  match rpr1, rpr2 with
  | None, None => true
  | _, _ => PyStr.eqb (get_xml rpr1) (get_xml rpr2)
  end.

(** The text [ct] of a [w:t]: the content of its first child when that is a
    text node. *)
Definition first_text (t : XmlElement) : option pystr :=
  match elements_of t with
  | XmlText content :: _ => Some content
  | _ => None
  end.

(** The three statements that merge [ct] into [last_t]. *)
Definition merge_text (ct : pystr) (last_t : XmlElement) : res XmlElement :=
  match last_t with
  | XmlText _ => Raise AttributeError
  | XmlTag name attrs elements =>
      let* merged :=
        match elements with
        | [] => Ok (add_text last_t (TextValue (AttrStr ct)))
        | XmlText content :: others =>
            Ok (XmlTag name attrs (XmlText (content ++ ct) :: others))
        | XmlTag _ _ _ :: _ => Raise AttributeError
        end in
      match merged with
      | XmlTag name attrs elements =>
          Ok (XmlTag name
                (dict_set attrs (lit "xml:space") (AttrStr (lit "preserve")))
                elements)
      | XmlText _ => Ok merged
      end
  end.

(** Apply [f] to the first element that satisfies [p]. *)
Fixpoint update_first (p : XmlElement -> bool)
    (f : XmlElement -> res XmlElement) (l : list XmlElement)
    : res (list XmlElement) :=
  match l with
  | [] => Ok []
  | x :: l' =>
      if p x then let* y := f x in Ok (y :: l')
      else let* l'' := update_first p f l' in Ok (x :: l'')
  end.

(** [last_t] is the [w:t] that [get_tag] found in the run at position [j]
    of [elements]; changing it changes that run in place. *)
Definition merge_into (elements : list XmlElement) (j : nat) (ct : pystr)
    : res (list XmlElement) :=
  match nth_error elements j with
  | Some (XmlTag name attrs tags) =>
      let* tags := update_first (is_tag_named TAG_T) (merge_text ct) tags in
      Ok (set_at elements j (XmlTag name attrs tags))
  | _ => Raise IndexError
  end.

Section CollapseLoop.

(** [self.collapse_paragraphs(element.elements, rep + 1)]: the element with
    its children collapsed. *)
Variable collapse_children : XmlElement -> res XmlElement.

(** The loop of [WordDocument.collapse_paragraphs(elements)]: [done] are
    the siblings before the cursor, [rest] those from the cursor on;
    [last_t] is kept as the position of the run that holds it. *)
Fixpoint collapse_loop (done : list XmlElement) (last_rpr : option XmlElement)
    (last_t : option nat) (rest : list XmlElement) {struct rest}
    : res (list XmlElement) :=
  match rest with
  | [] => Ok done
  | element :: rest' =>
      match element with
      | XmlText _ => collapse_loop (done ++ [element]) last_rpr last_t rest'
      | XmlTag tag_name _ _ =>
          let* tag := collapse_children element in
          let tags := elements_of tag in
          if mem_str tag_name IGNORABLE_TAGS
             || (Nat.eqb (length tags) 0 && mem_str tag_name IGNORABLE_EMPTY_TAGS)
          then collapse_loop done last_rpr last_t rest'
          else if PyStr.eqb tag_name TAG_R then
            let rpr := get_tag tag TAG_RPR in
            match get_tag tag TAG_T with
            | None => collapse_loop (done ++ [tag]) last_rpr None rest'
            | Some t =>
                match last_t with
                | Some j =>
                    if is_the_same_rpr last_rpr rpr then
                      match first_text t with
                      | Some ct =>
                          let* done := merge_into done j ct in
                          collapse_loop done last_rpr last_t rest'
                      | None => collapse_loop (done ++ [tag]) None None rest'
                      end
                    else collapse_loop (done ++ [tag]) rpr (Some (length done)) rest'
                | None => collapse_loop (done ++ [tag]) rpr (Some (length done)) rest'
                end
            end
          else collapse_loop (done ++ [tag]) last_rpr last_t rest'
      end
  end.

End CollapseLoop.

(** The recursive call on the children of an element. *)
Fixpoint collapse_element (element : XmlElement) : res XmlElement :=
  match element with
  | XmlText _ => Ok element
  | XmlTag tag_name attrs children =>
      let* tags := collapse_loop collapse_element [] None None children in
      Ok (XmlTag tag_name attrs tags)
  end.

(** [WordDocument.collapse_paragraphs(elements)]: the list after the call. *)
Definition collapse_paragraphs (elements : list XmlElement)
    : res (list XmlElement) :=
  collapse_loop collapse_element [] None None elements.

(** ** The HTML engine ([catslap/utils/sentence.py],
    [catslap/html/document.py]) *)

Record Sentence : Type := mkSentence { s_value : pystr; s_idx : nat }.

(** [Sentence.peek(value)]; [None] is [EOS]. *)
Definition peek (self : Sentence) (offset : nat) : option char :=
  nth_error (s_value self) (s_idx self + offset).

Definition next (self : Sentence) (n : nat) : Sentence :=
  mkSentence (s_value self) (s_idx self + n).

Definition is_eos (self : Sentence) : bool :=
  length (s_value self) <=? s_idx self.

(** [Sentence.match(word)]: the answer and the sentence after the call. *)
Definition match_word (self : Sentence) (word : pystr) : bool * Sentence :=
  if forallb (fun f =>
       match peek self f, nth_error word f with
       | Some a, Some b => (a =? b)%N
       | _, _ => false
       end) (seq 0 (length word))
  then (true, next self (length word))
  else (false, self).

(** [Sentence.parse_until_word(word)] *)
Fixpoint parse_until_word (fuel : nat) (start : nat) (self : Sentence)
    (word : pystr) : res (option pystr * Sentence) :=
  if is_eos self then Ok (None, self)
  else
    let (m, self) := match_word self word in
    if m then
      Ok (Some (slice (s_value self) (Z.of_nat start)
                  (Z.of_nat (s_idx self) - Z.of_nat (length word))), self)
    else
      match fuel with
      | O => NoFuel
      | S fuel' => parse_until_word fuel' start (next self 1) word
      end.

(** The keyword of a directive read by [find_end_for] and [find_end_if]. *)
Definition first_word (keyword : pystr) : pystr :=
  let keyword := strip keyword in
  let pos := find (lit " ") keyword 0 in
  if (pos >=? 0)%Z then slice keyword 0 pos else keyword.

(** The common loop of [find_end_for] and [find_end_if]. *)
Fixpoint find_end (fuel : nat) (opening closing : pystr) (sentence : Sentence)
    (depth : Z) : res (Z * Sentence) :=
  if negb (is_eos sentence) && (depth >? 0)%Z then
    match fuel with
    | O => NoFuel
    | S fuel' =>
        let (m, sentence) := match_word sentence (lit "{%") in
        if m then
          let idx3 := (Z.of_nat (s_idx sentence) - 2)%Z in
          let* (keyword, sentence) :=
            parse_until_word (length (s_value sentence)) (s_idx sentence)
              sentence (lit "%}") in
          match keyword with
          | None | Some [] => Raise DocumentException
          | Some keyword =>
              let keyword := first_word keyword in
              if PyStr.eqb keyword closing then
                if (depth - 1 =? 0)%Z then Ok (idx3, sentence)
                else find_end fuel' opening closing sentence (depth - 1)
              else if PyStr.eqb keyword opening then
                find_end fuel' opening closing sentence (depth + 1)
              else find_end fuel' opening closing sentence depth
          end
        else find_end fuel' opening closing (next sentence 1) depth
    end
  else Ok (Z.of_nat (s_idx sentence), sentence).

(** [HtmlDocument.find_end_for(sentence)] *)
Definition find_end_for (sentence : Sentence) : res (Z * Sentence) :=
  find_end (length (s_value sentence)) (lit "for") (lit "endfor") sentence 1.

(** [HtmlDocument.find_end_if(sentence)] *)
Definition find_end_if (sentence : Sentence) : res (Z * Sentence) :=
  find_end (length (s_value sentence)) (lit "if") (lit "endif") sentence 1.

(** [text.is_empty(value)] *)
Definition is_empty (v : value) : bool :=
  is_None v || PyStr.eqb (trim (py_str v)) [].

(** The condition of the HTML [if]. *)
Definition html_is_true (v : value) : bool :=
  match v with
  | VStr _ => negb (is_empty v)
  | VBool b => b
  | VInt z => negb (z =? 0)%Z
  | VList items => negb (Nat.eqb (length items) 0)
  | VDict _ _ => true
  | VNone => false
  end.

Section HtmlFragment.

(** [self.__process_html_fragment] on the body of a nested directive. *)
Variable process_fragment : pystr -> option Z -> M pystr.

(** The loop [for row2 in range(0, total)] of a [for] directive, outside
    test mode.  [value2['row'] = pos] raises on a value that is not a
    dictionary. *)
Fixpoint html_for_rows (varname1 sub_content : pystr) (value : value)
    (rows : list nat) (pos : Z) (out : pystr) : M pystr :=
  match rows with
  | [] => ret out
  | row2 :: rows' =>
      let value2 :=
        match value with
        | VList items =>
            match nth_error items row2 with
            | Some x => x
            | None => VDict false []
            end
        | _ => VDict false []
        end in
      (if isinstance_dict value2
       then bind_param varname1 (with_row value2 pos)
       else raise TypeError) ;;;
      piece <- process_fragment sub_content (Some (Z.of_nat row2)) ;;
      html_for_rows varname1 sub_content value rows' (pos + 1) (out ++ piece)
  end.

(** The same loop in test mode: nothing is bound. *)
Fixpoint html_for_rows_test (sub_content : pystr) (rows : list nat)
    (out : pystr) : M pystr :=
  match rows with
  | [] => ret out
  | row2 :: rows' =>
      piece <- process_fragment sub_content (Some (Z.of_nat row2)) ;;
      html_for_rows_test sub_content rows' (out ++ piece)
  end.

(** The part of the [for] branch that follows the extraction of
    [sub_content]: from [total = self.resolve_repeating(varname2)] to the
    end of the loop.  The text produced by the iterations is returned.
    (The statement [value2['row'] = pos] after the loop writes to the last
    list element, which is not tracked, see [with_row].) *)
Definition html_for (varname1 varname2 sub_content : pystr) : M pystr :=
  total <- resolve_repeating varname2 ;;
  test <- (fun d => Ok (test_mode d, d)) ;;
  let total := if (test : bool) then 1%Z else total in
  value <- resolve_value None varname2 ;;
  let rows := seq 0 (Z.to_nat total) in
  if test then html_for_rows_test sub_content rows []
  else html_for_rows varname1 sub_content value rows 1 [].

(** The [while not sentence.is_eos()] loop of [__process_html_fragment]. *)
Fixpoint html_loop (fuel : nat) (row : option Z) (sentence : Sentence)
    (out : pystr) : M pystr :=
  if is_eos sentence then ret out
  else
    match fuel with
    | O => out_of_fuel
    | S fuel' =>
        let (m, sentence1) := match_word sentence (lit "{{") in
        if m then
          '(keyword, sentence) <-
            lift (parse_until_word (length (s_value sentence1))
                    (s_idx sentence1) sentence1 (lit "}}")) ;;
          match keyword with
          | None | Some [] => raise DocumentException
          | Some keyword =>
              let keyword := strip keyword in
              value <- resolve_value row keyword ;;
              html_loop fuel' row sentence (out ++ py_str value)
          end
        else
          let (m, sentence1) := match_word sentence (lit "{%") in
          if m then
            '(keyword, sentence) <-
              lift (parse_until_word (length (s_value sentence1))
                      (s_idx sentence1) sentence1 (lit "%}")) ;;
            match keyword with
            | None | Some [] => raise DocumentException
            | Some keyword =>
                let keyword := strip keyword in
                if starts_with (lit "for ") keyword then
                  let keyword := slice_from keyword 4 in
                  let idx2 := find (lit " in ") keyword 0 in
                  if (idx2 <? 0)%Z then raise DocumentException
                  else
                    let varname1 := trim (slice keyword 0 idx2) in
                    let varname2 := trim (slice_from keyword (idx2 + 4)) in
                    let idx0 := Z.of_nat (s_idx sentence) in
                    '(idx3, sentence) <- lift (find_end_for sentence) ;;
                    let sub_content := slice (s_value sentence) idx0 idx3 in
                    pieces <- html_for varname1 varname2 sub_content ;;
                    html_loop fuel' row sentence (out ++ pieces)
                else if starts_with (lit "if ") keyword then
                  let varname1 := trim (slice_from keyword 3) in
                  let idx0 := Z.of_nat (s_idx sentence) in
                  '(idx3, sentence) <- lift (find_end_if sentence) ;;
                  value <- resolve_value row varname1 ;;
                  if html_is_true value then
                    let sub_content := slice (s_value sentence) idx0 idx3 in
                    piece <- process_fragment sub_content row ;;
                    html_loop fuel' row sentence (out ++ piece)
                  else html_loop fuel' row sentence out
                else raise DocumentException
            end
          else
            match peek sentence 0 with
            | Some ch => html_loop fuel' row (next sentence 1) (out ++ [ch])
            | None => raise TypeError
            end
    end.

End HtmlFragment.

(** [HtmlDocument.__process_html_fragment(html_content, row)]; [fuel]
    bounds the nesting of directives. *)
Fixpoint process_html_fragment (fuel : nat) (html_content : pystr)
    (row : option Z) : M pystr :=
  match fuel with
  | O => out_of_fuel
  | S fuel' =>
      html_loop (process_html_fragment fuel') (length html_content) row
        (mkSentence html_content 0) []
  end.

End Engine.

(** ** Further operations of the sources *)

(** *** Attributes and children of [XmlTag] ([catslap/utils/xml.py]) *)

Definition attrs_of (e : XmlElement) : dict attr :=
  match e with XmlTag _ attrs _ => attrs | XmlText _ => [] end.

(** Python's truth value of an attribute value. *)
Definition attr_truthy (v : attr) : bool :=
  match v with
  | AttrNone => false
  | AttrStr s => negb (PyStr.eqb s [])
  | AttrInt z => negb (z =? 0)%Z
  end.

(** [XmlTag.get_attr(attrname)], that is [self.attrs.get(attrname)]:
    [AttrNone] for a missing attribute. *)
Definition get_attr (self : XmlElement) (attrname : pystr) : attr :=
  match dict_get (attrs_of self) attrname with
  | Some v => v
  | None => AttrNone
  end.

(** [XmlTag.set_attr(attrname, attrvalue)]; [add_attr] has the same body. *)
Definition set_attr (self : XmlElement) (attrname : pystr) (attrvalue : attr)
    : XmlElement :=
  match self with
  | XmlTag name attrs elements =>
      XmlTag name (dict_set attrs attrname attrvalue) elements
  | XmlText _ => self
  end.

(** [XmlTag.remove_attr(attrname)] *)
Definition remove_attr (self : XmlElement) (attrname : pystr) : XmlElement :=
  match self with
  | XmlTag name attrs elements =>
      if attr_truthy (get_attr self attrname)
      then XmlTag name (dict_del attrs attrname) elements
      else self
  | XmlText _ => self
  end.

(** [XmlTag.set_text(text)] *)
Definition set_text (self : XmlElement) (text : text_arg) : XmlElement :=
  match self with
  | XmlTag name attrs _ => add_text (XmlTag name attrs []) text
  | XmlText _ => self
  end.

(** [XmlTag.get_tag(tag_name, mandatory)] with a name. *)
Definition get_tag_or_raise (self : XmlElement) (tag_name : pystr)
    (mandatory : bool) : res (option XmlElement) :=
  match get_tag self tag_name with
  | Some element => Ok (Some element)
  | None => if mandatory then Raise XmlParserException else Ok None
  end.

(** The loop of [XmlTag.remove_tag(tag_name)] on the siblings from the
    cursor on: the first child tag with that name is deleted. *)
Fixpoint remove_tag_loop (tag_name : pystr) (rest : list XmlElement)
    : list XmlElement :=
  match rest with
  | [] => []
  | elem :: rest' =>
      match elem with
      | XmlText _ => elem :: remove_tag_loop tag_name rest'
      | XmlTag name _ _ =>
          if PyStr.eqb name tag_name then rest'
          else elem :: remove_tag_loop tag_name rest'
      end
  end.

(** [XmlTag.remove_tag(tag_name)] *)
Definition remove_tag (self : XmlElement) (tag_name : pystr) : XmlElement :=
  match self with
  | XmlTag name attrs elements =>
      XmlTag name attrs (remove_tag_loop tag_name elements)
  | XmlText _ => self
  end.

(** The loop of [XmlTag.remove_tags(tag_name)]: every child tag with that
    name is deleted at the cursor, which stays in place. *)
Fixpoint remove_tags_loop (tag_name : pystr) (rest : list XmlElement)
    : list XmlElement :=
  match rest with
  | [] => []
  | elem :: rest' =>
      match elem with
      | XmlText _ => elem :: remove_tags_loop tag_name rest'
      | XmlTag name _ _ =>
          if PyStr.eqb name tag_name then remove_tags_loop tag_name rest'
          else elem :: remove_tags_loop tag_name rest'
      end
  end.

(** [XmlTag.remove_tags(tag_name)] *)
Definition remove_tags (self : XmlElement) (tag_name : pystr) : XmlElement :=
  match self with
  | XmlTag name attrs elements =>
      XmlTag name attrs (remove_tags_loop tag_name elements)
  | XmlText _ => self
  end.

(** [XmlTag.get_tag_text(tag_name, mandatory)] *)
Definition get_tag_text (self : XmlElement) (tag_name : pystr)
    (mandatory : bool) : res (option pystr) :=
  let* tag := get_tag_or_raise self tag_name mandatory in
  match tag with
  | None => Ok None
  | Some tag => let* text := get_text tag in Ok (Some text)
  end.

(** [XmlTag.set_tag_text(tag_name, tag_value, mandatory)]: the tag found by
    [get_tag] is a child of [self], and setting its text changes it in
    place; a tag that is missing is created and appended. *)
Definition set_tag_text (self : XmlElement) (tag_name : pystr)
    (tag_value : text_arg) (mandatory : bool) : res XmlElement :=
  match self with
  | XmlText _ => Raise AttributeError
  | XmlTag name attrs elements =>
      let* tag := get_tag_or_raise self tag_name mandatory in
      match tag with
      | Some _ =>
          let* elements :=
            update_first (is_tag_named tag_name)
              (fun tag => Ok (set_text tag tag_value)) elements in
          Ok (XmlTag name attrs elements)
      | None =>
          Ok (XmlTag name attrs
                (elements ++ [set_text (XmlTag tag_name [] []) tag_value]))
      end
  end.

(** The test of a wildcard item of [get_tag_path] on a child. *)
Definition wildcard_match (starts ends : pystr) (elem : XmlElement) : bool :=
  match elem with
  | XmlText _ => false
  | XmlTag name _ _ =>
      (negb (PyStr.eqb starts []) && starts_with starts name)
      || (negb (PyStr.eqb ends []) && ends_with ends name)
  end.

(** [XmlTag.get_tag_path(paths, mandatory)] *)
Fixpoint get_tag_path (self : XmlElement) (paths : list pystr)
    (mandatory : bool) : res (option XmlElement) :=
  match paths with
  | [] => Ok (Some self)
  | item :: paths' =>
      let idx := find (lit "*") item 0 in
      if (idx <? 0)%Z then
        let* tag := get_tag_or_raise self item mandatory in
        match tag with
        | None => Ok None
        | Some tag => get_tag_path tag paths' mandatory
        end
      else
        let starts := slice item 0 idx in
        let ends := slice_from item (idx + 1) in
        match List.find (wildcard_match starts ends) (elements_of self) with
        | None => Raise XmlParserException
        | Some selected => get_tag_path selected paths' mandatory
        end
  end.

(** *** [complete_pathfile] of [catslap/base/utils.py] *)

Definition complete_pathfile (pathfile file : pystr) : pystr :=
  if negb (ends_with file pathfile) then
    let pathfile :=
      if negb (ends_with (lit "/") pathfile) then pathfile ++ lit "/"
      else pathfile in
    pathfile ++ file
  else pathfile.

(** *** Helpers of [catslap/utils/types.py] *)

(** [dict3[item] = value] unless [dict3.get(item)] is a value other than
    [None]. *)
Definition set_if_none (dict3 : scope) (kv : pystr * value) : scope :=
  match dict_get dict3 (fst kv) with
  | Some v => if is_None v then dict_set dict3 (fst kv) (snd kv) else dict3
  | None => dict_set dict3 (fst kv) (snd kv)
  end.

(** [merge_dicts(dict1, dict2)]; an argument that is [None] is [None]. *)
Definition merge_dicts (dict1 dict2 : option scope) : scope :=
  let dict3 :=
    match dict1 with
    | Some d => fold_left (fun acc kv => dict_set acc (fst kv) (snd kv)) d []
    | None => []
    end in
  match dict2 with
  | Some d => fold_left set_if_none d dict3
  | None => dict3
  end.

(** [merge_list_unique(list1, list2)] *)
Definition merge_list_unique (list1 list2 : option (list pystr))
    : list pystr :=
  let list1 := match list1 with Some l => l | None => [] end in
  let list2 := match list2 with Some l => l | None => [] end in
  fold_left append_new list2 list1.

(** ** Vocabulary of the statements *)

(** The opening and closing marks of a placeholder. *)
Definition L2 : pystr := lit "{{".
Definition R2 : pystr := lit "}}".

(** [l] runs up to the next occurrence of [sub], which follows it. *)
Definition first_at (sub l : pystr) : Prop :=
  find_from sub (l ++ sub) 0 = Some (length l).

(** A text made of placeholders, each after a literal: the pairs are
    (literal, expression). *)
Definition render (segs : list (pystr * pystr)) : pystr :=
  flat_map (fun lp => fst lp ++ L2 ++ snd lp ++ R2) segs.

(** Each literal runs up to the next opening mark and each expression up to
    the next closing mark. *)
Definition well_formed (segs : list (pystr * pystr)) : Prop :=
  Forall (fun lp => first_at L2 (fst lp) /\ first_at R2 (snd lp)) segs.

(** The text holds no complete placeholder: no opening mark, or no closing
    mark after the first opening mark. *)
Definition no_placeholder (tail : pystr) : Prop :=
  match find_from L2 tail 0 with
  | None => True
  | Some i => find_from R2 (skipn i tail) 0 = None
  end.

(** A sequence of literals and expressions expanded from left to right:
    each expression is resolved and its string form follows its literal. *)
Fixpoint expand (py_eval : pystr -> scope -> res value) (row : option Z)
    (segs : list (pystr * pystr)) (acc : pystr) : M pystr :=
  match segs with
  | [] => ret acc
  | (l, p) :: segs' =>
      v <- resolve_value py_eval row p ;;
      expand py_eval row segs' (acc ++ l ++ py_str v)
  end.

(** The literal parts alone. *)
Definition literals (segs : list (pystr * pystr)) : pystr :=
  flat_map fst segs.

(** The expression resolves neither against the loop scope nor against the
    data map. *)
Definition unresolved (py_eval : pystr -> scope -> res value) (d : Document)
    (row : option Z) (param : pystr) : Prop :=
  snd (resolve_param_value py_eval (default_params d) row param) = Ok VNone
  /\ snd (resolve_param_value py_eval (value_map d) row param) = Ok VNone.

(** The document after a failed resolution of [param]. *)
Definition miss_state (py_eval : pystr -> scope -> res value) (d : Document)
    (row : option Z) (param : pystr) : Document :=
  mkDocument
    (fst (resolve_param_value py_eval (default_params d) row param))
    (fst (resolve_param_value py_eval (value_map d) row param))
    (access_ok_param_list d)
    (append_new (access_err_param_list d) param)
    (test_mode d) (style_map d).

(** The map as [resolve_param_value] prepares it for the evaluator. *)
Definition prepared_map (row : option Z) (m : scope) : scope :=
  DotDict_create
    match row, m with
    | Some r, _ :: _ => dict_set m (lit "row") (VInt r)
    | _, _ => m
    end.

(** The outcome of the evaluator after the three [except] clauses. *)
Definition after_except (r : res value) : res value :=
  match r with
  | Raise AttributeError => Ok VNone
  | Raise NameError => Ok VNone
  | Raise TypeError => Ok VNone
  | _ => r
  end.

(** The expression after the replacement of typographic quotes. *)
Definition plain_quotes (param : pystr) : pystr :=
  replace [8221%N] [Entities.quot]
    (replace [8220%N] [Entities.quot]
       (replace [8217%N] (lit "'") (replace [8216%N] (lit "'") param))).

Definition pystr_eq_dec : forall a b : pystr, {a = b} + {a <> b} :=
  list_eq_dec N.eq_dec.

(** How often an expression appears in a ledger. *)
Definition occurrences (param : pystr) (ledger : list pystr) : nat :=
  count_occ pystr_eq_dec ledger param.

(** A paragraph with one run that holds one text. *)
Definition paragraph (attrs : dict attr) (text : pystr) : XmlElement :=
  XmlTag TAG_P attrs [XmlTag TAG_R [] [XmlTag TAG_T [] [XmlText text]]].

(** The element nodes among some siblings. *)
Definition tags_only (span : list XmlElement) : list XmlElement :=
  filter isinstance_XmlTag span.





(** The values of the [id] attributes of a tree, children first. *)
Fixpoint ids_of (e : XmlElement) : list attr :=
  match e with
  | XmlText _ => []
  | XmlTag _ attrs elements =>
      flat_map ids_of elements ++
      match dict_get attrs (lit "id") with
      | Some v => [v]
      | None => []
      end
  end.

(** *** Trees that the collapse pass leaves alone *)

(** The test that makes the pass delete an element. *)
Definition ignorable (e : XmlElement) : bool :=
  mem_str (name_of e) IGNORABLE_TAGS
  || (Nat.eqb (length (elements_of e)) 0
      && mem_str (name_of e) IGNORABLE_EMPTY_TAGS).

(** What the pass remembers between siblings: nothing, or the properties of
    the run whose text is [last_t]. *)
Definition remembered : Type := option (option XmlElement).

Definition remembered_of (last_rpr : option XmlElement) (last_t : option nat)
    : remembered :=
  match last_t with
  | Some _ => Some last_rpr
  | None => None
  end.

(** What is remembered after a sibling that the pass keeps as it is. *)
Definition track_step (s : remembered) (e : XmlElement) : remembered :=
  match e with
  | XmlText _ => s
  | XmlTag name _ _ =>
      if PyStr.eqb name TAG_R then
        match get_tag e TAG_T with
        | None => None
        | Some _ =>
            match s with
            | Some lr =>
                if is_the_same_rpr lr (get_tag e TAG_RPR) then None
                else Some (get_tag e TAG_RPR)
            | None => Some (get_tag e TAG_RPR)
            end
        end
      else s
  end.

Definition track (s : remembered) (l : list XmlElement) : remembered :=
  fold_left track_step l s.

Section Fixed.

Variable settled : XmlElement -> Prop.

(** The pass keeps the sibling as it is: its subtree is settled, it is not
    ignorable, and when it is a run with the properties of the remembered
    run, its text cannot be merged. *)
Definition ok_step (s : remembered) (e : XmlElement) : Prop :=
  match e with
  | XmlText _ => True
  | XmlTag name _ _ =>
      settled e /\ ignorable e = false
      /\ (if PyStr.eqb name TAG_R then
            match get_tag e TAG_T, s with
            | Some t, Some lr =>
                if is_the_same_rpr lr (get_tag e TAG_RPR)
                then first_text t = None else True
            | _, _ => True
            end
          else True)
  end.

Fixpoint fixed (s : remembered) (l : list XmlElement) : Prop :=
  match l with
  | [] => True
  | e :: l' => ok_step s e /\ fixed (track_step s e) l'
  end.

End Fixed.

(** A tree in which there is nothing to delete and nothing to merge. *)
Fixpoint settled (e : XmlElement) : Prop :=
  match e with
  | XmlText _ => True
  | XmlTag _ _ children => fixed settled None children
  end.

(** A sibling that does not change what is remembered. *)
Definition passive (e : XmlElement) : Prop :=
  match e with
  | XmlText _ => True
  | XmlTag name _ _ => PyStr.eqb name TAG_R = false
  end.

(** A run with a text element. *)
Definition run_with_text (r : XmlElement) : Prop :=
  match r with
  | XmlTag name _ _ => PyStr.eqb name TAG_R = true /\ get_tag r TAG_T <> None
  | XmlText _ => False
  end.

(** The same element up to its children. *)
Definition same_head (x x' : XmlElement) : Prop :=
  match x, x' with
  | XmlTag n a _, XmlTag n' a' _ => n = n' /\ a = a'
  | XmlText c, XmlText c' => c = c'
  | _, _ => False
  end.

(** What holds of the siblings before the cursor during the pass: a second
    pass would leave them as they are, and [last_t], when set, belongs to a
    run that took the place of the remembered run and is followed by
    passive siblings only. *)
Definition collapse_inv (done : list XmlElement) (lr : option XmlElement)
    (last_t : option nat) : Prop :=
  fixed settled None done
  /\ match last_t with
     | None => track None done = None
     | Some j =>
         exists A r B,
           done = A ++ r :: B /\ j = length A /\ run_with_text r
           /\ track_step (track None A) r = Some (get_tag r TAG_RPR)
           /\ Forall passive B /\ lr = get_tag r TAG_RPR
     end.


(** *** Vocabulary of the further properties *)

(** The keys of a dictionary are pairwise distinct. *)
Definition unique_keys {V} (d : dict V) : Prop := NoDup (map fst d).

(** The encodings between the writer's output and the text: which of the
    angle brackets and the double quote are still escaped (the ampersand
    always is). *)
Definition coded (l g q : bool) (c : char) : pystr :=
  if (c =? Entities.amp)%N then lit "&amp;"
  else if (c =? Entities.lt)%N then (if l then lit "&lt;" else [c])
  else if (c =? Entities.gt)%N then (if g then lit "&gt;" else [c])
  else if (c =? Entities.quot)%N then (if q then lit "&quot;" else [c])
  else [c].

(** The opening and closing marks of a clause. *)
Definition O2 : pystr := lit "{%".
Definition C2 : pystr := lit "%}".

(** Neither opening mark starts at any of the first [n] positions of [s]. *)
Definition plain_upto (n : nat) (s : pystr) : bool :=
  forallb (fun i => negb (starts_with L2 (skipn i s))
                    && negb (starts_with O2 (skipn i s))) (seq 0 n).

(** The placeholders of an HTML text resolved from left to right: the
    expression is stripped before it is resolved. *)
Fixpoint html_expand (py_eval : pystr -> scope -> res value) (row : option Z)
    (segs : list (pystr * pystr)) (acc : pystr) : M pystr :=
  match segs with
  | [] => ret acc
  | (l, p) :: segs' =>
      v <- resolve_value py_eval row (strip p) ;;
      html_expand py_eval row segs' (acc ++ l ++ py_str v)
  end.

(** Literals without opening marks, expressions that are not empty and run
    up to the next closing mark. *)
Definition html_well_formed (segs : list (pystr * pystr)) : Prop :=
  Forall (fun lp => plain_upto (length (fst lp)) (fst lp ++ L2) = true
                    /\ first_at R2 (snd lp) /\ snd lp <> []) segs.





Section Children.

Variable resolve : XmlElement -> M (flags * XmlElement).


Variable table : XmlElement -> M XmlElement.


End Children.

(** The loop of [__reassign_ids] over the children of a block. *)
Fixpoint reassign_children (l : list XmlElement) (maxid : Z)
    : list XmlElement * Z :=
  match l with
  | [] => ([], maxid)
  | item :: l' =>
      let (item, maxid) := reassign_ids item maxid in
      let (l', maxid) := reassign_children l' maxid in
      (item :: l', maxid)
  end.

(** The identifiers in use in a tree: the [id] attributes whose value is
    true, children first. *)
Fixpoint live_ids (e : XmlElement) : list attr :=
  match e with
  | XmlText _ => []
  | XmlTag _ attrs elements =>
      flat_map live_ids elements ++
      match dict_get attrs (lit "id") with
      | Some v => if attr_truthy v then [v] else []
      | None => []
      end
  end.

(** The two forms of the identifier made from the number [k]. *)
Definition fresh_id (a : attr) (k : Z) : Prop :=
  a = AttrInt k \/ a = AttrStr (lit "_id_n" ++ str_of_Z k).

(** [n] consecutive numbers from [start] on. *)
Fixpoint zseq (start : Z) (n : nat) : list Z :=
  match n with
  | O => []
  | S n' => start :: zseq (start + 1) n'
  end.

(** What the pass does to one tree: the counter grows by the number of
    identifiers in use, which become the numbers after the counter, in
    order. *)
Definition renumbered (e : XmlElement) : Prop :=
  forall maxid, (0 <= maxid)%Z ->
    snd (reassign_ids e maxid)
    = (maxid + Z.of_nat (length (live_ids e)))%Z
    /\ Forall2 fresh_id (live_ids (fst (reassign_ids e maxid)))
         (zseq (maxid + 1) (length (live_ids e))).

(** * Properties *)

(** ** Strings *)

Module PyStrFacts.

Lemma eqb_eq a b : PyStr.eqb a b = true <-> a = b.
Proof.
  unfold PyStr.eqb. destruct (list_eq_dec N.eq_dec a b); split; congruence.
Qed.

Lemma eqb_refl a : PyStr.eqb a a = true.
Proof. apply eqb_eq. reflexivity. Qed.

Lemma eqb_neq a b : PyStr.eqb a b = false <-> a <> b.
Proof.
  unfold PyStr.eqb. destruct (list_eq_dec N.eq_dec a b); split; congruence.
Qed.

Lemma flat_map_flat_map {A B C} (f : A -> list B) (g : B -> list C) l :
  flat_map g (flat_map f l) = flat_map (fun x => flat_map g (f x)) l.
Proof.
  induction l as [|x l IH]; simpl; [reflexivity|].
  rewrite flat_map_app, IH. reflexivity.
Qed.

(** Replacing a single character is a character-wise substitution. *)
Lemma replace_char c new s :
  replace [c] new s = flat_map (fun d => if (d =? c)%N then new else [d]) s.
Proof.
  unfold replace. induction s as [|a s IH]; [reflexivity|].
  cbn [replace_from starts_with length Nat.sub flat_map].
  rewrite N.eqb_sym, andb_true_r.
  destruct (a =? c)%N; rewrite IH; reflexivity.
Qed.

End PyStrFacts.

(** ** Dictionaries *)

Lemma dict_get_set_eq {V} (d : dict V) k v : dict_get (dict_set d k v) k = Some v.
Proof.
  induction d as [|[k' v'] d IH]; simpl.
  - now rewrite PyStrFacts.eqb_refl.
  - destruct (PyStr.eqb k' k) eqn:E; simpl; rewrite E; auto.
Qed.

(** ** Escaping and resolving entities *)

Module EntitiesFacts.
Import Entities PyStrFacts.

Lemma text_escape_chars s :
  replace [gt] (lit "&gt;") (replace [lt] (lit "&lt;")
    (replace [amp] (lit "&amp;") s)) = flat_map text_escape s.
Proof.
  rewrite !replace_char, !flat_map_flat_map.
  apply flat_map_ext. intros c. unfold text_escape.
  destruct (c =? amp)%N eqn:Ea; [reflexivity|].
  cbn [flat_map app].
  destruct (c =? lt)%N eqn:El; [reflexivity|].
  cbn [flat_map app]. rewrite app_nil_r.
  destruct (c =? gt)%N; reflexivity.
Qed.

Lemma attr_escape_chars s :
  replace [quot] (lit "&quot;") (replace [amp] (lit "&amp;") s)
  = flat_map attr_escape s.
Proof.
  rewrite !replace_char, !flat_map_flat_map.
  apply flat_map_ext. intros c. unfold attr_escape.
  destruct (c =? amp)%N eqn:Ea; [reflexivity|].
  cbn [flat_map app]. rewrite app_nil_r.
  destruct (c =? quot)%N; reflexivity.
Qed.



(** An escaped ampersand in front of any text is resolved to an ampersand
    and shields what follows from the earlier replacements. *)
Lemma resolve_after_amp s :
  resolve_entities_str (lit "&amp;" ++ s) = amp :: resolve_entities_str s.
Proof. reflexivity. Qed.

(** C7: entity resolution turns each of the eight escapes into its literal
    character; the escaped ampersand is replaced after all the others, so
    an escaped ampersand followed by any text [s] resolves to an ampersand
    followed by the resolution of [s], and ["&amp;lt;"] resolves to
    ["&lt;"], not to ["<"]. *)
Theorem resolve_entities_amp_last :
  (forall s, resolve_entities (AttrStr s)
     = replace (lit "&amp;") [amp]
         (replace (lit "&nbsp;") [32%N]
            (replace (lit "&apos;") [apos]
               (replace (lit "&quot;") [quot]
                  (replace (lit "&gt;") [gt]
                     (replace (lit "&lt;") [lt]
                        (replace (lit "&#xA;") [10%N]
                           (replace (lit "&#xD;") [13%N] s))))))))
  /\ (forall s, resolve_entities (AttrStr (lit "&amp;" ++ s))
        = amp :: resolve_entities (AttrStr s))
  /\ resolve_entities (AttrStr (lit "&amp;lt;")) = lit "&lt;"
  /\ resolve_entities (AttrStr (lit "&amp;lt;")) <> lit "<"
  /\ resolve_entities (AttrStr (lit "&#xD;")) = [13%N]
  /\ resolve_entities (AttrStr (lit "&#xA;")) = [10%N]
  /\ resolve_entities (AttrStr (lit "&lt;")) = lit "<"
  /\ resolve_entities (AttrStr (lit "&gt;")) = lit ">"
  /\ resolve_entities (AttrStr (lit "&quot;")) = [quot]
  /\ resolve_entities (AttrStr (lit "&apos;")) = lit "'"
  /\ resolve_entities (AttrStr (lit "&nbsp;")) = lit " "
  /\ resolve_entities (AttrStr (lit "&amp;")) = lit "&".
Proof.
  split; [reflexivity|].
  split; [intros s; apply resolve_after_amp|].
  repeat split; try reflexivity.
  vm_compute. discriminate.
Qed.

End EntitiesFacts.

(** ** Text insertion *)

Module TreeFacts.

Lemma no_adjacent_text_snoc_tag l name attrs els :
  no_adjacent_text l -> no_adjacent_text (l ++ [XmlTag name attrs els]).
Proof.
  induction l as [|x l IH]; simpl; [auto|].
  destruct x as [c|n a e].
  - destruct l as [|y l]; simpl; [auto|].
    destruct y; [tauto|]. intros H. apply IH. exact H.
  - intros H. apply IH. exact H.
Qed.

Lemma no_adjacent_text_snoc_text l name attrs els c :
  no_adjacent_text (l ++ [XmlTag name attrs els]) ->
  no_adjacent_text (l ++ [XmlTag name attrs els; XmlText c]).
Proof.
  induction l as [|x l IH]; simpl; [auto|].
  destruct x as [c0|n a e].
  - destruct l as [|y l]; simpl; [auto|].
    destruct y; [tauto|]. intros H. apply IH. exact H.
  - intros H. apply IH. exact H.
Qed.

Lemma no_adjacent_text_change_last l c c' :
  no_adjacent_text (l ++ [XmlText c]) -> no_adjacent_text (l ++ [XmlText c']).
Proof.
  induction l as [|x l IH]; simpl; [auto|].
  destruct x as [c0|n a e].
  - destruct l as [|y l]; simpl; [tauto|].
    destruct y; [tauto|]. intros H. apply IH. exact H.
  - intros H. apply IH. exact H.
Qed.

(** C9, as the specification states it, fails: [add_text] with a text node
    puts it next to a trailing text node. *)
Lemma add_text_node_makes_adjacent_text :
  ~ no_adjacent_text
      (elements_of (add_text (XmlTag (lit "w:t") [] [XmlText (lit "a")])
                      (TextNode (lit "b")))).
Proof. simpl. tauto. Qed.

(** C9 (amended): [add_text] with a plain value (a string, a number or
    [None]) never creates two adjacent text nodes: when the last child is a
    text node the resolved text is appended to its buffer and the number of
    children is unchanged, otherwise one text node is added after a child
    that is not text.  ([add_text] with an [XmlText] node and [add_element]
    append the node as it is.) *)
Theorem add_text_value_keeps_text_apart name attrs tags v
    (H : no_adjacent_text tags) :
  no_adjacent_text
    (elements_of (add_text (XmlTag name attrs tags) (TextValue v)))
  /\ (forall before c, tags = before ++ [XmlText c] ->
        add_text (XmlTag name attrs tags) (TextValue v)
        = XmlTag name attrs
            (before ++ [XmlText (c ++ Entities.resolve_entities
                                        (AttrStr (str_of_attr v)))])).
Proof.
  split.
  - unfold add_text.
    destruct (rev tags) as [|lst before] eqn:E.
    + apply (f_equal (@rev _)) in E. rewrite rev_involutive in E.
      subst tags. simpl. exact I.
    + apply (f_equal (@rev _)) in E. rewrite rev_involutive in E.
      simpl in E. subst tags.
      destruct lst as [c|n a e]; simpl.
      * eapply no_adjacent_text_change_last. exact H.
      * rewrite <- app_assoc. simpl.
        apply no_adjacent_text_snoc_text. exact H.
  - intros before c ->. unfold add_text.
    rewrite rev_app_distr. simpl. rewrite rev_involutive. reflexivity.
Qed.

Lemma add_text_value_keeps_text_apart_witness :
  no_adjacent_text
    (elements_of (add_text (XmlTag (lit "w:t") [] [XmlText (lit "a")])
                    (TextValue (AttrStr (lit "&lt;b")))))
  /\ add_text (XmlTag (lit "w:t") [] [XmlText (lit "a")])
       (TextValue (AttrStr (lit "&lt;b")))
     = XmlTag (lit "w:t") [] [XmlText (lit "a<b")].
Proof.
  destruct (@add_text_value_keeps_text_apart (lit "w:t") [] [XmlText (lit "a")]
              (AttrStr (lit "&lt;b")) I) as [H1 H2].
  split; [exact H1|].
  rewrite (H2 [] (lit "a") eq_refl). reflexivity.
Defined.

End TreeFacts.

(** ** Searching and slicing *)

Module FindFacts.
Import PyStrFacts.

Lemma starts_with_app sub s t :
  starts_with sub s = true -> starts_with sub (s ++ t) = true.
Proof.
  revert s. induction sub as [|c sub IH]; intros [|d s]; simpl; auto;
    try discriminate.
  intros H. apply andb_true_iff in H as [H1 H2].
  rewrite H1. simpl. auto.
Qed.

Lemma starts_with_length sub s :
  starts_with sub s = true -> length sub <= length s.
Proof.
  revert s. induction sub as [|c sub IH]; intros [|d s]; simpl;
    try discriminate; try lia.
  intros H. apply andb_true_iff in H as [_ H2]. apply IH in H2. lia.
Qed.

Lemma starts_with_app_false sub s t :
  starts_with sub s = false -> length sub <= length s ->
  starts_with sub (s ++ t) = false.
Proof.
  revert s. induction sub as [|c sub IH]; intros [|d s]; simpl;
    try discriminate; try lia.
  intros H Hl. destruct (c =? d)%N; simpl in *; [|reflexivity].
  apply IH; [exact H|lia].
Qed.

Lemma starts_with_self sub t : starts_with sub (sub ++ t) = true.
Proof.
  induction sub as [|c sub IH]; simpl; [reflexivity|].
  rewrite N.eqb_refl. exact IH.
Qed.

Lemma find_from_shift sub s pos :
  find_from sub s pos = option_map (Nat.add pos) (find_from sub s 0).
Proof.
  revert pos. induction s as [|c s IH]; intros pos; simpl.
  - destruct (starts_with sub []); simpl; [f_equal; lia|reflexivity].
  - destruct (starts_with sub (c :: s)); simpl; [f_equal; lia|].
    rewrite (IH (S pos)), (IH 1).
    destruct (find_from sub s 0); simpl; [f_equal; lia|reflexivity].
Qed.

Lemma find_from_room sub s pos i :
  find_from sub s pos = Some i ->
  pos <= i /\ (i - pos) + length sub <= length s.
Proof.
  revert pos. induction s as [|c s IH]; intros pos; simpl.
  - destruct (starts_with sub []) eqn:E; [|discriminate].
    intros [= <-]. apply starts_with_length in E. simpl in E. lia.
  - destruct (starts_with sub (c :: s)) eqn:E.
    + intros [= <-]. apply starts_with_length in E. simpl in E. lia.
    + intros H. apply IH in H. simpl. lia.
Qed.

(** The first occurrence stays the first when text is added at the end. *)
Lemma find_from_app sub s t pos i :
  find_from sub s pos = Some i -> find_from sub (s ++ t) pos = Some i.
Proof.
  revert pos. induction s as [|c s IH]; intros pos; simpl.
  - destruct (starts_with sub []) eqn:E; [|discriminate].
    intros [= <-]. destruct sub; [|discriminate].
    destruct t; reflexivity.
  - destruct (starts_with sub (c :: s)) eqn:E.
    + intros [= <-].
      change (c :: s ++ t) with ((c :: s) ++ t).
      rewrite (starts_with_app _ _ t E). reflexivity.
    + intros H. pose proof (find_from_room _ _ _ H) as [_ Hr].
      change (c :: s ++ t) with ((c :: s) ++ t).
      rewrite starts_with_app_false; [|exact E|simpl; lia].
      simpl. apply IH. exact H.
Qed.

Lemma find_from_first_at sub l rest pos :
  first_at sub l -> find_from sub (l ++ sub ++ rest) pos = Some (pos + length l).
Proof.
  unfold first_at. intros H.
  rewrite find_from_shift, app_assoc, (find_from_app _ _ rest _ H).
  reflexivity.
Qed.

Lemma find_of_nat sub s n :
  n <= length s ->
  find sub s (Z.of_nat n)
  = match find_from sub (skipn n s) n with
    | Some i => Z.of_nat i
    | None => (-1)%Z
    end.
Proof.
  intros H. unfold find, clamp.
  destruct (Z.ltb_spec (Z.of_nat (length s)) (Z.of_nat n)); [lia|].
  destruct (Z.ltb_spec (Z.of_nat n) 0); [lia|].
  rewrite Nat2Z.id, Nat.min_l by lia. reflexivity.
Qed.

Lemma skipn_app_length {A} (a b : list A) : skipn (length a) (a ++ b) = b.
Proof. induction a; simpl; auto. Qed.

Lemma firstn_app_length {A} (a b : list A) : firstn (length a) (a ++ b) = a.
Proof. induction a; simpl; [reflexivity|f_equal; auto]. Qed.

(** Searching from the end of [a] in [a ++ t] is searching in [t]. *)
Lemma find_app_at sub a t :
  find sub (a ++ t) (Z.of_nat (length a))
  = match find_from sub t 0 with
    | Some i => Z.of_nat (length a + i)
    | None => (-1)%Z
    end.
Proof.
  rewrite find_of_nat by (rewrite length_app; lia).
  rewrite skipn_app_length, find_from_shift.
  destruct (find_from sub t 0); reflexivity.
Qed.

Lemma slice_of_nat s a b :
  a <= b -> b <= length s ->
  slice s (Z.of_nat a) (Z.of_nat b) = firstn (b - a) (skipn a s).
Proof.
  intros Ha Hb. unfold slice, clamp.
  destruct (Z.ltb_spec (Z.of_nat a) 0); [lia|].
  destruct (Z.ltb_spec (Z.of_nat b) 0); [lia|].
  rewrite !Nat2Z.id, !Nat.min_l by lia. reflexivity.
Qed.

Lemma slice_app_mid (a b c : pystr) :
  slice (a ++ b ++ c) (Z.of_nat (length a)) (Z.of_nat (length a + length b))
  = b.
Proof.
  rewrite slice_of_nat by (rewrite ?length_app; lia).
  rewrite skipn_app_length.
  replace (length a + length b - length a) with (length b) by lia.
  apply firstn_app_length.
Qed.

Lemma slice_from_app (a b : pystr) :
  slice_from (a ++ b) (Z.of_nat (length a)) = b.
Proof.
  unfold slice_from, clamp.
  destruct (Z.ltb_spec (Z.of_nat (length a)) 0); [lia|].
  rewrite Nat2Z.id, Nat.min_l by (rewrite length_app; lia).
  apply skipn_app_length.
Qed.

End FindFacts.

(** ** The resolver and the ledger *)

Module LedgerFacts.
Import PyStrFacts.

Lemma dict_set_twice {V} (d : dict V) k v :
  dict_set (dict_set d k v) k v = dict_set d k v.
Proof.
  induction d as [|[k' v'] d IH]; simpl.
  - rewrite eqb_refl. reflexivity.
  - destruct (PyStr.eqb k' k) eqn:E; simpl; rewrite E; [reflexivity|].
    rewrite IH. reflexivity.
Qed.

Lemma dict_set_not_nil {V} (d : dict V) k v : dict_set d k v <> [].
Proof.
  destruct d as [|[k' v'] d]; simpl; [discriminate|].
  destruct (PyStr.eqb k' k); discriminate.
Qed.

Lemma dotdict_value_idem v : dotdict_value (dotdict_value v) = dotdict_value v.
Proof.
  revert v. fix IH 1. intros [| | | | |dot entries]; try reflexivity.
  simpl. f_equal. rewrite map_map. simpl.
  induction entries as [|[k x] entries IHe]; simpl; [reflexivity|].
  rewrite IH, IHe. reflexivity.
Qed.

Lemma DotDict_create_idem m : DotDict_create (DotDict_create m) = DotDict_create m.
Proof.
  unfold DotDict_create. rewrite map_map. apply map_ext.
  intros [k v]. simpl. rewrite dotdict_value_idem. reflexivity.
Qed.

Lemma DotDict_create_set m k v :
  DotDict_create (dict_set m k v) = dict_set (DotDict_create m) k (dotdict_value v).
Proof.
  induction m as [|[k' v'] m IH]; simpl; [reflexivity|].
  destruct (PyStr.eqb k' k); simpl; [reflexivity|].
  rewrite <- IH. reflexivity.
Qed.

Section WithEval.
Variable py_eval : pystr -> scope -> res value.

Lemma resolve_param_value_eq m row c p :
  resolve_param_value py_eval m row (c :: p)
  = (prepared_map row m,
     after_except (py_eval (plain_quotes (c :: p)) (prepared_map row m))).
Proof.
  unfold resolve_param_value, prepared_map, plain_quotes, after_except.
  destruct (py_eval _ _) as [v|[]|]; reflexivity.
Qed.

Lemma prepared_map_idem row m :
  prepared_map row (prepared_map row m) = prepared_map row m.
Proof.
  unfold prepared_map. destruct row as [r|].
  - destruct m as [|kv m]; [reflexivity|].
    rewrite DotDict_create_set. simpl dotdict_value.
    destruct (dict_set (DotDict_create (kv :: m)) (lit "row") (VInt r)) eqn:E.
    + exfalso. exact (dict_set_not_nil _ _ _ E).
    + rewrite <- E, dict_set_twice.
      change (VInt r) with (dotdict_value (VInt r)).
      rewrite <- (DotDict_create_set (kv :: m) (lit "row") (VInt r)).
      apply DotDict_create_idem.
  - destruct (DotDict_create m) eqn:E; rewrite <- E; apply DotDict_create_idem.
Qed.

(** Resolving the same expression again finds the map as the first
    resolution left it, and gives the same outcome. *)
Lemma resolve_param_value_again m row p :
  resolve_param_value py_eval (fst (resolve_param_value py_eval m row p)) row p
  = resolve_param_value py_eval m row p.
Proof.
  destruct p as [|c p]; [reflexivity|].
  rewrite !resolve_param_value_eq. simpl fst.
  rewrite prepared_map_idem. reflexivity.
Qed.

Lemma resolve_value_miss d row p :
  unresolved py_eval d row p ->
  resolve_value py_eval row p d = Ok (VStr [], miss_state py_eval d row p).
Proof.
  intros [H1 H2].
  unfold resolve_value, mbind, default_value_resolver, value_resolver.
  destruct (resolve_param_value py_eval (default_params d) row p)
    as [m1 r1] eqn:E1.
  simpl in H1. subst r1. simpl.
  unfold miss_state. rewrite E1.
  destruct (resolve_param_value py_eval (value_map d) row p) as [m2 r2] eqn:E2.
  simpl in H2. subst r2. reflexivity.
Qed.

Lemma unresolved_miss_state d row p :
  unresolved py_eval d row p ->
  unresolved py_eval (miss_state py_eval d row p) row p.
Proof.
  intros [H1 H2]. unfold unresolved, miss_state. simpl.
  rewrite !resolve_param_value_again. split; assumption.
Qed.

Lemma append_new_idem l p : append_new (append_new l p) p = append_new l p.
Proof.
  unfold append_new. destruct (mem_str p l) eqn:E; [rewrite E; reflexivity|].
  unfold mem_str. rewrite existsb_app. simpl.
  rewrite eqb_refl, orb_true_r. reflexivity.
Qed.

Lemma miss_state_idem d row p :
  miss_state py_eval (miss_state py_eval d row p) row p
  = miss_state py_eval d row p.
Proof.
  unfold miss_state. simpl.
  rewrite !resolve_param_value_again, append_new_idem. reflexivity.
Qed.

Lemma mem_str_In p l : mem_str p l = true <-> In p l.
Proof.
  unfold mem_str. rewrite existsb_exists. split.
  - intros [x [Hx E]]. apply eqb_eq in E. subst. exact Hx.
  - intros H. exists p. split; [exact H|apply eqb_refl].
Qed.

(** A ledger without repetitions holds an entry exactly once after it was
    noted. *)
Lemma append_new_count l p :
  NoDup l ->
  NoDup (append_new l p) /\ occurrences p (append_new l p) = 1.
Proof.
  intros Hn. unfold append_new, occurrences. destruct (mem_str p l) eqn:E.
  - split; [exact Hn|]. apply mem_str_In in E.
    apply (NoDup_count_occ' pystr_eq_dec); assumption.
  - assert (Hni : ~ In p l).
    { intros Hi. apply mem_str_In in Hi. congruence. }
    split.
    + apply NoDup_app; [exact Hn|repeat constructor; intros []|].
      intros x Hx [<-|[]]. contradiction.
    + rewrite count_occ_app.
      apply (count_occ_not_In pystr_eq_dec) in Hni.
      rewrite Hni. simpl.
      destruct (pystr_eq_dec p p); [reflexivity|congruence].
Qed.

(** [resolve_value] never hands out [None]. *)
Lemma resolve_value_not_None row p d v d' :
  resolve_value py_eval row p d = Ok (v, d') -> is_None v = false.
Proof.
  unfold resolve_value, mbind, default_value_resolver, value_resolver, lift, ret.
  destruct (resolve_param_value py_eval (default_params d) row p) as [m1 [v1| |]];
    try discriminate.
  destruct (is_None v1) eqn:E1.
  - destruct (resolve_param_value py_eval _ row p) as [m2 [v2| |]];
      try discriminate.
    destruct (is_None v2) eqn:E2; simpl; intros [= <- _]; auto.
  - simpl. rewrite E1. simpl. intros [= <- _]. exact E1.
Qed.

End WithEval.

End LedgerFacts.

(** ** Placeholder scanning *)

Module ScanFacts.
Import PyStrFacts FindFacts LedgerFacts.

Lemma find_R2_skip_open t : find_from R2 (L2 ++ t) 0 = find_from R2 t 2.
Proof. reflexivity. Qed.

(** What the two searches and the two slices of one turn of the loops give
    on a text that continues with a literal and a placeholder. *)
Lemma scan_facts a l p rest :
  first_at L2 l -> first_at R2 p ->
  let value := a ++ l ++ L2 ++ p ++ R2 ++ rest in
  let idx1 := Z.of_nat (length a + length l) in
  let idx2 := (idx1 + 2 + Z.of_nat (length p))%Z in
  find L2 value (Z.of_nat (length a)) = idx1
  /\ find R2 value idx1 = idx2
  /\ slice value (Z.of_nat (length a)) idx1 = l
  /\ slice value (idx1 + 2) idx2 = p
  /\ (idx2 + 2)%Z = Z.of_nat (length (a ++ l ++ L2 ++ p ++ R2))
  /\ value = (a ++ l ++ L2 ++ p ++ R2) ++ rest.
Proof.
  intros Hl Hp value idx1 idx2. unfold idx2, idx1, value.
  repeat split.
  - rewrite find_app_at, find_from_first_at by exact Hl. reflexivity.
  - rewrite (app_assoc a l), <- length_app, find_app_at.
    rewrite find_R2_skip_open, find_from_first_at by exact Hp.
    rewrite !length_app. f_equal. lia.
  - apply slice_app_mid.
  - replace (Z.of_nat (length a + length l) + 2)%Z
      with (Z.of_nat (length (a ++ l ++ L2)))
      by (rewrite !length_app; simpl; lia).
    replace (Z.of_nat (length (a ++ l ++ L2)) + Z.of_nat (length p))%Z
      with (Z.of_nat (length (a ++ l ++ L2) + length p)) by lia.
    replace (a ++ l ++ L2 ++ p ++ R2 ++ rest)
      with ((a ++ l ++ L2) ++ p ++ R2 ++ rest)
      by (rewrite <- !app_assoc; reflexivity).
    apply slice_app_mid.
  - rewrite !length_app. simpl. lia.
  - rewrite <- !app_assoc. reflexivity.
Qed.

(** At the end of the placeholders the search for a further one fails or
    finds an opening mark that is never closed. *)
Lemma scan_tail a tail :
  no_placeholder tail ->
  (find L2 (a ++ tail) (Z.of_nat (length a)) >=? 0)%Z = false
  \/ ((find L2 (a ++ tail) (Z.of_nat (length a)) >=? 0)%Z = true
      /\ (find R2 (a ++ tail) (find L2 (a ++ tail) (Z.of_nat (length a)))
          <=? find L2 (a ++ tail) (Z.of_nat (length a)))%Z = true).
Proof.
  unfold no_placeholder. intros H.
  rewrite find_app_at.
  destruct (find_from L2 tail 0) as [i|] eqn:E; [right|left; reflexivity].
  split; [apply Z.geb_le; lia|].
  pose proof (find_from_room _ _ _ E) as [_ Hr].
  rewrite find_of_nat by (rewrite length_app; lia).
  rewrite skipn_app, skipn_all2 by lia. simpl.
  replace (length a + i - length a) with i by lia.
  rewrite find_from_shift, H. simpl. apply Z.leb_le. lia.
Qed.

Lemma render_cons l p segs :
  render ((l, p) :: segs) = l ++ L2 ++ p ++ R2 ++ render segs.
Proof.
  unfold render. cbn [flat_map fst snd].
  rewrite <- !app_assoc. reflexivity.
Qed.

Lemma render_length segs : length segs <= length (render segs).
Proof.
  induction segs as [|[l p] segs IH]; [simpl; lia|].
  rewrite render_cons, !length_app. simpl. lia.
Qed.

Lemma starts_with_split sub s :
  starts_with sub s = true -> exists b, s = sub ++ b.
Proof.
  revert s. induction sub as [|c sub IH]; intros s H.
  - exists s. reflexivity.
  - destruct s as [|d s]; [discriminate|]. simpl in H.
    apply andb_true_iff in H as [H1 H2]. apply N.eqb_eq in H1. subst d.
    destruct (IH _ H2) as [b ->]. exists b. reflexivity.
Qed.

Lemma find_from_eq sub s pos :
  find_from sub s pos =
  if starts_with sub s then Some pos
  else match s with [] => None | _ :: s' => find_from sub s' (S pos) end.
Proof. destruct s; reflexivity. Qed.

(** The text before the first occurrence runs up to it. *)
Lemma find_from_split sub s :
  forall i, find_from sub s 0 = Some i ->
    exists a b, s = a ++ sub ++ b /\ length a = i /\ first_at sub a.
Proof.
  unfold first_at. induction s as [|c s IH]; intros i H;
    rewrite find_from_eq in H.
  - destruct (starts_with sub []) eqn:E; [|discriminate].
    injection H as <-. destruct (starts_with_split _ _ E) as [b Hb].
    exists [], b. split; [exact Hb|]. split; [reflexivity|].
    cbn [app length]. rewrite find_from_eq.
    rewrite <- (app_nil_r sub) at 2. rewrite starts_with_self. reflexivity.
  - destruct (starts_with sub (c :: s)) eqn:E.
    + injection H as <-. destruct (starts_with_split _ _ E) as [b Hb].
      exists [], b. split; [exact Hb|]. split; [reflexivity|].
      cbn [app length]. rewrite find_from_eq.
      rewrite <- (app_nil_r sub) at 2. rewrite starts_with_self. reflexivity.
    + rewrite find_from_shift in H.
      destruct (find_from sub s 0) as [k|] eqn:Ek; [|discriminate].
      simpl in H. injection H as <-.
      destruct (IH _ eq_refl) as (a & b & -> & Hl & Hf).
      exists (c :: a), b. split; [reflexivity|]. split; [simpl; lia|].
      change ((c :: a) ++ sub) with (c :: (a ++ sub)).
      rewrite find_from_eq.
      destruct (starts_with sub (c :: a ++ sub)) eqn:E2.
      * exfalso.
        change (c :: a ++ sub) with ((c :: a) ++ sub) in E2.
        apply (starts_with_app _ _ b) in E2.
        rewrite <- app_assoc in E2. simpl in E2. congruence.
      * rewrite find_from_shift, Hf. simpl. rewrite Hl. reflexivity.
Qed.

(** Every text is a sequence of placeholders, each after its literal,
    followed by a tail without a complete placeholder. *)
Lemma text_decomposes n :
  forall value, length value <= n ->
    exists segs tail,
      value = render segs ++ tail /\ well_formed segs /\ no_placeholder tail.
Proof.
  induction n as [|n IH]; intros value Hn.
  - destruct value; [|simpl in Hn; lia].
    exists [], []. split; [reflexivity|]. split; [constructor|exact I].
  - destruct (find_from L2 value 0) as [i|] eqn:E1.
    + destruct (find_from_split _ _ E1) as (l & v1 & Hv & Hl & Hfl).
      destruct (find_from R2 v1 0) as [j|] eqn:E2.
      * destruct (find_from_split _ _ E2) as (p & v2 & Hv2 & Hp & Hfp).
        assert (Hlen : length v2 <= n).
        { subst value v1. rewrite !length_app in Hn. simpl in Hn. lia. }
        destruct (IH v2 Hlen) as (segs & tail & Hs & Hw & Ht).
        exists ((l, p) :: segs), tail.
        split; [|split; [|exact Ht]].
        -- rewrite render_cons, <- !app_assoc. subst value v1 v2.
           reflexivity.
        -- constructor; [split; assumption|exact Hw].
      * exists [], value. split; [reflexivity|]. split; [constructor|].
        unfold no_placeholder. rewrite E1.
        rewrite Hv, <- Hl, skipn_app_length, find_R2_skip_open.
        rewrite find_from_shift, E2. reflexivity.
    + exists [], value. split; [reflexivity|]. split; [constructor|].
      unfold no_placeholder. rewrite E1. exact I.
Qed.

Section WithEval.
Variable py_eval : pystr -> scope -> res value.

(** The loop of [Document.resolve_text] expands the placeholders it meets
    and stops at the first text without a complete placeholder. *)
Lemma resolve_text_loop_expand row segs :
  forall a rtext fuel d tail,
    well_formed segs -> no_placeholder tail -> length segs < fuel ->
    resolve_text_loop py_eval fuel row (a ++ render segs ++ tail) rtext
      (Z.of_nat (length a))
      (find L2 (a ++ render segs ++ tail) (Z.of_nat (length a))) d
    = expand py_eval row segs rtext d.
Proof.
  induction segs as [|[l p] segs IH]; intros a rtext fuel d tail Hw Ht Hf.
  - destruct fuel as [|fuel]; [simpl in Hf; lia|].
    simpl render. simpl app.
    destruct (@scan_tail a tail Ht) as [E|[E1 E2]]; simpl.
    + fold L2. rewrite E. reflexivity.
    + fold L2 R2. rewrite E1, E2. reflexivity.
  - destruct fuel as [|fuel]; [simpl in Hf; lia|].
    inversion Hw as [|x xs [Hl Hp] Hw']; subst. simpl in Hl, Hp.
    rewrite render_cons, <- !app_assoc.
    destruct (@scan_facts a l p (render segs ++ tail) Hl Hp)
      as (F1 & F2 & S1 & S2 & Hlen & Hval).
    rewrite F1.
    cbn [resolve_text_loop]. fold L2 R2.
    rewrite F2, S1, S2.
    replace (Z.of_nat (length a + length l) >=? 0)%Z with true
      by (symmetry; apply Z.geb_le; lia).
    replace (Z.of_nat (length a + length l) + 2 + Z.of_nat (length p)
             <=? Z.of_nat (length a + length l))%Z with false
      by (symmetry; apply Z.leb_gt; lia).
    cbn [expand]. unfold mbind.
    destruct (resolve_value py_eval row p d) as [[v d']| |] eqn:Ev;
      [|reflexivity|reflexivity].
    rewrite (resolve_value_not_None _ _ _ _ Ev).
    rewrite Hlen, Hval, <- (app_assoc rtext l (py_str v)).
    apply IH; [exact Hw'|exact Ht|simpl in Hf; lia].
Qed.

(** The loop of [__resolve_text_value] does the same and keeps the literal
    text aside. *)
Lemma text_value_loop_expand row segs :
  forall a text1 text2 fuel d tail,
    well_formed segs -> no_placeholder tail -> length segs < fuel ->
    text_value_loop py_eval fuel row (a ++ render segs ++ tail) text1 text2
      (Z.of_nat (length a))
      (find L2 (a ++ render segs ++ tail) (Z.of_nat (length a))) d
    = (text1' <- expand py_eval row segs text1 ;;
       ret (text1', text2 ++ literals segs,
            Z.of_nat (length (a ++ render segs)))) d.
Proof.
  induction segs as [|[l p] segs IH]; intros a text1 text2 fuel d tail Hw Ht Hf.
  - destruct fuel as [|fuel]; [simpl in Hf; lia|].
    simpl render. simpl app. unfold literals. simpl flat_map.
    rewrite !app_nil_r.
    destruct (@scan_tail a tail Ht) as [E|[E1 E2]]; simpl.
    + fold L2. rewrite E. reflexivity.
    + fold L2 R2. rewrite E1, E2. reflexivity.
  - destruct fuel as [|fuel]; [simpl in Hf; lia|].
    inversion Hw as [|x xs [Hl Hp] Hw']; subst. simpl in Hl, Hp.
    rewrite render_cons, <- !app_assoc.
    destruct (@scan_facts a l p (render segs ++ tail) Hl Hp)
      as (F1 & F2 & S1 & S2 & Hlen & Hval).
    rewrite F1.
    cbn [text_value_loop]. fold L2 R2.
    rewrite F2, S1, S2.
    replace (Z.of_nat (length a + length l) >=? 0)%Z with true
      by (symmetry; apply Z.geb_le; lia).
    replace (Z.of_nat (length a + length l) + 2 + Z.of_nat (length p)
             <=? Z.of_nat (length a + length l))%Z with false
      by (symmetry; apply Z.leb_gt; lia).
    cbn [expand]. unfold mbind at 1 2 3.
    destruct (resolve_value py_eval row p d) as [[v d']| |] eqn:Ev;
      [|reflexivity|reflexivity].
    rewrite (resolve_value_not_None _ _ _ _ Ev).
    rewrite Hlen, Hval, <- (app_assoc text1 l (py_str v)).
    rewrite IH; [|exact Hw'|exact Ht|simpl in Hf; lia].
    unfold mbind.
    destruct (expand py_eval row segs (text1 ++ l ++ py_str v) d')
      as [[t d'']| |]; [|reflexivity|reflexivity].
    unfold ret, literals. simpl flat_map.
    rewrite <- !app_assoc. reflexivity.
Qed.

End WithEval.

End ScanFacts.

(** ** Resolution of placeholders *)

Module ResolveFacts.
Import PyStrFacts FindFacts LedgerFacts ScanFacts.

Section WithEval.
Variable py_eval : pystr -> scope -> res value.

(** The three exceptions of the [except] clauses give the unresolved
    marker. *)
Lemma resolve_param_value_caught m row c p :
  py_eval (plain_quotes (c :: p)) (prepared_map row m) = Raise AttributeError
  \/ py_eval (plain_quotes (c :: p)) (prepared_map row m) = Raise NameError
  \/ py_eval (plain_quotes (c :: p)) (prepared_map row m) = Raise TypeError ->
  snd (resolve_param_value py_eval m row (c :: p)) = Ok VNone.
Proof.
  rewrite resolve_param_value_eq. simpl.
  intros [H|[H|H]]; rewrite H; reflexivity.
Qed.

(** Any other exception of the evaluator leaves [resolve_param_value] and
    [resolve_value] as it is. *)
Lemma resolve_param_value_uncaught m row c p e :
  py_eval (plain_quotes (c :: p)) (prepared_map row m) = Raise e ->
  e <> AttributeError -> e <> NameError -> e <> TypeError ->
  snd (resolve_param_value py_eval m row (c :: p)) = Raise e.
Proof.
  rewrite resolve_param_value_eq. simpl. intros H H1 H2 H3. rewrite H.
  destruct e; try reflexivity; congruence.
Qed.

Lemma first_segment_found l p segs tail :
  first_at L2 l ->
  find L2 (render ((l, p) :: segs) ++ tail) 0 = Z.of_nat (length l).
Proof.
  intros Hl. rewrite render_cons, <- !app_assoc.
  change 0%Z with (Z.of_nat (length (@nil char))).
  change (l ++ L2 ++ p ++ R2 ++ render segs ++ tail)
    with ([] ++ l ++ L2 ++ (p ++ R2 ++ render segs ++ tail)).
  rewrite find_app_at, find_from_first_at by exact Hl. reflexivity.
Qed.

Lemma resolve_text_expand row segs tail d :
  segs <> [] -> well_formed segs -> no_placeholder tail ->
  resolve_text py_eval row (render segs ++ tail) d
  = expand py_eval row segs [] d.
Proof.
  intros Hne Hw Ht. unfold resolve_text. fold L2.
  pose proof (@resolve_text_loop_expand py_eval row segs []
                [] (S (length (render segs ++ tail))) d tail Hw Ht) as H.
  simpl app in H. simpl length in H. change (Z.of_nat 0) with 0%Z in H.
  destruct segs as [|[l p] segs]; [congruence|].
  inversion Hw as [|x xs [Hl Hp] Hw']; subst. simpl in Hl.
  rewrite (@first_segment_found l p segs tail Hl) in *.
  destruct (Z.ltb_spec (Z.of_nat (length l)) 0); [lia|].
  apply H. rewrite length_app.
  pose proof (render_length ((l, p) :: segs)). lia.
Qed.

(** A text without opening mark is returned as it is; a text with an
    opening mark and no complete placeholder gives the empty string. *)
Lemma resolve_text_no_placeholder row value d :
  no_placeholder value ->
  resolve_text py_eval row value d
  = match find_from L2 value 0 with
    | None => Ok (value, d)
    | Some _ => Ok ([], d)
    end.
Proof.
  intros Ht. unfold resolve_text. fold L2.
  pose proof (@resolve_text_loop_expand py_eval row [] []
                [] (S (length value)) d value (Forall_nil _) Ht) as H.
  simpl in H.
  pose proof (find_app_at L2 [] value) as F. simpl in F. rewrite F in *.
  destruct (find_from L2 value 0) as [i|].
  - destruct (Z.ltb_spec (Z.of_nat i) 0); [lia|]. apply H. lia.
  - reflexivity.
Qed.

Lemma resolve_text_value_expand row segs tail attrs others d :
  segs <> [] -> well_formed segs -> no_placeholder tail ->
  resolve_text_value py_eval row
    (XmlTag TAG_T attrs (XmlText (render segs ++ tail) :: others)) d
  = (text1 <- expand py_eval row segs [] ;;
     let changed :=
       negb (PyStr.eqb (text1 ++ tail) (literals segs ++ tail)) in
     ret ((changed, true, changed),
          XmlTag TAG_T attrs (XmlText (text1 ++ tail) :: others))) d.
Proof.
  intros Hne Hw Ht.
  pose proof (@text_value_loop_expand py_eval row segs []
                [] [] (S (length (render segs ++ tail))) d tail Hw Ht) as H.
  simpl app in H. simpl length in H. change (Z.of_nat 0) with 0%Z in H.
  destruct segs as [|[l p] segs]; [congruence|].
  inversion Hw as [|x xs [Hl Hp] Hw']; subst. simpl in Hl.
  cbn [resolve_text_value]. rewrite eqb_refl. cbn [negb]. fold L2.
  rewrite (@first_segment_found l p segs tail Hl) in *.
  destruct (Z.ltb_spec (Z.of_nat (length l)) 0); [lia|].
  unfold mbind at 1. rewrite H
    by (rewrite length_app; pose proof (render_length ((l, p) :: segs)); lia).
  unfold mbind.
  destruct (expand py_eval row ((l, p) :: segs) [] d) as [[t d']| |];
    [|reflexivity|reflexivity].
  unfold ret.
  replace (Z.of_nat (length (render ((l, p) :: segs))))
    with (Z.of_nat (length (render ((l, p) :: segs))) ) by reflexivity.
  rewrite slice_from_app. reflexivity.
Qed.

(** C4: when an expression resolves neither against the loop scope nor
    against the data map, [resolve_value] gives the empty string, a text
    node in which the placeholder occurs twice gets both occurrences
    replaced by nothing, and the expression stands exactly once in the
    ledger of failed parameters afterwards. *)
Theorem unresolved_placeholder_empty_and_noted_once
    d row p pre mid post attrs others
    (Hmiss : unresolved py_eval d row p)
    (Hledger : NoDup (access_err_param_list d))
    (Hpre : first_at L2 pre) (Hmid : first_at L2 mid) (Hp : first_at R2 p)
    (Hpost : no_placeholder post) :
  resolve_value py_eval row p d = Ok (VStr [], miss_state py_eval d row p)
  /\ resolve_text_value py_eval row
       (XmlTag TAG_T attrs
          (XmlText (pre ++ L2 ++ p ++ R2 ++ mid ++ L2 ++ p ++ R2 ++ post)
           :: others)) d
     = Ok (((false, true, false),
            XmlTag TAG_T attrs (XmlText (pre ++ mid ++ post) :: others)),
           miss_state py_eval d row p)
  /\ occurrences p (access_err_param_list (miss_state py_eval d row p)) = 1.
Proof.
  split; [apply resolve_value_miss; exact Hmiss|]. split.
  - pose proof (@resolve_text_value_expand row [(pre, p); (mid, p)] post
                  attrs others d) as H.
    rewrite !render_cons in H. simpl render in H.
    rewrite app_nil_r, <- !app_assoc in H.
    rewrite H; [|discriminate|repeat constructor; assumption|exact Hpost].
    cbn [expand]. unfold mbind.
    rewrite (resolve_value_miss Hmiss).
    rewrite (resolve_value_miss (unresolved_miss_state Hmiss)).
    rewrite miss_state_idem. unfold ret, literals. simpl.
    rewrite !app_nil_r, <- !app_assoc, eqb_refl. reflexivity.
  - simpl. apply append_new_count. exact Hledger.
Qed.

(** C10 (amended): on a text that starts with one or more placeholders,
    each after its literal, and goes on with a tail in which no placeholder
    is complete, [Document.resolve_text] returns the literals and the
    resolved values up to the last closing mark and nothing of the tail,
    whatever the tail is.  A text without opening mark is returned
    unchanged; a text with an opening mark and no complete placeholder
    gives the empty string.  Every text is of one of these shapes. *)
Theorem resolve_text_drops_tail row segs tail d
    (Hsegs : segs <> []) (Hw : well_formed segs)
    (Htail : no_placeholder tail) :
  resolve_text py_eval row (render segs ++ tail) d
  = expand py_eval row segs [] d
  /\ resolve_text py_eval row (render segs ++ tail) d
     = resolve_text py_eval row (render segs) d
  /\ (forall value, find_from L2 value 0 = None ->
        resolve_text py_eval row value d = Ok (value, d))
  /\ (forall value i, find_from L2 value 0 = Some i ->
        find_from R2 (skipn i value) 0 = None ->
        resolve_text py_eval row value d = Ok ([], d))
  /\ (forall value, exists segs' tail',
        value = render segs' ++ tail' /\ well_formed segs'
        /\ no_placeholder tail').
Proof.
  split; [apply resolve_text_expand; assumption|]. split.
  - rewrite resolve_text_expand by assumption.
    rewrite <- (app_nil_r (render segs)).
    rewrite resolve_text_expand; [reflexivity|assumption|assumption|exact I].
  - split; [|split].
    + intros value H. rewrite resolve_text_no_placeholder.
      * rewrite H. reflexivity.
      * unfold no_placeholder. rewrite H. exact I.
    + intros value i H1 H2. rewrite resolve_text_no_placeholder.
      * rewrite H1. reflexivity.
      * unfold no_placeholder. rewrite H1. exact H2.
    + intros value. exact (@text_decomposes (length value) value (le_n _)).
Qed.

End WithEval.

Import PathEval.

Lemma unresolved_placeholder_empty_and_noted_once_witness :
  resolve_text_value path_eval None
    (XmlTag TAG_T []
       [XmlText (lit "a{{ missing.key }}b{{ missing.key }}c")])
    (new_document [(lit "name", VStr (lit "Ada"))] false)
  = Ok (((false, true, false), XmlTag TAG_T [] [XmlText (lit "abc")]),
        miss_state path_eval
          (new_document [(lit "name", VStr (lit "Ada"))] false) None
          (lit " missing.key "))
  /\ access_err_param_list
       (miss_state path_eval
          (new_document [(lit "name", VStr (lit "Ada"))] false) None
          (lit " missing.key ")) = [lit " missing.key "].
Proof.
  split; [|reflexivity].
  apply (@unresolved_placeholder_empty_and_noted_once path_eval
           (new_document [(lit "name", VStr (lit "Ada"))] false) None
           (lit " missing.key ") (lit "a") (lit "b") (lit "c") [] []).
  - split; reflexivity.
  - constructor.
  - reflexivity.
  - reflexivity.
  - reflexivity.
  - exact I.
Defined.

(** C10, as the specification states it, fails: a text with an opening
    mark and no placeholder is not returned unchanged. *)
Lemma resolve_text_unclosed_mark_gives_nothing :
  resolve_text path_eval None (lit "a{{b") (new_document [] false)
  = Ok ([], new_document [] false)
  /\ resolve_text path_eval None (lit "a{{b") (new_document [] false)
     <> Ok (lit "a{{b", new_document [] false).
Proof. split; [reflexivity|discriminate]. Qed.

Lemma resolve_text_drops_tail_witness :
  resolve_text path_eval None (lit "Hello {{name}}, bye")
    (new_document [(lit "name", VStr (lit "Ada"))] false)
  = expand path_eval None [(lit "Hello ", lit "name")] []
      (new_document [(lit "name", VStr (lit "Ada"))] false)
  /\ expand path_eval None [(lit "Hello ", lit "name")] []
       (new_document [(lit "name", VStr (lit "Ada"))] false)
     = Ok (lit "Hello Ada",
           mkDocument [] [(lit "name", VStr (lit "Ada"))] [lit "name"] []
             false []).
Proof.
  split; [|reflexivity].
  apply (@resolve_text_drops_tail path_eval None
           [(lit "Hello ", lit "name")] (lit ", bye")
           (new_document [(lit "name", VStr (lit "Ada"))] false)).
  - discriminate.
  - repeat constructor.
  - exact I.
Defined.

(** C5 at the failing input: a subscript with a missing key makes the
    evaluator raise [KeyError], which none of the [except] clauses takes;
    the error leaves [resolve_param_value] and [resolve_value] and ends the
    processing of the paragraphs.  An index out of range does the same with
    [IndexError]. *)
Theorem missing_key_subscript_raises :
  snd (resolve_param_value path_eval
         [(lit "d", VDict false [(lit "a", VInt 1)])] None (lit "d['b']"))
  = Raise KeyError
  /\ resolve_value path_eval None (lit "d['b']")
       (new_document [(lit "d", VDict false [(lit "a", VInt 1)])] false)
     = Raise KeyError
  /\ process_elements path_eval 3 [paragraph [] (lit "{{d['b']}}")] 0
       (new_document [(lit "d", VDict false [(lit "a", VInt 1)])] false)
     = Raise KeyError
  /\ snd (resolve_param_value path_eval
            [(lit "items", VList [VInt 1])] None (lit "items[5]"))
     = Raise IndexError
  /\ snd (resolve_param_value path_eval
            [(lit "d", VDict false [(lit "a", VInt 1)])] None (lit "d.b"))
     = Ok VNone
  /\ snd (resolve_param_value path_eval
            [(lit "d", VDict false [(lit "a", VInt 1)])] None (lit "e.b"))
     = Ok VNone.
Proof. repeat split; vm_compute; reflexivity. Qed.

End ResolveFacts.

(** ** The directive engine *)

Module DirectiveFacts.
Import PyStrFacts.


Lemma tags_only_app a b : tags_only (a ++ b) = tags_only a ++ tags_only b.
Proof. apply filter_app. Qed.




Lemma nth_error_middle {A} (pre : list A) x rest :
  nth_error (pre ++ x :: rest) (length pre) = Some x.
Proof. induction pre; simpl; auto. Qed.

Lemma skipn_middle {A} (pre : list A) x rest :
  skipn (S (length pre)) (pre ++ x :: rest) = rest.
Proof. induction pre; simpl; auto. Qed.

Lemma firstn_middle {A} (pre : list A) rest :
  firstn (length pre) (pre ++ rest) = pre.
Proof. induction pre; simpl; [reflexivity|f_equal; auto]. Qed.


Lemma del_at_middle {A} (pre : list A) x rest :
  del_at (pre ++ x :: rest) (length pre) = pre ++ rest.
Proof. unfold del_at. rewrite firstn_middle, skipn_middle. reflexivity. Qed.

Lemma set_at_middle {A} (pre : list A) x y rest :
  set_at (pre ++ x :: rest) (length pre) y = pre ++ y :: rest.
Proof. unfold set_at. rewrite firstn_middle, skipn_middle. reflexivity. Qed.





End DirectiveFacts.

(** ** The for loop of the Word engine *)

Module ForFacts.
Import PyStrFacts DirectiveFacts.

Lemma clone_id e : clone true e = e.
Proof.
  revert e. fix IH 1. intros [c|name attrs els]; [reflexivity|].
  simpl. f_equal.
  induction els as [|x els IHe]; simpl; [reflexivity|].
  rewrite IH, IHe. reflexivity.
Qed.

Lemma map_clone_id l : map (clone true) l = l.
Proof.
  induction l as [|x l IH]; simpl; [reflexivity|].
  rewrite clone_id, IH. reflexivity.
Qed.






Section WithEval.
Variable py_eval : pystr -> scope -> res value.


Lemma resolve_repeating_test_mode param d n d' :
  resolve_repeating py_eval param d = Ok (n, d') ->
  test_mode d' = test_mode d.
Proof.
  unfold resolve_repeating, mbind, default_repeat_resolver,
    repeating_resolver, note_err, note_ok, ret, lift.
  destruct (resolve_param_repeating py_eval (default_params d) param)
    as [m1 [n1| |]]; try discriminate.
  destruct (n1 <? 0)%Z.
  - destruct (resolve_param_repeating py_eval _ param) as [m2 [n2| |]];
      try discriminate.
    destruct (n2 <? 0)%Z; intros [= _ <-]; reflexivity.
  - destruct (n1 <? 0)%Z; intros [= _ <-]; reflexivity.
Qed.





End WithEval.


Import PathEval.




(** C3 at the failing input: the body of the loop carries [id="5"]; both
    copies that the Word engine emits carry [id="5"], neither distinct nor
    above the highest identifier of the document.  [__reassign_ids], which
    the spreadsheet and presentation engines call on every copy, is never
    called by the Word engine; applied to the copies it would give 6 and
    7. *)
Theorem for_clones_keep_their_ids :
  (exists d',
     process_elements path_eval 4
       [paragraph [] (lit "{% for it in items %}");
        paragraph [(lit "id", AttrStr (lit "5"))] (lit "{{it.v}}");
        paragraph [] (lit "{% endfor %}")] 0
       (new_document
          [(lit "items",
            VList [VDict false [(lit "v", VInt 1)];
                   VDict false [(lit "v", VInt 2)]])] false)
     = Ok ([paragraph [(lit "id", AttrStr (lit "5"))] (lit "1");
            paragraph [(lit "id", AttrStr (lit "5"))] (lit "2")], d'))
  /\ flat_map ids_of
       [paragraph [(lit "id", AttrStr (lit "5"))] (lit "1");
        paragraph [(lit "id", AttrStr (lit "5"))] (lit "2")]
     = [AttrStr (lit "5"); AttrStr (lit "5")]
  /\ (let (c1, m1) :=
        reassign_ids (paragraph [(lit "id", AttrStr (lit "5"))] (lit "1")) 5 in
      let (c2, m2) :=
        reassign_ids (paragraph [(lit "id", AttrStr (lit "5"))] (lit "2")) m1 in
      flat_map ids_of [c1; c2] = [AttrInt 6; AttrInt 7] /\ m2 = 7%Z).
Proof.
  split; [eexists; vm_compute; reflexivity|].
  split; [reflexivity|]. vm_compute. split; reflexivity.
Qed.

End ForFacts.

(** ** Run collapsing *)

Module CollapseFacts.
Import PyStrFacts DirectiveFacts.

Lemma fixed_app P s l1 l2 :
  fixed P s (l1 ++ l2) <-> fixed P s l1 /\ fixed P (track s l1) l2.
Proof.
  revert s. induction l1 as [|e l1 IH]; intros s; simpl.
  - tauto.
  - rewrite IH. unfold track. simpl. tauto.
Qed.

Lemma track_app s l1 l2 : track s (l1 ++ l2) = track (track s l1) l2.
Proof. unfold track. apply fold_left_app. Qed.

(** The pass leaves a fixed list as it is, given that it leaves the
    settled elements of the list as they are. *)
Lemma collapse_loop_fixed cc l :
  (forall e, In e l -> settled e -> cc e = Ok e) ->
  forall done lr last_t,
    fixed settled (remembered_of lr last_t) l ->
    collapse_loop cc done lr last_t l = Ok (done ++ l).
Proof.
  induction l as [|e l IH]; intros Hcc done lr last_t Hf.
  - simpl. rewrite app_nil_r. reflexivity.
  - assert (Hcc' : forall x, In x l -> settled x -> cc x = Ok x).
    { intros x Hx. apply Hcc. right. exact Hx. }
    destruct Hf as [Hok Hf].
    replace (done ++ e :: l) with ((done ++ [e]) ++ l)
      by (rewrite <- app_assoc; reflexivity).
    destruct e as [c|name attrs tags].
    + simpl. apply (IH Hcc'). exact Hf.
    + destruct Hok as (Hs & Hi & Hr).
      cbn [collapse_loop]. rewrite (Hcc _ (or_introl eq_refl) Hs).
      cbn [bind]. unfold ignorable in Hi. cbn [name_of elements_of] in Hi |- *.
      rewrite Hi.
      cbn [track_step] in Hf.
      destruct (PyStr.eqb name TAG_R).
      * destruct (get_tag (XmlTag name attrs tags) TAG_T) as [t|].
        -- destruct last_t as [j|]; cbn [remembered_of] in Hr, Hf.
           ++ destruct (is_the_same_rpr lr _).
              ** rewrite Hr. apply (IH Hcc' _ None None). exact Hf.
              ** apply (IH Hcc' _ _ (Some (length done))). exact Hf.
           ++ apply (IH Hcc' _ _ (Some (length done))). exact Hf.
        -- apply (IH Hcc' _ lr None). exact Hf.
      * apply (IH Hcc'). exact Hf.
Qed.

Lemma collapse_element_settled e : settled e -> collapse_element e = Ok e.
Proof.
  revert e. fix IH 1. intros [c|name attrs tags] Hs; [reflexivity|].
  cbn [collapse_element].
  rewrite (@collapse_loop_fixed collapse_element tags); [reflexivity| |exact Hs].
  clear Hs. induction tags as [|x tags IHt]; intros e Hin He;
    [destruct Hin|].
  destruct Hin as [<-|Hin].
  - apply IH. exact He.
  - apply IHt; assumption.
Qed.

Lemma track_passive s B : Forall passive B -> track s B = s.
Proof.
  induction 1 as [|e B He HB IH]; [reflexivity|].
  unfold track in *. simpl. destruct e as [c|name attrs tags]; simpl in *.
  - exact IH.
  - rewrite He. exact IH.
Qed.

Lemma collapse_inv_track done lr last_t :
  collapse_inv done lr last_t -> track None done = remembered_of lr last_t.
Proof.
  intros [_ H]. destruct last_t as [j|]; [|exact H].
  destruct H as (A & r & B & -> & _ & _ & Ht & HB & ->).
  change (A ++ r :: B) with (A ++ [r] ++ B).
  rewrite !track_app, (track_passive _ HB). exact Ht.
Qed.

(** *** Merging into the remembered text keeps a tree settled *)

Lemma merge_text_settled ct t t' :
  merge_text ct t = Ok t' ->
  settled t -> settled t' /\ name_of t' = name_of t.
Proof.
  destruct t as [c|name attrs els]; [discriminate|].
  destruct els as [|[c|n a e] others]; simpl.
  - intros [= <-] _. simpl. auto.
  - intros [= <-] [_ Hs]. simpl. auto.
  - discriminate.
Qed.

Lemma is_tag_named_name tn e :
  is_tag_named tn e = true -> name_of e = tn /\ isinstance_XmlTag e = true.
Proof.
  destruct e as [c|name attrs els]; simpl; [discriminate|].
  intros H. apply eqb_eq in H. auto.
Qed.

Lemma name_is_tag_named tn e :
  isinstance_XmlTag e = true -> is_tag_named tn e = PyStr.eqb tn (name_of e).
Proof. destruct e; simpl; [discriminate|reflexivity]. Qed.

Lemma update_first_text_settled ct tags :
  forall tags' s,
    update_first (is_tag_named TAG_T) (merge_text ct) tags = Ok tags' ->
    fixed settled s tags ->
    fixed settled s tags'
    /\ length tags' = length tags
    /\ List.find (is_tag_named TAG_RPR) tags'
       = List.find (is_tag_named TAG_RPR) tags
    /\ (List.find (is_tag_named TAG_T) tags <> None ->
        List.find (is_tag_named TAG_T) tags' <> None).
Proof.
  induction tags as [|x tags IH]; intros tags' s Hu Hf.
  - simpl in Hu. injection Hu as <-. simpl. auto.
  - cbn [update_first] in Hu. destruct Hf as [Hok Hf].
    destruct (is_tag_named TAG_T x) eqn:En.
    + destruct (merge_text ct x) as [y| |] eqn:Em; try discriminate.
      injection Hu as <-.
      destruct (is_tag_named_name _ _ En) as [Hn Hx].
      destruct x as [c|name attrs els]; [discriminate|].
      simpl in Hn. subst name.
      destruct Hok as (Hs & _ & _).
      destruct (merge_text_settled _ _ Em Hs) as [Hs' Hn'].
      destruct y as [c|name' attrs' els']; [destruct els as [|[]]; discriminate|].
      simpl in Hn'. subst name'.
      split; [|split; [|split]].
      * split; [|exact Hf].
        split; [exact Hs'|]. split; [|exact I].
        unfold ignorable. cbn [name_of elements_of].
        change (mem_str TAG_T IGNORABLE_TAGS) with false.
        change (mem_str TAG_T IGNORABLE_EMPTY_TAGS) with false.
        rewrite andb_false_r. reflexivity.
      * reflexivity.
      * reflexivity.
      * simpl. discriminate.
    + destruct (update_first _ _ tags) as [tags1| |] eqn:Eu; try discriminate.
      injection Hu as <-.
      destruct (IH _ _ eq_refl Hf) as (H1 & H2 & H3 & H4).
      split; [|split; [|split]].
      * split; [exact Hok|exact H1].
      * simpl. rewrite H2. reflexivity.
      * simpl. rewrite H3. reflexivity.
      * simpl. rewrite En. exact H4.
Qed.

(** A run into whose text another text was merged behaves as before. *)
Lemma run_merge ct name attrs tags tags' :
  update_first (is_tag_named TAG_T) (merge_text ct) tags = Ok tags' ->
  run_with_text (XmlTag name attrs tags) ->
  settled (XmlTag name attrs tags) ->
  ignorable (XmlTag name attrs tags) = false ->
  settled (XmlTag name attrs tags')
  /\ ignorable (XmlTag name attrs tags') = false
  /\ get_tag (XmlTag name attrs tags') TAG_RPR
     = get_tag (XmlTag name attrs tags) TAG_RPR
  /\ run_with_text (XmlTag name attrs tags')
  /\ (forall s, track_step s (XmlTag name attrs tags')
                = track_step s (XmlTag name attrs tags)).
Proof.
  intros Hu [Hn Ht] Hs Hi.
  destruct (update_first_text_settled ct tags None Hu Hs)
    as (H1 & H2 & H3 & H4).
  unfold get_tag in *. cbn [elements_of] in *.
  split; [exact H1|]. split.
  { unfold ignorable in *. cbn [name_of elements_of] in *.
    rewrite H2. exact Hi. }
  split; [exact H3|]. split.
  { split; [exact Hn|]. unfold get_tag. cbn [elements_of]. apply H4, Ht. }
  intros s. cbn [track_step]. rewrite Hn. unfold get_tag. cbn [elements_of].
  rewrite H3. specialize (H4 Ht).
  destruct (List.find (is_tag_named TAG_T) tags); [|congruence].
  destruct (List.find (is_tag_named TAG_T) tags'); [|congruence].
  reflexivity.
Qed.

Lemma collapse_inv_skip done lr last_t :
  collapse_inv done lr last_t -> collapse_inv done lr last_t.
Proof. auto. Qed.

Lemma collapse_inv_passive done lr last_t e :
  collapse_inv done lr last_t ->
  ok_step settled (track None done) e -> passive e ->
  collapse_inv (done ++ [e]) lr last_t.
Proof.
  intros Hinv Hok Hp. pose proof Hinv as [Hf Hl]. split.
  - apply fixed_app. split; [exact Hf|]. simpl. auto.
  - destruct last_t as [j|].
    + destruct Hl as (A & r & B & -> & Hj & Hr & Ht & HB & Hlr).
      exists A, r, (B ++ [e]). rewrite <- app_assoc. simpl.
      refine (conj eq_refl (conj Hj (conj Hr (conj Ht (conj _ Hlr))))).
      apply Forall_app. split; [exact HB|]. constructor; [exact Hp|constructor].
    + rewrite track_app, Hl. apply (track_passive None).
      constructor; [exact Hp|constructor].
Qed.

Lemma collapse_inv_forget done lr last_t lr' e :
  collapse_inv done lr last_t ->
  ok_step settled (track None done) e ->
  track_step (track None done) e = None ->
  collapse_inv (done ++ [e]) lr' None.
Proof.
  intros [Hf _] Hok Ht. split.
  - apply fixed_app. split; [exact Hf|]. simpl. auto.
  - rewrite track_app. unfold track at 1. simpl. exact Ht.
Qed.

Lemma collapse_inv_install done lr last_t e :
  collapse_inv done lr last_t ->
  ok_step settled (track None done) e ->
  run_with_text e ->
  track_step (track None done) e = Some (get_tag e TAG_RPR) ->
  collapse_inv (done ++ [e]) (get_tag e TAG_RPR) (Some (length done)).
Proof.
  intros [Hf _] Hok Hr Ht. split.
  - apply fixed_app. split; [exact Hf|]. simpl. auto.
  - exists done, e, [].
    refine (conj eq_refl (conj eq_refl (conj Hr (conj Ht (conj _ eq_refl))))).
    constructor.
Qed.

Lemma collapse_inv_merge done lr j ct done' :
  collapse_inv done lr (Some j) ->
  merge_into done j ct = Ok done' ->
  collapse_inv done' lr (Some j).
Proof.
  intros [Hf (A & r & B & -> & -> & Hr & Ht & HB & ->)] Hm.
  unfold merge_into in Hm. rewrite nth_error_middle in Hm.
  destruct r as [c|name attrs tags]; [contradiction|].
  destruct (update_first _ _ tags) as [tags'| |] eqn:Eu; try discriminate.
  cbn [bind] in Hm. injection Hm as <-. rewrite set_at_middle.
  apply fixed_app in Hf. destruct Hf as [HfA [Hok HfB]].
  assert (Hok0 := Hok). destruct Hok0 as (Hs & Hi & Hc).
  destruct (run_merge ct Eu Hr Hs Hi) as (Hs' & Hi' & Hrpr & Hr' & Htr).
  split.
  - apply fixed_app. split; [exact HfA|]. split.
    + split; [exact Hs'|]. split; [exact Hi'|].
      destruct Hr as [Hn Ht0]. rewrite Hn.
      destruct (get_tag (XmlTag name attrs tags') TAG_T); [|exact I].
      destruct (track None A) as [lr0|]; [|exact I].
      rewrite Hrpr.
      cbn [track_step] in Ht. rewrite Hn in Ht.
      destruct (get_tag (XmlTag name attrs tags) TAG_T); [|discriminate].
      destruct (is_the_same_rpr lr0 _); [discriminate|exact I].
    + rewrite Htr. exact HfB.
  - exists A, (XmlTag name attrs tags'), B.
    refine (conj eq_refl (conj eq_refl (conj Hr' (conj _ (conj HB _))))).
    + rewrite Htr, Hrpr. exact Ht.
    + symmetry. exact Hrpr.
Qed.

(** What the pass returns is fixed, given that the recursive call returns
    settled elements. *)
Lemma collapse_loop_gives_fixed cc rest :
  (forall x x', In x rest -> cc x = Ok x' -> settled x' /\ same_head x x') ->
  forall done lr last_t out,
    collapse_inv done lr last_t ->
    collapse_loop cc done lr last_t rest = Ok out ->
    fixed settled None out.
Proof.
  induction rest as [|e rest IH]; intros Hcc done lr last_t out Hinv Hl.
  - simpl in Hl. injection Hl as <-. exact (proj1 Hinv).
  - assert (Hcc' : forall x x', In x rest -> cc x = Ok x' ->
                                settled x' /\ same_head x x').
    { intros x x' Hx. apply Hcc. right. exact Hx. }
    specialize (IH Hcc').
    pose proof (collapse_inv_track Hinv) as Htr.
    destruct e as [c|name attrs children].
    { simpl in Hl. eapply IH; [|exact Hl].
      apply collapse_inv_passive; [exact Hinv|exact I|exact I]. }
    cbn [collapse_loop] in Hl.
    destruct (cc (XmlTag name attrs children)) as [tag| |] eqn:Ecc;
      try discriminate.
    cbn [bind] in Hl.
    destruct (Hcc _ _ (or_introl eq_refl) Ecc) as [Hs Hh].
    destruct tag as [c|name' attrs' tags]; [contradiction|].
    destruct Hh as [<- <-]. cbn [elements_of] in Hl.
    assert (Hign : ignorable (XmlTag name attrs tags)
                   = mem_str name IGNORABLE_TAGS
                     || (Nat.eqb (length tags) 0
                         && mem_str name IGNORABLE_EMPTY_TAGS)) by reflexivity.
    rewrite <- Hign in Hl.
    destruct (ignorable (XmlTag name attrs tags)) eqn:Ei.
    { eapply IH; [exact Hinv|exact Hl]. }
    destruct (PyStr.eqb name TAG_R) eqn:En.
    + destruct (get_tag (XmlTag name attrs tags) TAG_T) as [t|] eqn:Et.
      * assert (Hrun : run_with_text (XmlTag name attrs tags)).
        { split; [exact En|]. rewrite Et. discriminate. }
        destruct last_t as [j|].
        -- cbn [remembered_of] in Htr.
           destruct (is_the_same_rpr lr (get_tag (XmlTag name attrs tags) TAG_RPR))
             eqn:Es.
           ++ destruct (first_text t) as [ct|] eqn:Ef.
              ** destruct (merge_into done j ct) as [done'| |] eqn:Em;
                   try discriminate.
                 cbn [bind] in Hl. eapply IH; [|exact Hl].
                 eapply collapse_inv_merge; eassumption.
              ** eapply IH; [|exact Hl].
                 eapply collapse_inv_forget; [exact Hinv| |].
                 --- rewrite Htr. split; [exact Hs|]. split; [exact Ei|].
                     rewrite En, Et, Es. exact Ef.
                 --- rewrite Htr. cbn [track_step]. rewrite En, Et, Es.
                     reflexivity.
           ++ eapply IH; [|exact Hl].
              apply collapse_inv_install with (lr := lr) (last_t := Some j);
                [exact Hinv| |exact Hrun|].
              ** rewrite Htr. split; [exact Hs|]. split; [exact Ei|].
                 rewrite En, Et, Es. exact I.
              ** rewrite Htr. cbn [track_step]. rewrite En, Et, Es.
                 reflexivity.
        -- cbn [remembered_of] in Htr. eapply IH; [|exact Hl].
           apply collapse_inv_install with (lr := lr) (last_t := None);
             [exact Hinv| |exact Hrun|].
           ++ rewrite Htr. split; [exact Hs|]. split; [exact Ei|].
              rewrite En, Et. exact I.
           ++ rewrite Htr. cbn [track_step]. rewrite En, Et. reflexivity.
      * eapply IH; [|exact Hl].
        eapply collapse_inv_forget; [exact Hinv| |].
        -- split; [exact Hs|]. split; [exact Ei|]. rewrite En, Et. exact I.
        -- cbn [track_step]. rewrite En, Et. reflexivity.
    + eapply IH; [|exact Hl].
      apply collapse_inv_passive; [exact Hinv| |exact En].
      split; [exact Hs|]. split; [exact Ei|]. rewrite En. exact I.
Qed.

Lemma collapse_inv_start : collapse_inv [] None None.
Proof. split; [exact I|reflexivity]. Qed.

(** The recursive call returns a settled element with the same name and
    attributes. *)
Lemma collapse_element_gives_settled e :
  forall e', collapse_element e = Ok e' -> settled e' /\ same_head e e'.
Proof.
  revert e. fix IH 1. intros [c|name attrs children] e' He.
  - injection He as <-. split; [exact I|reflexivity].
  - cbn [collapse_element] in He.
    destruct (collapse_loop collapse_element [] None None children)
      as [tags| |] eqn:El; try discriminate.
    injection He as <-. split; [|split; reflexivity].
    cbn [settled].
    refine (@collapse_loop_gives_fixed collapse_element children _ [] None None
              tags collapse_inv_start El).
    clear El. induction children as [|x children IHc]; intros y y' Hin Hy;
      [destruct Hin|].
    destruct Hin as [<-|Hin].
    + apply IH. exact Hy.
    + eapply IHc; eassumption.
Qed.

(** A tree that the pass returned is returned as it is by a second pass. *)
Lemma collapse_paragraphs_again elements out :
  collapse_paragraphs elements = Ok out -> collapse_paragraphs out = Ok out.
Proof.
  unfold collapse_paragraphs. intros H.
  assert (Hf : fixed settled None out).
  { refine (@collapse_loop_gives_fixed collapse_element elements _ [] None None
              out collapse_inv_start H).
    intros x x' _. apply collapse_element_gives_settled. }
  apply (@collapse_loop_fixed collapse_element out
           (fun e _ => @collapse_element_settled e) [] None None Hf).
Qed.

(** C8: the run-collapsing pass is idempotent: for every element list, the
    pass applied twice in succession gives what the pass applied once gives
    (the same tree, or the same exception when the first pass raises). *)
Theorem collapse_paragraphs_idempotent elements :
  (let* out := collapse_paragraphs elements in collapse_paragraphs out)
  = collapse_paragraphs elements.
Proof.
  destruct (collapse_paragraphs elements) as [out| |] eqn:E;
    [|reflexivity|reflexivity].
  cbn [bind]. apply (collapse_paragraphs_again _ E).
Qed.

(** Three runs split by an editor: the first two have the same properties
    once the ignorable language tag is gone and are merged; a second pass
    changes nothing. *)
Lemma collapse_paragraphs_idempotent_witness :
  collapse_paragraphs
    [XmlTag TAG_R []
       [XmlTag TAG_RPR [] [XmlTag (lit "w:lang") [] []];
        XmlTag TAG_T [] [XmlText (lit "{{na")]];
     XmlTag (lit "w:proofErr") [] [];
     XmlTag TAG_R [] [XmlTag TAG_T [] [XmlText (lit "me}}")]];
     XmlTag TAG_R [] [XmlTag TAG_RPR [] [XmlTag (lit "w:b") [] []];
                      XmlTag TAG_T [] [XmlText (lit "!")]]]
  = Ok [XmlTag TAG_R []
          [XmlTag TAG_T [(lit "xml:space", AttrStr (lit "preserve"))]
             [XmlText (lit "{{name}}")]];
        XmlTag TAG_R [] [XmlTag TAG_RPR [] [XmlTag (lit "w:b") [] []];
                         XmlTag TAG_T [] [XmlText (lit "!")]]]
  /\ collapse_paragraphs
       [XmlTag TAG_R []
          [XmlTag TAG_T [(lit "xml:space", AttrStr (lit "preserve"))]
             [XmlText (lit "{{name}}")]];
        XmlTag TAG_R [] [XmlTag TAG_RPR [] [XmlTag (lit "w:b") [] []];
                         XmlTag TAG_T [] [XmlText (lit "!")]]]
     = Ok [XmlTag TAG_R []
             [XmlTag TAG_T [(lit "xml:space", AttrStr (lit "preserve"))]
                [XmlText (lit "{{name}}")]];
           XmlTag TAG_R [] [XmlTag TAG_RPR [] [XmlTag (lit "w:b") [] []];
                            XmlTag TAG_T [] [XmlText (lit "!")]]].
Proof.
  pose proof (collapse_paragraphs_idempotent
    [XmlTag TAG_R []
       [XmlTag TAG_RPR [] [XmlTag (lit "w:lang") [] []];
        XmlTag TAG_T [] [XmlText (lit "{{na")]];
     XmlTag (lit "w:proofErr") [] [];
     XmlTag TAG_R [] [XmlTag TAG_T [] [XmlText (lit "me}}")]];
     XmlTag TAG_R [] [XmlTag TAG_RPR [] [XmlTag (lit "w:b") [] []];
                      XmlTag TAG_T [] [XmlText (lit "!")]]]) as H.
  split; [reflexivity|exact H].
Defined.

End CollapseFacts.

(** * Further properties *)

(** ** Induction on trees, dictionaries *)

Module Basics.
Import PyStrFacts.

Lemma tree_ind (P : XmlElement -> Prop) :
  (forall c, P (XmlText c)) ->
  (forall name attrs elements, Forall P elements -> P (XmlTag name attrs elements)) ->
  forall e, P e.
Proof.
  intros Ht Hg. fix IH 1. intros [c|name attrs els]; [apply Ht|].
  apply Hg. induction els as [|x els IHe]; constructor; [apply IH|exact IHe].
Qed.

Lemma dict_get_del_ne {V} (d : dict V) k k' :
  k' <> k -> dict_get (dict_del d k) k' = dict_get d k'.
Proof.
  intros Hne. induction d as [|[a v] d IH]; simpl; [reflexivity|].
  destruct (PyStr.eqb a k) eqn:E.
  - apply eqb_eq in E. subst a.
    destruct (PyStr.eqb k k') eqn:E'; [|reflexivity].
    apply eqb_eq in E'. congruence.
  - simpl. rewrite IH. reflexivity.
Qed.

Lemma dict_get_absent {V} (d : dict V) k :
  ~ In k (map fst d) -> dict_get d k = None.
Proof.
  induction d as [|[a v] d IH]; simpl; [reflexivity|]. intros H.
  destruct (PyStr.eqb a k) eqn:E.
  - apply eqb_eq in E. tauto.
  - apply IH. tauto.
Qed.

Lemma dict_get_del_eq {V} (d : dict V) k :
  unique_keys d -> dict_get (dict_del d k) k = None.
Proof.
  unfold unique_keys. induction d as [|[a v] d IH]; simpl; [reflexivity|].
  intros H. inversion H as [|x l Hn Hd]; subst.
  destruct (PyStr.eqb a k) eqn:E.
  - apply eqb_eq in E. subst a. apply dict_get_absent. exact Hn.
  - simpl. rewrite E. apply IH. exact Hd.
Qed.

Lemma dict_del_keys {V} (d : dict V) k x :
  In x (map fst (dict_del d k)) -> In x (map fst d).
Proof.
  induction d as [|[a v] d IH]; simpl; [tauto|].
  destruct (PyStr.eqb a k); simpl; tauto.
Qed.

Lemma dict_del_unique {V} (d : dict V) k :
  unique_keys d -> unique_keys (dict_del d k).
Proof.
  unfold unique_keys. induction d as [|[a v] d IH]; simpl; [auto|].
  intros H. inversion H as [|x l Hn Hd]; subst.
  destruct (PyStr.eqb a k); [exact Hd|].
  simpl. constructor; [|apply IH; exact Hd].
  intros Hin. apply Hn. eapply dict_del_keys. exact Hin.
Qed.

Lemma dict_get_set_ne {V} (d : dict V) k k' v :
  k' <> k -> dict_get (dict_set d k v) k' = dict_get d k'.
Proof.
  intros Hne. induction d as [|[a w] d IH]; simpl.
  - destruct (PyStr.eqb k k') eqn:E; [|reflexivity].
    apply eqb_eq in E. congruence.
  - destruct (PyStr.eqb a k) eqn:E; simpl.
    + apply eqb_eq in E. subst a.
      destruct (PyStr.eqb k k') eqn:E'; [|reflexivity].
      apply eqb_eq in E'. congruence.
    + rewrite IH. reflexivity.
Qed.

End Basics.

(** ** Escaping and resolving, there and back *)

Module RoundTripFacts.
Import Entities PyStrFacts EntitiesFacts.

(** A replacement that acts block by block on a text made of blocks. *)
Lemma replace_blocks (old new : pystr) (enc enc' : char -> pystr) :
  old <> [] ->
  (forall c rest,
      replace_from old new (enc c ++ rest) 0
      = enc' c ++ replace_from old new rest 0) ->
  forall s, replace old new (flat_map enc s) = flat_map enc' s.
Proof.
  intros Hne Hb s. unfold replace. destruct old as [|o old]; [congruence|].
  induction s as [|c s IH]; [reflexivity|].
  cbn [flat_map]. rewrite Hb, IH. reflexivity.
Qed.

Ltac norm_lit :=
  repeat match goal with
         | |- context [lit ?s] =>
             let v := eval vm_compute in (lit s) in change (lit s) with v
         end.

Ltac block_step c :=
  unfold coded, amp, lt, gt, quot in *; norm_lit;
  destruct (c =? 38)%N eqn:Ea;
  [reflexivity|];
  assert (Hc : (38 =? c)%N = false) by (rewrite N.eqb_sym; exact Ea);
  destruct (c =? 60)%N eqn:El;
  [apply N.eqb_eq in El; subst c;
   repeat match goal with b : bool |- _ => destruct b end; reflexivity|];
  destruct (c =? 62)%N eqn:Eg;
  [apply N.eqb_eq in Eg; subst c;
   repeat match goal with b : bool |- _ => destruct b end; reflexivity|];
  destruct (c =? 34)%N eqn:Eq;
  [apply N.eqb_eq in Eq; subst c;
   repeat match goal with b : bool |- _ => destruct b end; reflexivity|];
  cbn [app replace_from starts_with]; rewrite Hc; reflexivity.

Lemma step_cr l g q s :
  replace (lit "&#xD;") [13%N] (flat_map (coded l g q) s)
  = flat_map (coded l g q) s.
Proof.
  apply replace_blocks; [discriminate|]. intros c rest. block_step c.
Qed.

Lemma step_lf l g q s :
  replace (lit "&#xA;") [10%N] (flat_map (coded l g q) s)
  = flat_map (coded l g q) s.
Proof.
  apply replace_blocks; [discriminate|]. intros c rest. block_step c.
Qed.

Lemma step_lt l g q s :
  replace (lit "&lt;") [lt] (flat_map (coded l g q) s)
  = flat_map (coded false g q) s.
Proof.
  apply replace_blocks; [discriminate|]. intros c rest. block_step c.
Qed.

Lemma step_gt l g q s :
  replace (lit "&gt;") [gt] (flat_map (coded l g q) s)
  = flat_map (coded l false q) s.
Proof.
  apply replace_blocks; [discriminate|]. intros c rest. block_step c.
Qed.

Lemma step_quot l g q s :
  replace (lit "&quot;") [quot] (flat_map (coded l g q) s)
  = flat_map (coded l g false) s.
Proof.
  apply replace_blocks; [discriminate|]. intros c rest. block_step c.
Qed.

Lemma step_apos l g q s :
  replace (lit "&apos;") [apos] (flat_map (coded l g q) s)
  = flat_map (coded l g q) s.
Proof.
  apply replace_blocks; [discriminate|]. intros c rest. block_step c.
Qed.

Lemma step_nbsp l g q s :
  replace (lit "&nbsp;") [32%N] (flat_map (coded l g q) s)
  = flat_map (coded l g q) s.
Proof.
  apply replace_blocks; [discriminate|]. intros c rest. block_step c.
Qed.

Lemma step_amp s :
  replace (lit "&amp;") [amp] (flat_map (coded false false false) s) = s.
Proof.
  rewrite (@replace_blocks (lit "&amp;") [amp] (coded false false false)
             (fun c => [c])).
  - induction s as [|c s IH]; simpl; congruence.
  - discriminate.
  - intros c rest. unfold coded, amp, lt, gt, quot; norm_lit.
    destruct (c =? 38)%N eqn:Ea.
    + apply N.eqb_eq in Ea. subst c. reflexivity.
    + assert (Hc : (38 =? c)%N = false) by (rewrite N.eqb_sym; exact Ea).
      destruct (c =? 60)%N, (c =? 62)%N, (c =? 34)%N;
        cbn [app replace_from starts_with]; rewrite Hc; reflexivity.
Qed.

Lemma resolve_coded l g q s :
  resolve_entities_str (flat_map (coded l g q) s) = s.
Proof.
  unfold resolve_entities_str.
  rewrite step_cr, step_lf, step_lt, step_gt, step_quot, step_apos, step_nbsp.
  apply step_amp.
Qed.

Lemma text_escape_coded s : flat_map text_escape s = flat_map (coded true true false) s.
Proof.
  apply flat_map_ext. intros c. unfold text_escape, coded.
  destruct (c =? amp)%N, (c =? lt)%N, (c =? gt)%N, (c =? quot)%N; reflexivity.
Qed.

Lemma attr_escape_coded s : flat_map attr_escape s = flat_map (coded false false true) s.
Proof.
  apply flat_map_ext. intros c. unfold attr_escape, coded.
  destruct (c =? amp)%N eqn:Ea, (c =? lt)%N eqn:El, (c =? gt)%N eqn:Eg,
    (c =? quot)%N eqn:Eq; try reflexivity;
    apply N.eqb_eq in Eq; subst c; discriminate.
Qed.

(** X1: resolving the entities of an escaped text gives the text back,
    for every string; so the text that [XmlText.write] puts out, given to
    [add_text] of an empty tag, makes a text node with the content that was
    written. *)
Theorem resolve_entities_after_escape_entities s :
  resolve_entities (AttrStr (escape_entities (AttrStr s))) = s
  /\ forall name attrs,
       add_text (XmlTag name attrs [])
         (TextValue (AttrStr (write (XmlText s))))
       = XmlTag name attrs [XmlText s].
Proof.
  assert (H : resolve_entities (AttrStr (escape_entities (AttrStr s))) = s).
  { cbn [resolve_entities escape_entities].
    rewrite text_escape_chars, text_escape_coded. apply resolve_coded. }
  split; [exact H|].
  intros name attrs.
  cbn [add_text str_of_attr write rev add_element app]. rewrite H.
  reflexivity.
Qed.

(** X2: resolving the entities of an escaped attribute value gives the
    value back, for every string, although the writer escapes only the
    ampersand and the double quote in it. *)
Theorem resolve_entities_after_escape_attr_value s :
  resolve_entities (AttrStr (escape_attr_value (AttrStr s))) = s.
Proof.
  cbn [resolve_entities escape_attr_value].
  rewrite attr_escape_chars, attr_escape_coded. apply resolve_coded.
Qed.

End RoundTripFacts.

(** ** Attributes and children *)

Module TagFacts.
Import PyStrFacts Basics.

(** X3: [set_attr] followed by [get_attr] gives the value back.
    [remove_attr] deletes an attribute only when its value is true: an
    attribute whose value is the empty string, zero or [None] stays and the
    tag is unchanged.  After [remove_attr] the attribute has no true value,
    and the other attributes are as before. *)
Theorem remove_attr_keeps_falsy name attrs elements attrname
    (Hd : unique_keys attrs) :
  let self := XmlTag name attrs elements in
  (forall v, get_attr (set_attr self attrname v) attrname = v)
  /\ get_attr (remove_attr self attrname) attrname
  = (if attr_truthy (get_attr self attrname) then AttrNone
     else get_attr self attrname)
  /\ attr_truthy (get_attr (remove_attr self attrname) attrname) = false
  /\ (attr_truthy (get_attr self attrname) = false ->
      remove_attr self attrname = self)
  /\ (forall other, other <> attrname ->
        get_attr (remove_attr self attrname) other = get_attr self other)
  /\ unique_keys (attrs_of (remove_attr self attrname)).
Proof.
  cbn zeta. split.
  { intros v. unfold get_attr, set_attr. cbn [attrs_of].
    rewrite dict_get_set_eq. reflexivity. }
  unfold remove_attr.
  destruct (attr_truthy (get_attr (XmlTag name attrs elements) attrname)) eqn:E.
  - split; [|split; [|split; [|split]]].
    + unfold get_attr. simpl. rewrite dict_get_del_eq by exact Hd. reflexivity.
    + unfold get_attr. simpl. rewrite dict_get_del_eq by exact Hd. reflexivity.
    + discriminate.
    + intros other Hne. unfold get_attr. simpl.
      rewrite dict_get_del_ne by exact Hne. reflexivity.
    + simpl. apply dict_del_unique. exact Hd.
  - split; [reflexivity|]. split; [exact E|]. split; [reflexivity|].
    split; [reflexivity|exact Hd].
Qed.

Lemma remove_attr_keeps_falsy_witness :
  get_attr
    (remove_attr
       (XmlTag (lit "c") [(lit "t", AttrStr (lit "s")); (lit "r", AttrStr [])] [])
       (lit "t")) (lit "t") = AttrNone
  /\ remove_attr
       (XmlTag (lit "c") [(lit "t", AttrStr (lit "s")); (lit "r", AttrStr [])] [])
       (lit "r")
     = XmlTag (lit "c") [(lit "t", AttrStr (lit "s")); (lit "r", AttrStr [])] [].
Proof.
  assert (Hd : unique_keys [(lit "t", AttrStr (lit "s")); (lit "r", AttrStr [])]).
  { repeat constructor; simpl; intuition discriminate. }
  split.
  - exact (proj1 (proj2 (@remove_attr_keeps_falsy (lit "c") _ [] (lit "t") Hd))).
  - apply (proj1 (proj2 (proj2 (proj2
             (@remove_attr_keeps_falsy (lit "c") _ [] (lit "r") Hd))))).
    reflexivity.
Defined.


Lemma remove_tags_loop_filter tag_name l :
  remove_tags_loop tag_name l
  = filter (fun e => negb (is_tag_named tag_name e)) l.
Proof.
  induction l as [|e l IH]; simpl; [reflexivity|].
  destruct e as [c|n a els]; simpl.
  - rewrite IH. reflexivity.
  - destruct (PyStr.eqb n tag_name) eqn:E.
    + apply eqb_eq in E. subst n. rewrite eqb_refl. simpl. exact IH.
    + assert (E' : PyStr.eqb tag_name n = false).
      { apply eqb_neq. apply eqb_neq in E. congruence. }
      rewrite E'. simpl. rewrite IH. reflexivity.
Qed.

(** X4: after [remove_tags] no child tag has the name: [get_tags] gives
    the empty list and [get_tag] gives [None].  The child tags with other
    names and the text nodes stay, in their order, and a second
    [remove_tags] changes nothing. *)
Theorem remove_tags_leaves_no_such_tag name attrs elements tag_name :
  let self := XmlTag name attrs elements in
  get_tags (remove_tags self tag_name) tag_name = []
  /\ get_tag (remove_tags self tag_name) tag_name = None
  /\ (forall other, other <> tag_name ->
        get_tags (remove_tags self tag_name) other = get_tags self other)
  /\ filter isinstance_XmlText (elements_of (remove_tags self tag_name))
     = filter isinstance_XmlText elements
  /\ remove_tags (remove_tags self tag_name) tag_name
     = remove_tags self tag_name.
Proof.
  cbn zeta. unfold get_tags, get_tag. cbn [remove_tags elements_of].
  rewrite !remove_tags_loop_filter.
  split; [|split; [|split; [|split]]].
  - induction elements as [|e l IH]; simpl; [reflexivity|].
    destruct (is_tag_named tag_name e) eqn:E; simpl; [exact IH|].
    rewrite E. exact IH.
  - induction elements as [|e l IH]; simpl; [reflexivity|].
    destruct (is_tag_named tag_name e) eqn:E; simpl; [exact IH|].
    rewrite E. exact IH.
  - intros other Hne.
    induction elements as [|e l IH]; simpl; [reflexivity|].
    destruct (is_tag_named tag_name e) eqn:E; simpl.
    + destruct e as [c|n a els]; [discriminate|]. simpl in E.
      apply eqb_eq in E. subst n.
      assert (E' : PyStr.eqb other tag_name = false) by (apply eqb_neq; exact Hne).
      simpl. rewrite E'. exact IH.
    + destruct (is_tag_named other e); rewrite IH; reflexivity.
  - induction elements as [|e l IH]; simpl; [reflexivity|].
    destruct e as [c|n a els]; simpl.
    + rewrite IH. reflexivity.
    + destruct (PyStr.eqb tag_name n); simpl; exact IH.
  - f_equal.
    induction elements as [|e l IH]; simpl; [reflexivity|].
    destruct (is_tag_named tag_name e) eqn:E; simpl; [exact IH|].
    rewrite E. simpl. rewrite IH. reflexivity.
Qed.

(** X5: [remove_tag] deletes the first child tag with the name and no
    other: the child tags with that name are the former ones without the
    first, the child tags with other names and the text nodes stay, and a
    tag without such a child is unchanged. *)
Theorem remove_tag_drops_first_only name attrs elements tag_name :
  let self := XmlTag name attrs elements in
  get_tags (remove_tag self tag_name) tag_name
  = tl (get_tags self tag_name)
  /\ (forall other, other <> tag_name ->
        get_tags (remove_tag self tag_name) other = get_tags self other)
  /\ filter isinstance_XmlText (elements_of (remove_tag self tag_name))
     = filter isinstance_XmlText elements
  /\ (get_tag self tag_name = None -> remove_tag self tag_name = self).
Proof.
  cbn zeta. unfold get_tags, get_tag. cbn [remove_tag elements_of].
  split; [|split; [|split]].
  - induction elements as [|e l IH]; simpl; [reflexivity|].
    destruct e as [c|n a els]; simpl; [exact IH|].
    destruct (PyStr.eqb n tag_name) eqn:E.
    + apply eqb_eq in E. subst n. rewrite eqb_refl. reflexivity.
    + assert (E' : PyStr.eqb tag_name n = false).
      { apply eqb_neq. apply eqb_neq in E. congruence. }
      simpl. rewrite E'. exact IH.
  - intros other Hne.
    induction elements as [|e l IH]; simpl; [reflexivity|].
    destruct e as [c|n a els]; simpl; [exact IH|].
    destruct (PyStr.eqb n tag_name) eqn:E.
    + apply eqb_eq in E. subst n.
      assert (E' : PyStr.eqb other tag_name = false) by (apply eqb_neq; exact Hne).
      rewrite E'. reflexivity.
    + simpl. destruct (PyStr.eqb other n); rewrite IH; reflexivity.
  - induction elements as [|e l IH]; simpl; [reflexivity|].
    destruct e as [c|n a els]; simpl; [rewrite IH; reflexivity|].
    destruct (PyStr.eqb n tag_name); simpl; [reflexivity|exact IH].
  - intros H. f_equal.
    induction elements as [|e l IH]; simpl; [reflexivity|].
    simpl in H. destruct e as [c|n a els]; simpl in *.
    + rewrite IH; [reflexivity|exact H].
    + destruct (PyStr.eqb tag_name n) eqn:E; [discriminate|].
      assert (E' : PyStr.eqb n tag_name = false).
      { apply eqb_neq. apply eqb_neq in E. congruence. }
      rewrite E'. rewrite IH; [reflexivity|exact H].
Qed.


Lemma set_text_value name attrs elements v :
  set_text (XmlTag name attrs elements) (TextValue v)
  = XmlTag name attrs
      [XmlText (Entities.resolve_entities (AttrStr (str_of_attr v)))].
Proof. reflexivity. Qed.

Lemma update_first_set_text tag_name v l x :
  List.find (is_tag_named tag_name) l = Some x ->
  exists l',
    update_first (is_tag_named tag_name)
      (fun tag => Ok (set_text tag (TextValue v))) l = Ok l'
    /\ List.find (is_tag_named tag_name) l'
       = Some (set_text x (TextValue v))
    /\ forall other, other <> tag_name ->
         filter (is_tag_named other) l' = filter (is_tag_named other) l.
Proof.
  induction l as [|e l IH]; simpl; [discriminate|].
  destruct (is_tag_named tag_name e) eqn:E.
  - intros H. injection H as ->. eexists. split; [reflexivity|].
    destruct x as [c|n a els]; [discriminate|]. simpl in E.
    split.
    + simpl. rewrite E. reflexivity.
    + intros other Hne. apply eqb_eq in E. subst n. simpl.
      assert (E' : PyStr.eqb other tag_name = false) by (apply eqb_neq; exact Hne).
      rewrite E'. reflexivity.
  - intros H. destruct (IH H) as (l' & H1 & H2 & H3).
    rewrite H1. simpl. eexists. split; [reflexivity|]. split.
    + simpl. rewrite E. exact H2.
    + intros other Hne. simpl. rewrite (H3 other Hne). reflexivity.
Qed.

Lemma find_app_none {A} (p : A -> bool) l x :
  List.find p l = None -> List.find p (l ++ [x]) = (if p x then Some x else None).
Proof.
  induction l as [|e l IH]; simpl; [reflexivity|].
  destruct (p e); [discriminate|]. exact IH.
Qed.

(** X6: [set_tag_text] on a tag without a child of that name raises
    [XmlParserException] when [mandatory] is true, and appends a new child
    with the text when it is false.  Whenever it returns, [get_tag_text]
    gives the text that was set, with its entities resolved, and the child
    tags with other names are as before. *)
Theorem set_tag_text_then_get_tag_text name attrs elements tag_name v :
  let self := XmlTag name attrs elements in
  let text := Entities.resolve_entities (AttrStr (str_of_attr v)) in
  (get_tag self tag_name = None ->
     set_tag_text self tag_name (TextValue v) true = Raise XmlParserException
     /\ set_tag_text self tag_name (TextValue v) false
        = Ok (XmlTag name attrs
                (elements ++ [XmlTag tag_name [] [XmlText text]])))
  /\ (forall mandatory, get_tag self tag_name <> None \/ mandatory = false ->
        exists self',
          set_tag_text self tag_name (TextValue v) mandatory = Ok self'
          /\ get_tag_text self' tag_name true = Ok (Some text)
          /\ forall other, other <> tag_name ->
               get_tags self' other = get_tags self other).
Proof.
  cbn zeta. split.
  - intros H. unfold set_tag_text, get_tag_or_raise. rewrite H. simpl.
    split; reflexivity.
  - intros mandatory H. unfold set_tag_text, get_tag_or_raise.
    destruct (get_tag (XmlTag name attrs elements) tag_name) as [x|] eqn:E.
    + cbn [bind]. unfold get_tag in E. cbn [elements_of] in E.
      destruct (@update_first_set_text tag_name v elements x E) as (l' & H1 & H2 & H3).
      rewrite H1. cbn [bind]. eexists. split; [reflexivity|]. split.
      * unfold get_tag_text, get_tag_or_raise, get_tag. cbn [elements_of].
        rewrite H2. cbn [bind].
        destruct x as [c|n a els]; [apply find_some in E; destruct E; discriminate|].
        reflexivity.
      * intros other Hne. unfold get_tags. cbn [elements_of]. apply H3. exact Hne.
    + destruct H as [H|H]; [congruence|]. subst mandatory. cbn [bind].
      eexists. split; [reflexivity|]. split.
      * unfold get_tag_text, get_tag_or_raise, get_tag. cbn [elements_of].
        unfold get_tag in E. cbn [elements_of] in E.
        rewrite find_app_none by exact E. simpl. rewrite eqb_refl. reflexivity.
      * intros other Hne. unfold get_tags. cbn [elements_of].
        rewrite filter_app. simpl.
        assert (E' : PyStr.eqb other tag_name = false) by (apply eqb_neq; exact Hne).
        rewrite E'. apply app_nil_r.
Qed.

Lemma find_no_match {A} (p : A -> bool) l :
  (forall x, p x = false) -> List.find p l = None.
Proof.
  intros H. induction l as [|e l IH]; simpl; [reflexivity|].
  rewrite H. exact IH.
Qed.

(** X7: in [get_tag_path] the item ["*"] selects no child, so it raises
    [XmlParserException] whatever the children are and whatever
    [mandatory] is; an item [starts*ends] selects a first child whose name
    begins with [starts], whatever its end is; and a wildcard item that
    selects no child raises although [mandatory] is false. *)
Theorem get_tag_path_wildcard name attrs elements rest mandatory :
  let self := XmlTag name attrs elements in
  get_tag_path self (lit "*" :: rest) mandatory = Raise XmlParserException
  /\ (forall starts ends suffix attrs' elements' others,
        starts <> [] -> first_at (lit "*") starts ->
        get_tag_path
          (XmlTag name attrs
             (XmlTag (starts ++ suffix) attrs' elements' :: others))
          [starts ++ lit "*" ++ ends] mandatory
        = Ok (Some (XmlTag (starts ++ suffix) attrs' elements')))
  /\ (forall item, (find (lit "*") item 0 <? 0)%Z = false ->
        List.find
          (wildcard_match (slice item 0 (find (lit "*") item 0))
             (slice_from item (find (lit "*") item 0 + 1))) elements = None ->
        get_tag_path self (item :: rest) false = Raise XmlParserException).
Proof.
  cbn zeta. split; [|split].
  - cbn [get_tag_path]. change (find (lit "*") (lit "*") 0) with 0%Z. cbv iota.
    change (0 <? 0)%Z with false. cbv iota.
    rewrite find_no_match; [reflexivity|].
    intros [c|n a els]; reflexivity.
  - intros starts ends suffix attrs' elements' others Hne Hf.
    cbn [get_tag_path].
    pose proof (FindFacts.find_app_at (lit "*") [] (starts ++ lit "*" ++ ends)) as F.
    cbn [app length] in F. change (Z.of_nat 0) with 0%Z in F. rewrite F.
    rewrite (FindFacts.find_from_first_at ends 0 Hf).
    cbn [Nat.add].
    destruct (Z.ltb_spec (Z.of_nat (length starts)) 0); [lia|].
    pose proof (FindFacts.slice_app_mid [] starts (lit "*" ++ ends)) as S.
    cbn [app length Nat.add] in S. change (Z.of_nat 0) with 0%Z in S.
    rewrite S. cbn [elements_of List.find wildcard_match].
    rewrite FindFacts.starts_with_self.
    destruct starts; [congruence|]. reflexivity.
  - intros item Hi Hn. cbn [get_tag_path]. rewrite Hi. cbn [elements_of].
    rewrite Hn. reflexivity.
Qed.

End TagFacts.

(** ** The sentence reader and the HTML engine *)

Module SentenceFacts.
Import PyStrFacts FindFacts ScanFacts.

Lemma forallb_seq_shift (f : nat -> bool) n :
  forallb f (seq 1 n) = forallb (fun i => f (S i)) (seq 0 n).
Proof.
  rewrite <- seq_shift. induction (seq 0 n) as [|x l IH]; simpl; congruence.
Qed.

Lemma match_chars w : forall s,
  forallb (fun f =>
     match nth_error s f, nth_error w f with
     | Some a, Some b => (a =? b)%N
     | _, _ => false
     end) (seq 0 (length w))
  = starts_with w s.
Proof.
  induction w as [|c w IH]; intros s; [reflexivity|].
  cbn [length seq forallb]. rewrite forallb_seq_shift.
  destruct s as [|d s]; [reflexivity|].
  cbn [nth_error starts_with]. rewrite (N.eqb_sym d c), IH. reflexivity.
Qed.

Lemma match_word_starts v i w :
  match_word (mkSentence v i) w
  = if starts_with w (skipn i v) then (true, mkSentence v (i + length w))
    else (false, mkSentence v i).
Proof.
  unfold match_word, peek. cbn [s_value s_idx].
  rewrite <- (match_chars w (skipn i v)).
  assert (E : forall l,
    forallb (fun f => match nth_error v (i + f), nth_error w f with
                      | Some a, Some b => (a =? b)%N
                      | _, _ => false
                      end) l
    = forallb (fun f => match nth_error (skipn i v) f, nth_error w f with
                        | Some a, Some b => (a =? b)%N
                        | _, _ => false
                        end) l).
  { induction l as [|x l IH]; simpl; [reflexivity|].
    rewrite nth_error_skipn, IH. reflexivity. }
  rewrite E. reflexivity.
Qed.

Lemma starts_with_nonempty w s :
  w <> [] -> starts_with w s = true -> s <> [].
Proof. destruct w, s; simpl; congruence. Qed.

Lemma skipn_nonempty_lt {A} i (v : list A) : skipn i v <> [] -> i < length v.
Proof.
  intros H. destruct (Nat.lt_ge_cases i (length v)) as [|Hge]; [assumption|].
  rewrite skipn_all2 in H by exact Hge. congruence.
Qed.

Lemma is_eos_skipn v i :
  is_eos (mkSentence v i) = match skipn i v with [] => true | _ => false end.
Proof.
  unfold is_eos. cbn [s_value s_idx].
  destruct (skipn i v) eqn:E.
  - apply Nat.leb_le. destruct (Nat.le_gt_cases (length v) i) as [|Hlt]; [assumption|].
    apply (f_equal (@length _)) in E. rewrite length_skipn in E. simpl in E. lia.
  - apply Nat.leb_gt. apply skipn_nonempty_lt. congruence.
Qed.

Lemma skipn_S_tl {A} i (v : list A) c r :
  skipn i v = c :: r -> skipn (S i) v = r.
Proof.
  intros H. replace (S i) with (1 + i) by lia.
  rewrite <- skipn_skipn, H. reflexivity.
Qed.

(** The word is found [k] characters after the cursor. *)
Lemma parse_until_word_found w v start (Hw : w <> []) :
  forall fuel i k,
    find_from w (skipn i v) 0 = Some k -> k <= fuel ->
    parse_until_word fuel start (mkSentence v i) w
    = Ok (Some (slice v (Z.of_nat start) (Z.of_nat (i + k))),
          mkSentence v (i + k + length w)).
Proof.
  induction fuel as [|fuel IH]; intros i k Hf Hk.
  - assert (k = 0) by lia. subst k. rewrite find_from_eq in Hf.
    destruct (starts_with w (skipn i v)) eqn:E.
    + cbn [parse_until_word]. rewrite is_eos_skipn.
      pose proof (starts_with_nonempty Hw E) as Hne.
      destruct (skipn i v) eqn:Es; [congruence|].
      rewrite match_word_starts, Es, E. cbn [s_value s_idx].
      replace (Z.of_nat (i + length w) - Z.of_nat (length w))%Z
        with (Z.of_nat (i + 0)) by lia.
      replace (i + 0 + length w) with (i + length w) by lia. reflexivity.
    + destruct (skipn i v); [discriminate|].
      rewrite find_from_shift in Hf.
      destruct (find_from w l 0); simpl in Hf; discriminate.
  - rewrite find_from_eq in Hf. cbn [parse_until_word]. rewrite is_eos_skipn.
    destruct (starts_with w (skipn i v)) eqn:E.
    + injection Hf as <-.
      pose proof (starts_with_nonempty Hw E) as Hne.
      destruct (skipn i v) eqn:Es; [congruence|].
      rewrite match_word_starts, Es, E. cbn [s_value s_idx].
      replace (Z.of_nat (i + length w) - Z.of_nat (length w))%Z
        with (Z.of_nat (i + 0)) by lia.
      replace (i + 0 + length w) with (i + length w) by lia. reflexivity.
    + destruct (skipn i v) as [|c r] eqn:Es; [discriminate|].
      rewrite match_word_starts, Es, E.
      rewrite find_from_shift in Hf.
      destruct (find_from w r 0) as [k'|] eqn:Ek; simpl in Hf; [|discriminate].
      injection Hf as <-.
      unfold next. cbn [s_value s_idx].
      rewrite (IH (i + 1) k').
      * replace (i + 1 + k') with (i + S k') by lia. reflexivity.
      * replace (i + 1) with (S i) by lia. rewrite (skipn_S_tl _ _ Es). exact Ek.
      * simpl in Hk. lia.
Qed.

(** The word does not occur after the cursor. *)
Lemma parse_until_word_missing w v start (Hw : w <> []) :
  forall fuel i,
    find_from w (skipn i v) 0 = None -> length v - i <= fuel ->
    parse_until_word fuel start (mkSentence v i) w
    = Ok (None, mkSentence v (Nat.max i (length v))).
Proof.
  induction fuel as [|fuel IH]; intros i Hf Hk.
  - cbn [parse_until_word]. rewrite is_eos_skipn.
    rewrite skipn_all2 by lia.
    replace (Nat.max i (length v)) with i by lia. reflexivity.
  - cbn [parse_until_word]. rewrite is_eos_skipn.
    destruct (skipn i v) as [|c r] eqn:Es.
    + assert (length v <= i).
      { apply (f_equal (@length _)) in Es. rewrite length_skipn in Es.
        simpl in Es. lia. }
      replace (Nat.max i (length v)) with i by lia. reflexivity.
    + rewrite find_from_eq in Hf. rewrite match_word_starts, Es.
      destruct (starts_with w (c :: r)) eqn:E; [discriminate|].
      unfold next. cbn [s_value s_idx].
      assert (Hi : i < length v) by (apply skipn_nonempty_lt; congruence).
      rewrite (IH (i + 1)).
      * replace (Nat.max (i + 1) (length v)) with (Nat.max i (length v)) by lia.
        reflexivity.
      * replace (i + 1) with (S i) by lia. rewrite (skipn_S_tl _ _ Es).
        rewrite find_from_shift in Hf.
        destruct (find_from w r 0); [discriminate|reflexivity].
      * lia.
Qed.

(** X8: [Sentence.match] answers whether the word starts at the cursor and
    moves the cursor behind it only then.  [Sentence.parse_until_word]
    returns the text from the cursor to the first occurrence of the word
    behind it and leaves the cursor after that occurrence; when the word
    does not occur it returns [None] and leaves the cursor at the end. *)
Theorem parse_until_word_finds_first word value idx fuel
    (Hw : word <> []) (Hi : idx <= length value)
    (Hfuel : length value - idx <= fuel) :
  match_word (mkSentence value idx) word
  = (if starts_with word (skipn idx value)
     then (true, mkSentence value (idx + length word))
     else (false, mkSentence value idx))
  /\ parse_until_word fuel idx (mkSentence value idx) word
     = match find_from word (skipn idx value) 0 with
       | Some k =>
           Ok (Some (slice value (Z.of_nat idx) (Z.of_nat (idx + k))),
               mkSentence value (idx + k + length word))
       | None => Ok (None, mkSentence value (length value))
       end.
Proof.
  split; [apply match_word_starts|].
  destruct (find_from word (skipn idx value) 0) as [k|] eqn:E.
  - pose proof (find_from_room _ _ _ E) as [_ Hr].
    rewrite length_skipn in Hr.
    apply parse_until_word_found; [exact Hw|exact E|lia].
  - rewrite (@parse_until_word_missing word value idx Hw fuel idx E Hfuel).
    replace (Nat.max idx (length value)) with (length value) by lia.
    reflexivity.
Qed.

Lemma parse_until_word_finds_first_witness :
  parse_until_word 5 2 (mkSentence (lit "{{ab}}c") 2) (lit "}}")
  = Ok (Some (lit "ab"), mkSentence (lit "{{ab}}c") 6).
Proof.
  exact (proj2 (@parse_until_word_finds_first (lit "}}") (lit "{{ab}}c") 2 5
                  ltac:(discriminate) ltac:(simpl; lia) ltac:(simpl; lia))).
Defined.

End SentenceFacts.

Module HtmlFacts.
Import PyStrFacts FindFacts ScanFacts SentenceFacts.

Lemma plain_upto_S n c s :
  plain_upto (S n) (c :: s)
  = negb (starts_with L2 (c :: s)) && negb (starts_with O2 (c :: s))
    && plain_upto n s.
Proof.
  unfold plain_upto. cbn [seq forallb skipn].
  rewrite forallb_seq_shift. reflexivity.
Qed.

Lemma starts_with_two_app (a b : char) s rest :
  2 <= length s ->
  starts_with [a; b] (s ++ rest) = starts_with [a; b] s.
Proof.
  destruct s as [|x [|y s]]; simpl; try lia. reflexivity.
Qed.

(** What follows the first [n + 2] characters does not matter. *)
Lemma plain_upto_app l : forall mark rest,
  length mark = 2 ->
  plain_upto (length l) (l ++ mark ++ rest) = plain_upto (length l) (l ++ mark).
Proof.
  induction l as [|c l IH]; intros mark rest Hm; [reflexivity|].
  cbn [length app]. rewrite !plain_upto_S, IH by exact Hm.
  assert (E : forall x y,
    starts_with [x; y] (c :: l ++ mark ++ rest)
    = starts_with [x; y] (c :: l ++ mark)).
  { intros x y.
    change (c :: l ++ mark ++ rest) with ((c :: l) ++ mark ++ rest).
    rewrite app_assoc. apply starts_with_two_app.
    simpl. rewrite length_app. lia. }
  unfold L2, O2.
  change (lit "{{") with [123%N; 123%N]. change (lit "{%") with [123%N; 37%N].
  rewrite !E. reflexivity.
Qed.

Section WithEval.
Variable py_eval : pystr -> scope -> res value.
Variable pf : pystr -> option Z -> M pystr.

Lemma html_loop_eq fuel row sentence out :
  html_loop py_eval pf fuel row sentence out
  = if is_eos sentence then ret out
    else
      match fuel with
      | O => out_of_fuel
      | S fuel' =>
          let (m, sentence1) := match_word sentence (lit "{{") in
          if m then
            '(keyword, sentence) <-
              lift (parse_until_word (length (s_value sentence1))
                      (s_idx sentence1) sentence1 (lit "}}")) ;;
            match keyword with
            | None | Some [] => raise DocumentException
            | Some keyword =>
                let keyword := strip keyword in
                value <- resolve_value py_eval row keyword ;;
                html_loop py_eval pf fuel' row sentence (out ++ py_str value)
            end
          else
            let (m, sentence1) := match_word sentence (lit "{%") in
            if m then
              '(keyword, sentence) <-
                lift (parse_until_word (length (s_value sentence1))
                        (s_idx sentence1) sentence1 (lit "%}")) ;;
              match keyword with
              | None | Some [] => raise DocumentException
              | Some keyword =>
                  let keyword := strip keyword in
                  if starts_with (lit "for ") keyword then
                    let keyword := slice_from keyword 4 in
                    let idx2 := find (lit " in ") keyword 0 in
                    if (idx2 <? 0)%Z then raise DocumentException
                    else
                      let varname1 := trim (slice keyword 0 idx2) in
                      let varname2 := trim (slice_from keyword (idx2 + 4)) in
                      let idx0 := Z.of_nat (s_idx sentence) in
                      '(idx3, sentence) <- lift (find_end_for sentence) ;;
                      let sub_content := slice (s_value sentence) idx0 idx3 in
                      pieces <- html_for py_eval pf varname1 varname2 sub_content ;;
                      html_loop py_eval pf fuel' row sentence (out ++ pieces)
                  else if starts_with (lit "if ") keyword then
                    let varname1 := trim (slice_from keyword 3) in
                    let idx0 := Z.of_nat (s_idx sentence) in
                    '(idx3, sentence) <- lift (find_end_if sentence) ;;
                    value <- resolve_value py_eval row varname1 ;;
                    if html_is_true value then
                      let sub_content := slice (s_value sentence) idx0 idx3 in
                      piece <- pf sub_content row ;;
                      html_loop py_eval pf fuel' row sentence (out ++ piece)
                    else html_loop py_eval pf fuel' row sentence out
                  else raise DocumentException
              end
            else
              match peek sentence 0 with
              | Some ch => html_loop py_eval pf fuel' row (next sentence 1) (out ++ [ch])
              | None => raise TypeError
              end
      end.
Proof. destruct fuel; reflexivity. Qed.

(** Characters that start no mark are copied to the output one by one. *)
Lemma html_walk row d l : forall a rest out fuel,
  plain_upto (length l) (l ++ rest) = true ->
  html_loop py_eval pf (length l + fuel) row
    (mkSentence (a ++ l ++ rest) (length a)) out d
  = html_loop py_eval pf fuel row
      (mkSentence (a ++ l ++ rest) (length a + length l)) (out ++ l) d.
Proof.
  induction l as [|c l IH]; intros a rest out fuel Hp.
  - cbn [length Nat.add]. rewrite Nat.add_0_r, app_nil_r. reflexivity.
  - cbn [length app] in Hp. rewrite plain_upto_S in Hp.
    apply andb_true_iff in Hp as [Hp Hp3].
    apply andb_true_iff in Hp as [Hp1 Hp2].
    apply negb_true_iff in Hp1, Hp2.
    cbn [length Nat.add]. rewrite html_loop_eq.
    rewrite is_eos_skipn, skipn_app_length. cbn [app].
    rewrite !match_word_starts, skipn_app_length. cbn [app].
    fold L2. rewrite Hp1. fold O2. rewrite Hp2.
    unfold peek, next. cbn [s_value s_idx].
    rewrite Nat.add_0_r, nth_error_app2, Nat.sub_diag by lia.
    cbn [nth_error].
    change (a ++ c :: l ++ rest) with (a ++ [c] ++ l ++ rest).
    rewrite (app_assoc a [c]).
    replace (length a + 1) with (length (a ++ [c])) by (rewrite length_app; simpl; lia).
    rewrite IH by exact Hp3.
    rewrite length_app. cbn [length].
    rewrite <- !app_assoc. cbn [app].
    replace (length a + 1 + length l) with (length a + S (length l)) by lia.
    reflexivity.
Qed.

Lemma is_eos_false v i c r :
  skipn i v = c :: r -> is_eos (mkSentence v i) = false.
Proof. intros H. rewrite is_eos_skipn, H. reflexivity. Qed.

Lemma skipn_more {A} i n (v a b : list A) :
  skipn i v = a ++ b -> n = length a -> skipn (i + n) v = b.
Proof.
  intros H ->. rewrite Nat.add_comm, <- skipn_skipn, H.
  apply skipn_app_length.
Qed.

Lemma skipn_length_le {A} i (v a : list A) :
  skipn i v = a -> i + length a <= length v \/ a = [].
Proof.
  intros H. apply (f_equal (@length _)) in H. rewrite length_skipn in H.
  destruct a; [right; reflexivity|left]. simpl in *. lia.
Qed.

Lemma slice_at v i (a b : pystr) :
  skipn i v = a ++ b -> a <> [] ->
  slice v (Z.of_nat i) (Z.of_nat (i + length a)) = a.
Proof.
  intros H Hne. destruct (skipn_length_le _ _ H) as [Hl|Hl].
  - rewrite length_app in Hl. rewrite slice_of_nat by lia.
    rewrite H. replace (i + length a - i) with (length a) by lia.
    apply firstn_app_length.
  - destruct a; [congruence|discriminate].
Qed.

(** The text between a mark and the word that closes it. *)
Lemma parse_between v i (body word more : pystr) :
  skipn i v = body ++ word ++ more -> word <> [] -> first_at word body ->
  parse_until_word (length v) i (mkSentence v i) word
  = Ok (Some (slice v (Z.of_nat i) (Z.of_nat (i + length body))),
        mkSentence v (i + length body + length word)).
Proof.
  intros Hs Hw Hf. apply parse_until_word_found; [exact Hw| |].
  - rewrite Hs. apply (find_from_first_at _ 0 Hf).
  - destruct (skipn_length_le _ _ Hs) as [Hl|Hl].
    + rewrite !length_app in Hl. lia.
    + destruct body; [simpl; lia|discriminate].
Qed.

(** One turn of the loop at a placeholder. *)
Lemma html_step_placeholder fuel row v i p more out d :
  skipn i v = L2 ++ p ++ R2 ++ more -> p <> [] -> first_at R2 p ->
  html_loop py_eval pf (S fuel) row (mkSentence v i) out d
  = (value <- resolve_value py_eval row (strip p) ;;
     html_loop py_eval pf fuel row
       (mkSentence v (i + length L2 + length p + length R2))
       (out ++ py_str value)) d.
Proof.
  intros Hs Hne Hf. rewrite html_loop_eq.
  rewrite (@is_eos_false v i 123%N (123%N :: p ++ R2 ++ more)) by exact Hs.
  rewrite match_word_starts. change (lit "{{") with L2. rewrite Hs.
  rewrite starts_with_self. cbv iota beta. cbn [s_value s_idx].
  change (lit "}}") with R2.
  rewrite (@parse_between v (i + length L2) p R2 more);
    [|exact (@skipn_more _ _ _ _ _ _ Hs eq_refl)|discriminate|exact Hf].
  rewrite (@slice_at v (i + length L2) p (R2 ++ more));
    [|exact (@skipn_more _ _ _ _ _ _ Hs eq_refl)|exact Hne].
  unfold mbind at 1. unfold lift at 1. cbv iota beta.
  destruct p as [|c p]; [congruence|]. reflexivity.
Qed.

Lemma html_loop_expand row tail (Ht : plain_upto (length tail) tail = true) :
  forall segs a out fuel d,
    html_well_formed segs ->
    length (render segs ++ tail) <= fuel ->
    html_loop py_eval pf fuel row
      (mkSentence (a ++ render segs ++ tail) (length a)) out d
    = (r <- html_expand py_eval row segs out ;; ret (r ++ tail)) d.
Proof.
  induction segs as [|[l p] segs IH]; intros a out fuel d Hw Hfuel.
  - cbn [render flat_map app] in *.
    replace fuel with (length tail + (fuel - length tail)) by lia.
    pose proof (@html_walk row d tail a [] out (fuel - length tail)) as W.
    rewrite !app_nil_r in W. rewrite W by exact Ht.
    rewrite html_loop_eq. unfold is_eos. cbn [s_value s_idx].
    rewrite length_app.
    destruct (Nat.leb_spec (length a + length tail) (length a + length tail)); [|lia].
    reflexivity.
  - inversion Hw as [|x xs [Hl [Hp Hne]] Hw']; subst. cbn [fst snd] in *.
    rewrite render_cons in *. rewrite <- !app_assoc in *.
    assert (Hlen : length l + 2 + length p + 2 + length (render segs ++ tail)
                   <= fuel).
    { rewrite !length_app in Hfuel. rewrite length_app.
      change (length L2) with 2 in Hfuel. change (length R2) with 2 in Hfuel.
      lia. }
    replace fuel with (length l + S (fuel - length l - 1)) by lia.
    rewrite html_walk
      by (rewrite (@plain_upto_app l L2 _ eq_refl); exact Hl).
    rewrite (@html_step_placeholder _ row _ _ p (render segs ++ tail));
      [| |exact Hne|exact Hp].
    + cbn [html_expand]. unfold mbind.
      destruct (resolve_value py_eval row (strip p) d)
        as [[val d']| |]; [|reflexivity|reflexivity].
      replace (a ++ l ++ L2 ++ p ++ R2 ++ render segs ++ tail)
        with ((a ++ l ++ L2 ++ p ++ R2) ++ render segs ++ tail)
        by (rewrite <- !app_assoc; reflexivity).
      replace (length a + length l + length L2 + length p + length R2)
        with (length (a ++ l ++ L2 ++ p ++ R2))
        by (rewrite !length_app; lia).
      rewrite IH; [|exact Hw'|lia].
      unfold mbind. rewrite <- !app_assoc. reflexivity.
    + rewrite (app_assoc a l), <- length_app. apply skipn_app_length.
Qed.

(** One turn of the loop at an opening mark that is not closed, or closed
    at once. *)
Lemma html_step_unclosed fuel row v i rest out d :
  skipn i v = L2 ++ rest ->
  find_from R2 rest 0 = None \/ starts_with R2 rest = true ->
  html_loop py_eval pf (S fuel) row (mkSentence v i) out d
  = Raise DocumentException.
Proof.
  intros Hs Hr. rewrite html_loop_eq.
  rewrite (@is_eos_false v i 123%N (123%N :: rest)) by exact Hs.
  rewrite match_word_starts. change (lit "{{") with L2. rewrite Hs.
  rewrite starts_with_self. cbv iota beta. cbn [s_value s_idx].
  change (lit "}}") with R2.
  pose proof (@skipn_more _ _ _ _ _ _ Hs eq_refl) as Hs2.
  destruct Hr as [Hr|Hr].
  - rewrite parse_until_word_missing; [reflexivity|discriminate| |lia].
    rewrite Hs2. exact Hr.
  - destruct (starts_with_split _ _ Hr) as [more Hm].
    rewrite (@parse_between v (i + length L2) [] R2 more);
      [|rewrite Hs2; exact Hm|discriminate|reflexivity].
    cbn [length]. rewrite Nat.add_0_r.
    assert (Hle : i + length L2 <= length v).
    { destruct (skipn_length_le _ _ Hs2) as [H|H]; [lia|].
      rewrite Hm in H. discriminate H. }
    rewrite slice_of_nat by lia. rewrite Nat.sub_diag. reflexivity.
Qed.

(** One turn of the loop at a clause that is neither a [for] nor an [if]. *)
Lemma html_step_unknown_clause fuel row v i kw more out d :
  skipn i v = O2 ++ kw ++ C2 ++ more -> first_at C2 kw ->
  starts_with (lit "for ") (strip kw) = false ->
  starts_with (lit "if ") (strip kw) = false ->
  html_loop py_eval pf (S fuel) row (mkSentence v i) out d
  = Raise DocumentException.
Proof.
  intros Hs Hf Hfor Hif. rewrite html_loop_eq.
  rewrite (@is_eos_false v i 123%N (37%N :: kw ++ C2 ++ more)) by exact Hs.
  rewrite !match_word_starts. change (lit "{%") with O2. rewrite Hs.
  change (starts_with (lit "{{") (O2 ++ kw ++ C2 ++ more)) with false.
  rewrite starts_with_self. cbv iota beta. cbn [s_value s_idx].
  change (lit "%}") with C2.
  pose proof (@skipn_more _ _ _ _ _ _ Hs eq_refl) as Hs2.
  rewrite (@parse_between v (i + length O2) kw C2 more);
    [|exact Hs2|discriminate|exact Hf].
  destruct kw as [|c kw].
  - assert (Hle : i + length O2 <= length v).
    { destruct (skipn_length_le _ _ Hs2) as [H|H]; [lia|discriminate H]. }
    cbn [length]. rewrite Nat.add_0_r, slice_of_nat by lia.
    rewrite Nat.sub_diag. reflexivity.
  - rewrite (@slice_at v (i + length O2) (c :: kw) (C2 ++ more));
      [|exact Hs2|discriminate].
    unfold mbind at 1. unfold lift at 1. cbv iota beta zeta.
    rewrite Hfor, Hif. reflexivity.
Qed.

End WithEval.

(** X9: on a text made of literals and placeholders only, the HTML engine
    returns the literals and the string forms of the resolved values in
    their order, followed by the text after the last placeholder; each
    expression is stripped before it is resolved.  A text without opening
    marks is returned as it is and the document is unchanged. *)
Theorem html_placeholders_in_order py_eval fuel row segs tail d
    (Hw : html_well_formed segs)
    (Ht : plain_upto (length tail) tail = true) :
  process_html_fragment py_eval (S fuel) (render segs ++ tail) row d
  = (r <- html_expand py_eval row segs [] ;; ret (r ++ tail)) d
  /\ process_html_fragment py_eval (S fuel) tail row d = Ok (tail, d).
Proof.
  split.
  - cbn [process_html_fragment].
    apply (@html_loop_expand py_eval (process_html_fragment py_eval fuel)
             row tail Ht segs [] [] _ d Hw (le_n _)).
  - cbn [process_html_fragment].
    apply (@html_loop_expand py_eval (process_html_fragment py_eval fuel)
             row tail Ht [] [] [] _ d (Forall_nil _) (le_n _)).
Qed.

Lemma html_placeholders_in_order_witness :
  process_html_fragment PathEval.path_eval 1 (lit "Hello {{ name }}!") None
    (new_document [(lit "name", VStr (lit "Ada"))] false)
  = Ok (lit "Hello Ada!",
        mkDocument [] [(lit "name", VStr (lit "Ada"))] [lit "name"] []
          false []).
Proof.
  etransitivity.
  - apply (proj1 (@html_placeholders_in_order PathEval.path_eval 0 None
                    [(lit "Hello ", lit " name ")] (lit "!")
                    (new_document [(lit "name", VStr (lit "Ada"))] false)
                    ltac:(repeat constructor; discriminate)
                    ltac:(reflexivity))).
  - reflexivity.
Defined.

(** X10: a placeholder that is opened and not closed, or closed at once,
    makes the HTML engine raise [DocumentException], whatever follows and
    whatever text without marks comes before. *)
Theorem html_unclosed_placeholder_raises py_eval fuel row l rest d
    (Hl : plain_upto (length l) (l ++ L2) = true)
    (Hr : find_from R2 rest 0 = None \/ starts_with R2 rest = true) :
  process_html_fragment py_eval (S fuel) (l ++ L2 ++ rest) row d
  = Raise DocumentException.
Proof.
  - cbn [process_html_fragment].
    pose proof (@html_walk py_eval (process_html_fragment py_eval fuel) row d
                  l [] (L2 ++ rest) []
                  (length (l ++ L2 ++ rest) - length l)) as W.
    cbn [app length] in W.
    replace (length l + (length (l ++ L2 ++ rest) - length l))
      with (length (l ++ L2 ++ rest)) in W by (rewrite length_app; lia).
    rewrite W by (rewrite (@plain_upto_app l L2 _ eq_refl); exact Hl).
    rewrite length_app. replace (length l + length (L2 ++ rest) - length l)
      with (S (S (length rest)))
      by (rewrite length_app; change (length L2) with 2; lia).
    apply html_step_unclosed with (rest := rest); [|exact Hr].
    apply (skipn_app_length l).
Qed.

Lemma html_unclosed_placeholder_raises_witness :
  process_html_fragment PathEval.path_eval 1 (lit "a{{b") None
    (new_document [] false)
  = Raise DocumentException
  /\ process_html_fragment PathEval.path_eval 1 (lit "a{{}}b") None
       (new_document [] false)
     = Raise DocumentException.
Proof.
  split.
  - exact (@html_unclosed_placeholder_raises PathEval.path_eval 0 None
             (lit "a") (lit "b") (new_document [] false) eq_refl
             (or_introl eq_refl)).
  - exact (@html_unclosed_placeholder_raises PathEval.path_eval 0 None
             (lit "a") (lit "}}b") (new_document [] false) eq_refl
             (or_intror eq_refl)).
Defined.

(** X11: a clause that is neither a [for] nor an [if] makes the HTML
    engine raise [DocumentException]: so do [else], [endif] and [endfor]
    when the engine meets them, and an empty clause. *)
Theorem html_unknown_clause_raises py_eval fuel row l' kw more d
    (Hl' : plain_upto (length l') (l' ++ O2) = true)
    (Hf : first_at C2 kw)
    (Hfor : starts_with (lit "for ") (strip kw) = false)
    (Hif : starts_with (lit "if ") (strip kw) = false) :
  process_html_fragment py_eval (S fuel) (l' ++ O2 ++ kw ++ C2 ++ more) row d
  = Raise DocumentException.
Proof.
  - cbn [process_html_fragment].
    pose proof (@html_walk py_eval (process_html_fragment py_eval fuel) row d
                  l' [] (O2 ++ kw ++ C2 ++ more) []
                  (length (l' ++ O2 ++ kw ++ C2 ++ more) - length l')) as W.
    cbn [app length] in W.
    replace (length l' + (length (l' ++ O2 ++ kw ++ C2 ++ more) - length l'))
      with (length (l' ++ O2 ++ kw ++ C2 ++ more)) in W
      by (rewrite length_app; lia).
    rewrite W by (rewrite (@plain_upto_app l' O2 _ eq_refl); exact Hl').
    rewrite length_app.
    replace (length l' + length (O2 ++ kw ++ C2 ++ more) - length l')
      with (S (S (length (kw ++ C2 ++ more))))
      by (rewrite (length_app O2); change (length O2) with 2; lia).
    apply html_step_unknown_clause with (kw := kw) (more := more);
      [|exact Hf|exact Hfor|exact Hif].
    apply (skipn_app_length l').
Qed.

Lemma html_unknown_clause_raises_witness :
  process_html_fragment PathEval.path_eval 1 (lit "a{% else %}b") None
    (new_document [] false)
  = Raise DocumentException.
Proof.
  exact (@html_unknown_clause_raises PathEval.path_eval 0 None
           (lit "a") (lit " else ") (lit "b") (new_document [] false)
           eq_refl eq_refl eq_refl eq_refl).
Defined.

Lemma find_end_eq fuel opening closing sentence depth :
  find_end fuel opening closing sentence depth
  = if negb (is_eos sentence) && (depth >? 0)%Z then
      match fuel with
      | O => NoFuel
      | S fuel' =>
          let (m, sentence) := match_word sentence (lit "{%") in
          if m then
            let idx3 := (Z.of_nat (s_idx sentence) - 2)%Z in
            let* (keyword, sentence) :=
              parse_until_word (length (s_value sentence)) (s_idx sentence)
                sentence (lit "%}") in
            match keyword with
            | None | Some [] => Raise DocumentException
            | Some keyword =>
                let keyword := first_word keyword in
                if PyStr.eqb keyword closing then
                  if (depth - 1 =? 0)%Z then Ok (idx3, sentence)
                  else find_end fuel' opening closing sentence (depth - 1)
                else if PyStr.eqb keyword opening then
                  find_end fuel' opening closing sentence (depth + 1)
                else find_end fuel' opening closing sentence depth
            end
          else find_end fuel' opening closing (next sentence 1) depth
      end
    else Ok (Z.of_nat (s_idx sentence), sentence).
Proof. destruct fuel; reflexivity. Qed.

(** [parse_until_word] returns, and never moves the cursor back. *)
Lemma parse_until_word_returns w v start i fuel :
  w <> [] -> length v - i <= fuel ->
  exists r j, parse_until_word fuel start (mkSentence v i) w
              = Ok (r, mkSentence v j) /\ i <= j.
Proof.
  intros Hw Hfuel. destruct (find_from w (skipn i v) 0) as [k|] eqn:E.
  - pose proof (find_from_room _ _ _ E) as [_ Hr].
    rewrite length_skipn in Hr.
    rewrite (@parse_until_word_found w v start Hw fuel i k E) by lia.
    eexists _, _. split; [reflexivity|lia].
  - rewrite (@parse_until_word_missing w v start Hw fuel i E) by lia.
    eexists _, _. split; [reflexivity|lia].
Qed.

(** The search for the end of a block returns a position at or after the
    cursor, or raises [DocumentException] at a clause that is not closed
    or is empty. *)
Lemma find_end_bound opening closing v : forall fuel i depth,
  length v - i <= fuel ->
  match find_end fuel opening closing (mkSentence v i) depth with
  | Ok (idx3, sentence) =>
      (Z.of_nat i <= idx3)%Z /\ s_value sentence = v
  | Raise e => e = DocumentException
  | NoFuel => False
  end.
Proof.
  induction fuel as [|fuel IH]; intros i depth Hfuel; rewrite find_end_eq.
  - unfold is_eos. cbn [s_value s_idx].
    destruct (Nat.leb_spec (length v) i); [|lia].
    cbn [negb andb]. split; [lia|reflexivity].
  - unfold is_eos. cbn [s_value s_idx].
    destruct (Nat.leb_spec (length v) i) as [Hle|Hlt];
      [cbn [negb andb]; split; [lia|reflexivity]|].
    cbn [negb andb]. destruct (depth >? 0)%Z; [|split; [lia|reflexivity]].
    rewrite match_word_starts.
    destruct (starts_with (lit "{%") (skipn i v)) eqn:E.
    + cbv iota beta zeta. cbn [s_value s_idx].
      destruct (@parse_until_word_returns (lit "%}") v
                  (i + length (lit "{%")) (i + length (lit "{%")) (length v)
                  ltac:(discriminate) ltac:(lia)) as (r & j & Hp & Hj).
      rewrite Hp. cbn [bind].
      destruct r as [[|c kw]|]; [reflexivity| |reflexivity].
      change (length (lit "{%")) with 2 in Hj.
      destruct (PyStr.eqb (first_word (c :: kw)) closing).
      * destruct (depth - 1 =? 0)%Z.
        -- split; [|reflexivity]. change (length (lit "{%")) with 2. lia.
        -- specialize (IH j (depth - 1)%Z ltac:(lia)).
           destruct (find_end fuel opening closing (mkSentence v j) (depth - 1))
             as [[idx3 s']| |]; [|exact IH|exact IH].
           destruct IH as [H1 H2]. split; [lia|exact H2].
      * destruct (PyStr.eqb (first_word (c :: kw)) opening).
        -- specialize (IH j (depth + 1)%Z ltac:(lia)).
           destruct (find_end fuel opening closing (mkSentence v j) (depth + 1))
             as [[idx3 s']| |]; [|exact IH|exact IH].
           destruct IH as [H1 H2]. split; [lia|exact H2].
        -- specialize (IH j depth ltac:(lia)).
           destruct (find_end fuel opening closing (mkSentence v j) depth)
             as [[idx3 s']| |]; [|exact IH|exact IH].
           destruct IH as [H1 H2]. split; [lia|exact H2].
    + cbv iota beta. unfold next. cbn [s_value s_idx].
      specialize (IH (i + 1) depth ltac:(lia)).
      destruct (find_end fuel opening closing (mkSentence v (i + 1)) depth)
        as [[idx3 s']| |]; [|exact IH|exact IH].
      destruct IH as [H1 H2]. split; [lia|exact H2].
Qed.

(** Without a clause after the cursor the block runs to the end. *)
Lemma find_end_open opening closing v : forall fuel i depth,
  (forall k, starts_with O2 (skipn (i + k) v) = false) ->
  length v - i <= fuel ->
  find_end fuel opening closing (mkSentence v i) depth
  = Ok (Z.of_nat (if (depth >? 0)%Z then Nat.max i (length v) else i),
        mkSentence v (if (depth >? 0)%Z then Nat.max i (length v) else i)).
Proof.
  induction fuel as [|fuel IH]; intros i depth Hk Hfuel; rewrite find_end_eq.
  - unfold is_eos. cbn [s_value s_idx].
    destruct (Nat.leb_spec (length v) i); [|lia].
    cbn [negb andb]. replace (Nat.max i (length v)) with i by lia.
    destruct (depth >? 0)%Z; reflexivity.
  - unfold is_eos. cbn [s_value s_idx].
    destruct (Nat.leb_spec (length v) i) as [Hle|Hlt].
    + cbn [negb andb]. replace (Nat.max i (length v)) with i by lia.
      destruct (depth >? 0)%Z; reflexivity.
    + cbn [negb andb]. destruct (depth >? 0)%Z eqn:Ed; [|reflexivity].
      rewrite match_word_starts. fold O2.
      pose proof (Hk 0) as H0. rewrite Nat.add_0_r in H0. rewrite H0.
      cbv iota beta. unfold next. cbn [s_value s_idx].
      rewrite IH, Ed.
      * replace (Nat.max (i + 1) (length v)) with (Nat.max i (length v)) by lia.
        reflexivity.
      * intros k. replace (i + 1 + k) with (i + S k) by lia. apply Hk.
      * lia.
Qed.

(** X12: [find_end_for] and [find_end_if] return a position at or after
    the cursor, never a negative one, or raise [DocumentException] at a
    clause that is not closed or is empty; the model's bound on the loop is
    never reached.  When no clause follows the cursor they return the end
    of the text: a block that is not closed runs to the end. *)
Theorem find_end_never_negative sentence :
  match find_end_for sentence with
  | Ok (idx3, sentence') =>
      (Z.of_nat (s_idx sentence) <= idx3)%Z
      /\ s_value sentence' = s_value sentence
  | Raise e => e = DocumentException
  | NoFuel => False
  end
  /\ match find_end_if sentence with
     | Ok (idx3, sentence') =>
         (Z.of_nat (s_idx sentence) <= idx3)%Z
         /\ s_value sentence' = s_value sentence
     | Raise e => e = DocumentException
     | NoFuel => False
     end
  /\ ((forall k, starts_with O2
                   (skipn (s_idx sentence + k) (s_value sentence)) = false) ->
      s_idx sentence <= length (s_value sentence) ->
      find_end_for sentence
      = Ok (Z.of_nat (length (s_value sentence)),
            mkSentence (s_value sentence) (length (s_value sentence)))
      /\ find_end_if sentence
         = Ok (Z.of_nat (length (s_value sentence)),
               mkSentence (s_value sentence) (length (s_value sentence)))).
Proof.
  destruct sentence as [v i]. cbn [s_value s_idx].
  split; [|split].
  - unfold find_end_for. cbn [s_value s_idx]. apply find_end_bound. lia.
  - unfold find_end_if. cbn [s_value s_idx]. apply find_end_bound. lia.
  - intros Hk Hi. unfold find_end_for, find_end_if. cbn [s_value s_idx].
    rewrite !find_end_open by (assumption || lia).
    change (1 >? 0)%Z with true. cbv iota.
    replace (Nat.max i (length v)) with (length v) by lia.
    split; reflexivity.
Qed.

End HtmlFacts.

(** ** Resolution and the ledgers *)

Module AccessFacts.
Import PyStrFacts FindFacts LedgerFacts.

Lemma append_new_NoDup l p : NoDup l -> NoDup (append_new l p).
Proof. intros H. apply append_new_count. exact H. Qed.

Lemma append_new_In l p : In p (append_new l p).
Proof.
  unfold append_new. destruct (mem_str p l) eqn:E.
  - apply mem_str_In. exact E.
  - apply in_or_app. right. left. reflexivity.
Qed.

Lemma append_new_prefix l p : exists s, append_new l p = l ++ s.
Proof.
  unfold append_new. destruct (mem_str p l).
  - exists []. symmetry. apply app_nil_r.
  - exists [p]. reflexivity.
Qed.

Section WithEval.
Variable py_eval : pystr -> scope -> res value.

(** X13: when [resolve_value] returns, it has noted the expression in
    exactly one ledger: in the error ledger, and then the value is the
    empty string, or in the ledger of resolved expressions.  The ledgers
    only grow at the end, an expression that is in a ledger already is not
    added again, so ledgers without repetitions stay so; the value is never
    [None]; test mode and styles are untouched. *)
Theorem resolve_value_notes_once row p d v d'
    (Hok : NoDup (access_ok_param_list d))
    (Herr : NoDup (access_err_param_list d))
    (H : resolve_value py_eval row p d = Ok (v, d')) :
  NoDup (access_ok_param_list d') /\ NoDup (access_err_param_list d')
  /\ test_mode d' = test_mode d /\ style_map d' = style_map d
  /\ is_None v = false
  /\ ((v = VStr []
       /\ access_err_param_list d' = append_new (access_err_param_list d) p
       /\ access_ok_param_list d' = access_ok_param_list d)
      \/ (access_ok_param_list d' = append_new (access_ok_param_list d) p
          /\ access_err_param_list d' = access_err_param_list d)).
Proof.
  revert H.
  unfold resolve_value, mbind, default_value_resolver, value_resolver, lift,
    ret, note_err, note_ok.
  destruct (resolve_param_value py_eval (default_params d) row p) as [m1 [v1| |]];
    try discriminate.
  destruct (is_None v1) eqn:E1.
  - destruct (resolve_param_value py_eval _ row p) as [m2 [v2| |]];
      try discriminate.
    destruct (is_None v2) eqn:E2; simpl; intros [= <- <-]; simpl;
      repeat split; auto using append_new_NoDup.
  - simpl. rewrite E1. simpl. intros [= <- <-]. simpl.
    repeat split; auto using append_new_NoDup.
Qed.

(** X14: when [resolve_repeating] returns, the count is -1 and the
    expression is noted in the error ledger, or the count is not negative
    and the expression is noted in the ledger of resolved expressions;
    ledgers without repetitions stay so. *)
Theorem resolve_repeating_notes_once p d n d'
    (Hok : NoDup (access_ok_param_list d))
    (Herr : NoDup (access_err_param_list d))
    (H : resolve_repeating py_eval p d = Ok (n, d')) :
  NoDup (access_ok_param_list d') /\ NoDup (access_err_param_list d')
  /\ test_mode d' = test_mode d /\ style_map d' = style_map d
  /\ ((n = (-1)%Z
       /\ access_err_param_list d' = append_new (access_err_param_list d) p
       /\ access_ok_param_list d' = access_ok_param_list d)
      \/ ((0 <= n)%Z
          /\ access_ok_param_list d' = append_new (access_ok_param_list d) p
          /\ access_err_param_list d' = access_err_param_list d)).
Proof.
  revert H.
  unfold resolve_repeating, mbind, default_repeat_resolver, repeating_resolver,
    resolve_param_repeating, lift, ret, note_err, note_ok.
  destruct (resolve_param_value py_eval (default_params d) (Some 0%Z) p)
    as [m1 [v1| |]]; try discriminate.
  cbn [bind].
  assert (Hlen : forall v, exists z,
            match v with
            | VList items => Ok (Z.of_nat (length items))
            | _ => Ok (-1)%Z
            end = Ok z /\ (z = (-1)%Z \/ (0 <= z)%Z)).
  { intros v0. destruct v0; eexists; split; try reflexivity; lia. }
  destruct (Hlen v1) as (z1 & -> & Hz1).
  destruct (z1 <? 0)%Z eqn:E1.
  - cbn [set_default_params value_map].
    destruct (resolve_param_value py_eval (value_map d) (Some 0%Z) p)
      as [m2 [v2| |]]; try discriminate.
    cbn [bind]. destruct (Hlen v2) as (z2 & -> & Hz2).
    destruct (z2 <? 0)%Z eqn:E2; simpl; intros [= <- <-]; simpl.
    + repeat split; auto using append_new_NoDup.
    + apply Z.ltb_ge in E2.
      repeat split; auto using append_new_NoDup.
  - simpl. rewrite E1. simpl. intros [= <- <-]. simpl.
    apply Z.ltb_ge in E1.
    repeat split; auto using append_new_NoDup.
Qed.

(** X15: [resolve_param_value] changes the map it is given: with a row
    index and a map that is not empty it writes the index under the key
    [row], over any value the caller had there, and turns the dictionaries
    of the map into [DotDict]s.  An empty expression and an empty map are
    left alone. *)
Theorem resolve_param_value_writes_row value_map row param
    (Hm : value_map <> []) (Hp : param <> []) :
  fst (resolve_param_value py_eval value_map row param)
  = prepared_map row value_map
  /\ (forall r, row = Some r ->
        dict_get (fst (resolve_param_value py_eval value_map row param))
          (lit "row") = Some (VInt r))
  /\ fst (resolve_param_value py_eval value_map row []) = value_map
  /\ fst (resolve_param_value py_eval [] row param) = [].
Proof.
  destruct param as [|c p]; [congruence|].
  rewrite resolve_param_value_eq. cbn [fst].
  split; [reflexivity|]. split; [|split].
  - intros r ->. unfold prepared_map.
    destruct value_map as [|kv m]; [congruence|].
    rewrite DotDict_create_set. apply dict_get_set_eq.
  - reflexivity.
  - rewrite resolve_param_value_eq. unfold prepared_map.
    destruct row; reflexivity.
Qed.

End WithEval.

Lemma resolve_value_notes_once_witness :
  access_ok_param_list
    (mkDocument [] [(lit "name", VStr (lit "Ada"))] [lit "name"] [] false [])
  = append_new [] (lit "name")
  /\ NoDup (access_ok_param_list
              (mkDocument [] [(lit "name", VStr (lit "Ada"))] [lit "name"] []
                 false [])).
Proof.
  pose proof (@resolve_value_notes_once PathEval.path_eval None (lit "name")
                (new_document [(lit "name", VStr (lit "Ada"))] false)
                (VStr (lit "Ada"))
                (mkDocument [] [(lit "name", VStr (lit "Ada"))] [lit "name"]
                   [] false [])
                (NoDup_nil _) (NoDup_nil _) eq_refl) as H.
  split; [reflexivity|exact (proj1 H)].
Defined.

Lemma resolve_repeating_notes_once_witness :
  NoDup (access_err_param_list
           (mkDocument [] (DotDict_create [(lit "row", VInt 0)]) []
              [lit "items"] false [])).
Proof.
  exact (proj1 (proj2
    (@resolve_repeating_notes_once PathEval.path_eval (lit "items")
       (new_document [(lit "row", VInt 7)] false) (-1)%Z
       (mkDocument [] (DotDict_create [(lit "row", VInt 0)]) []
          [lit "items"] false [])
       (NoDup_nil _) (NoDup_nil _) eq_refl))).
Defined.

Lemma resolve_param_value_writes_row_witness :
  dict_get
    (fst (resolve_param_value PathEval.path_eval
            [(lit "row", VStr (lit "mine"))] (Some 3%Z) (lit "row")))
    (lit "row")
  = Some (VInt 3).
Proof.
  exact (proj1 (proj2
    (@resolve_param_value_writes_row PathEval.path_eval
       [(lit "row", VStr (lit "mine"))] (Some 3%Z) (lit "row")
       ltac:(discriminate) ltac:(discriminate))) 3%Z eq_refl).
Defined.

Lemma ends_with_app file p : ends_with file (p ++ file) = true.
Proof.
  unfold ends_with. rewrite rev_app_distr. apply starts_with_self.
Qed.

(** X16: the path that [complete_pathfile] returns ends with the file
    name; a path that ends with it already is returned as it is, so a
    second call changes nothing; otherwise the name is appended, after a
    slash when the path does not end with one. *)
Theorem complete_pathfile_ends_with_file pathfile file :
  ends_with file (complete_pathfile pathfile file) = true
  /\ complete_pathfile (complete_pathfile pathfile file) file
     = complete_pathfile pathfile file
  /\ (ends_with file pathfile = true ->
      complete_pathfile pathfile file = pathfile)
  /\ (ends_with file pathfile = false ->
      ends_with (lit "/") pathfile = false ->
      complete_pathfile pathfile file = pathfile ++ lit "/" ++ file).
Proof.
  assert (H1 : ends_with file (complete_pathfile pathfile file) = true).
  { unfold complete_pathfile. destruct (ends_with file pathfile) eqn:E; simpl.
    - exact E.
    - apply ends_with_app. }
  split; [exact H1|]. split; [|split].
  - unfold complete_pathfile at 1. rewrite H1. reflexivity.
  - intros H. unfold complete_pathfile. rewrite H. reflexivity.
  - intros H H'. unfold complete_pathfile. rewrite H, H'. simpl.
    rewrite <- app_assoc. reflexivity.
Qed.

End AccessFacts.

(** ** Blocks without marks *)

Module StaticFacts.
Import PyStrFacts FindFacts DirectiveFacts Basics.


Section WithEval.
Variable py_eval : pystr -> scope -> res value.





Lemma list_sum_In x l : In x l -> x <= list_sum l.
Proof.
  induction l as [|y l IH]; simpl; [tauto|].
  intros [->|H]; [lia|]. apply IH in H. lia.
Qed.






End WithEval.



End StaticFacts.

(** ** Directives, conditions and styles *)

Module EngineFacts.
Import PyStrFacts FindFacts DirectiveFacts.

Section WithEval.
Variable py_eval : pystr -> scope -> res value.

(** X18: a paragraph with a directive whose keyword is none of [style],
    [if] and [for] (a stray [else], [endif] or [endfor], or an unknown
    word) is deleted by [__process_paragraph] without an error; the index
    stays, the document state is unchanged, and the loop of
    [process_paragraphs] goes on as if the paragraph had not been there. *)
Theorem stray_directive_is_dropped fuel pre attrs els rest keyword arg d
    (Hd : get_directive (XmlTag TAG_P attrs els) = Ok (Some (keyword, arg)))
    (Hs : PyStr.eqb keyword KEYWORD_STYLE = false)
    (Hi : PyStr.eqb keyword KEYWORD_IF = false)
    (Hf : PyStr.eqb keyword KEYWORD_FOR = false) :
  process_paragraph py_eval (fun l => process_elements py_eval fuel l 0)
    (pre ++ XmlTag TAG_P attrs els :: rest) (length pre) d
  = Ok ((pre ++ rest, length pre), d)
  /\ process_elements py_eval (S fuel)
       (pre ++ XmlTag TAG_P attrs els :: rest) (length pre) d
     = process_elements py_eval fuel (pre ++ rest) (length pre) d.
Proof.
  assert (H : process_paragraph py_eval
                (fun l => process_elements py_eval fuel l 0)
                (pre ++ XmlTag TAG_P attrs els :: rest) (length pre) d
              = Ok ((pre ++ rest, length pre), d)).
  { unfold process_paragraph. rewrite nth_error_middle.
    rewrite eqb_refl. unfold mbind at 1. unfold lift. rewrite Hd.
    cbv iota beta. rewrite Hs, Hi, Hf. unfold ret.
    rewrite del_at_middle. reflexivity. }
  split; [exact H|].
  cbn [process_elements]. unfold process_step.
  destruct (Nat.ltb_spec (length pre)
              (length (pre ++ XmlTag TAG_P attrs els :: rest))) as [_|Hge];
    [|rewrite length_app in Hge; simpl in Hge; lia].
  unfold mbind. rewrite H. reflexivity.
Qed.

End WithEval.

Lemma stray_directive_is_dropped_witness :
  process_elements PathEval.path_eval 3
    ([paragraph [] (lit "a")]
     ++ XmlTag TAG_P []
          [XmlTag TAG_R [] [XmlTag TAG_T [] [XmlText (lit "{% endif %}")]]]
     :: [paragraph [] (lit "b")]) 1 (new_document [] false)
  = Ok ([paragraph [] (lit "a"); paragraph [] (lit "b")],
        new_document [] false).
Proof.
  etransitivity.
  - exact (proj2 (@stray_directive_is_dropped PathEval.path_eval 2
                    [paragraph [] (lit "a")] []
                    [XmlTag TAG_R []
                       [XmlTag TAG_T [] [XmlText (lit "{% endif %}")]]]
                    [paragraph [] (lit "b")] (lit "endif") []
                    (new_document [] false)
                    eq_refl eq_refl eq_refl eq_refl)).
  - reflexivity.
Defined.

(** X19: [__get_for_values] raises [RuntimeError] on a text without
    [" in "], and otherwise splits the text at the first [" in "]: the
    variable is the stripped text before it, the list expression the
    stripped text after it. *)
Theorem get_for_values_splits_at_first_in :
  (forall param, find_from (lit " in ") param 0 = None ->
     get_for_values param = Raise RuntimeError)
  /\ (forall a b, first_at (lit " in ") a ->
        get_for_values (a ++ lit " in " ++ b) = Ok (strip a, strip b)).
Proof.
  split.
  - intros param H. unfold get_for_values.
    pose proof (find_app_at (lit " in ") [] param) as F.
    cbn [app length] in F. change (Z.of_nat 0) with 0%Z in F.
    rewrite F, H. reflexivity.
  - intros a b H. unfold get_for_values.
    pose proof (find_app_at (lit " in ") [] (a ++ lit " in " ++ b)) as F.
    cbn [app length] in F. change (Z.of_nat 0) with 0%Z in F.
    rewrite F, (find_from_first_at b 0 H). cbn [Nat.add].
    destruct (Z.ltb_spec (Z.of_nat (length a)) 0); [lia|].
    pose proof (slice_app_mid [] a (lit " in " ++ b)) as S.
    cbn [app length Nat.add] in S. change (Z.of_nat 0) with 0%Z in S.
    rewrite S.
    replace (Z.of_nat (length a) + 4)%Z
      with (Z.of_nat (length (a ++ lit " in "))) by (rewrite length_app; simpl; lia).
    rewrite app_assoc, slice_from_app. reflexivity.
Qed.


Lemma autonum_loop_eq fuel curlist :
  autonum_loop fuel curlist
  = let idx := length curlist in
    if 6 <=? idx then Ok curlist
    else
      match fuel with
      | O => NoFuel
      | S fuel' =>
          match PathEval.index_list curlist (Z.of_nat idx - 1) with
          | None => Raise IndexError
          | Some value =>
              let value :=
                if ends_with (str_of_Z (Z.of_nat idx)) value
                then slice value 0 (-1) else value in
              let value := value ++ str_of_Z (Z.of_nat idx + 1) in
              autonum_loop fuel' (curlist ++ [value])
          end
      end.
Proof. destruct fuel; reflexivity. Qed.

Lemma index_last {A} (l : list A) :
  l <> [] -> exists x, PathEval.index_list l (Z.of_nat (length l) - 1) = Some x.
Proof.
  intros Hne. unfold PathEval.index_list.
  assert (Hl : 0 < length l) by (destruct l; [congruence|simpl; lia]).
  destruct (Z.ltb_spec (Z.of_nat (length l) - 1) 0); [lia|].
  destruct (Z.leb_spec 0 (Z.of_nat (length l) - 1)); [|lia].
  destruct (Z.ltb_spec (Z.of_nat (length l) - 1) (Z.of_nat (length l))); [|lia].
  cbn [andb].
  destruct (nth_error l (Z.to_nat (Z.of_nat (length l) - 1))) eqn:E; [eauto|].
  apply nth_error_None in E. lia.
Qed.

Lemma autonum_loop_fills : forall fuel curlist,
  curlist <> [] -> 6 - length curlist <= fuel ->
  exists l, autonum_loop fuel curlist = Ok (curlist ++ l)
            /\ length (curlist ++ l) = Nat.max 6 (length curlist).
Proof.
  induction fuel as [|fuel IH]; intros curlist Hne Hf;
    rewrite autonum_loop_eq; cbv zeta.
  - destruct (Nat.leb_spec 6 (length curlist)); [|lia].
    exists []. rewrite app_nil_r. split; [reflexivity|lia].
  - destruct (Nat.leb_spec 6 (length curlist)).
    + exists []. rewrite app_nil_r. split; [reflexivity|lia].
    + destruct (index_last Hne) as [x ->].
      match goal with
      | |- context [autonum_loop fuel (curlist ++ [?v])] => set (value := v)
      end.
      destruct (IH (curlist ++ [value])) as (l & Hl & Hn).
      * destruct curlist; discriminate.
      * rewrite length_app. cbn [length]. lia.
      * exists (value :: l). rewrite Hl, <- app_assoc. split; [reflexivity|].
        rewrite !length_app in *. cbn [length] in *. lia.
Qed.

(** X21: for a list style, [__get_style_list_autonum] raises
    [IndexError] when the value has no item between its commas, and
    otherwise returns the items followed by generated names, at least six
    in all; so [setStyle] raises [IndexError] on a list style whose value
    has no item left after the filter. *)
Theorem list_style_gets_six_levels stylevalue :
  match split_no_empty stylevalue 44%N with
  | [] => get_style_list_autonum stylevalue = Raise IndexError
  | curlist =>
      exists l, get_style_list_autonum stylevalue = Ok (curlist ++ l)
                /\ length (curlist ++ l) = Nat.max 6 (length curlist)
  end
  /\ (forall name value d,
        mem_str (if starts_with (lit "style_") name then slice_from name 6
                 else name) CFG_LIST_STYLES = true ->
        split_no_empty (only_ascii value) 44%N = [] ->
        setStyle name value d = Raise IndexError).
Proof.
  split.
  - unfold get_style_list_autonum.
    destruct (split_no_empty stylevalue 44%N) as [|x l] eqn:E; [reflexivity|].
    apply autonum_loop_fills; [discriminate|lia].
  - intros name value d Hm Hs. unfold setStyle. rewrite Hm.
    unfold mbind, lift, get_style_list_autonum. rewrite Hs. reflexivity.
Qed.

End EngineFacts.

(** ** Identifier reassignment *)

Module IdFacts.
Import PyStrFacts Basics.

Lemma lit_inj s1 s2 : lit s1 = lit s2 -> s1 = s2.
Proof.
  unfold lit. intros H.
  apply (f_equal (map Ascii.ascii_of_N)) in H.
  rewrite !map_map in H.
  rewrite !(map_ext _ (fun a => a) Ascii.ascii_N_embedding), !map_id in H.
  apply (f_equal String.string_of_list_ascii) in H.
  rewrite !String.string_of_list_ascii_of_string in H. exact H.
Qed.

Lemma str_of_Z_inj z1 z2 : str_of_Z z1 = str_of_Z z2 -> z1 = z2.
Proof.
  unfold str_of_Z. intros H. apply lit_inj in H.
  apply DecimalZ.to_int_inj.
  pose proof (DecimalString.NilEmpty.isi (Z.to_int z1)) as H1.
  pose proof (DecimalString.NilEmpty.isi (Z.to_int z2)) as H2.
  rewrite H in H1. congruence.
Qed.

Lemma fresh_id_inj a k k' : fresh_id a k -> fresh_id a k' -> k = k'.
Proof.
  intros [-> | ->] [H|H]; try discriminate.
  - congruence.
  - injection H as H. apply str_of_Z_inj. exact H.
Qed.

Lemma zseq_app a : forall start b,
  zseq start (a + b) = zseq start a ++ zseq (start + Z.of_nat a) b.
Proof.
  induction a as [|a IH]; intros start b.
  - cbn [Nat.add zseq app]. f_equal. lia.
  - cbn [Nat.add zseq app]. rewrite IH. do 3 f_equal. lia.
Qed.

Lemma zseq_bounds n : forall start k,
  In k (zseq start n) -> (start <= k < start + Z.of_nat n)%Z.
Proof.
  induction n as [|n IH]; intros start k; cbn [zseq]; [intros []|].
  intros [<-|H]; [lia|]. apply IH in H. lia.
Qed.

Lemma zseq_NoDup n : forall start, NoDup (zseq start n).
Proof.
  induction n as [|n IH]; intros start; cbn [zseq]; constructor.
  - intros H. apply zseq_bounds in H. lia.
  - apply IH.
Qed.

Lemma Forall2_fresh_NoDup l : forall ks,
  Forall2 fresh_id l ks -> NoDup ks -> NoDup l.
Proof.
  induction l as [|a l IH]; intros ks HF Hn; [constructor|].
  inversion HF as [|a' k l' ks' Hak Hr]; subst.
  inversion Hn as [|k' ks'' Hni Hn']; subst.
  constructor; [|eapply IH; eassumption].
  intros Hin. apply Hni. clear - Hin Hr Hak.
  induction Hr as [|b k2 l2 ks2 Hb Hr IHr]; [destruct Hin|].
  destruct Hin as [<-|Hin].
  - left. eapply fresh_id_inj; eassumption.
  - right. apply IHr. exact Hin.
Qed.

Lemma reassign_ids_eq name attrs elements maxid :
  reassign_ids (XmlTag name attrs elements) maxid
  = let (elements, maxid) := reassign_children elements maxid in
    match attrs with
    | [] => (XmlTag name attrs elements, maxid)
    | _ =>
        let attrs :=
          match dict_get attrs (lit "o:spid") with
          | Some (AttrStr (_ :: _)) => dict_del attrs (lit "o:spid")
          | Some (AttrInt z) =>
              if (z =? 0)%Z then attrs else dict_del attrs (lit "o:spid")
          | _ => attrs
          end in
        match dict_get attrs (lit "id") with
        | Some (AttrStr ((_ :: _) as idvalue)) =>
            let maxid := (maxid + 1)%Z in
            if int_parses idvalue
            then (XmlTag name (dict_set attrs (lit "id") (AttrInt maxid))
                    elements, maxid)
            else (XmlTag name
                    (dict_set attrs (lit "id")
                       (AttrStr (lit "_id_n" ++ str_of_Z maxid)))
                    elements, maxid)
        | Some (AttrInt z) =>
            if (z =? 0)%Z then (XmlTag name attrs elements, maxid)
            else
              let maxid := (maxid + 1)%Z in
              (XmlTag name (dict_set attrs (lit "id") (AttrInt maxid))
                 elements, maxid)
        | _ => (XmlTag name attrs elements, maxid)
        end
    end.
Proof. reflexivity. Qed.

Lemma renumbered_children els :
  Forall renumbered els ->
  forall maxid, (0 <= maxid)%Z ->
    snd (reassign_children els maxid)
    = (maxid + Z.of_nat (length (flat_map live_ids els)))%Z
    /\ Forall2 fresh_id (flat_map live_ids (fst (reassign_children els maxid)))
         (zseq (maxid + 1) (length (flat_map live_ids els))).
Proof.
  induction els as [|x els IH]; intros HF maxid Hm.
  - cbn. split; [lia|constructor].
  - inversion HF as [|y ys Hy Hys]; subst.
    cbn [reassign_children flat_map].
    destruct (Hy maxid Hm) as [H1 H2].
    destruct (reassign_ids x maxid) as [x' m1]. cbn [fst snd] in H1, H2.
    assert (Hm1 : (0 <= m1)%Z) by lia.
    destruct (IH Hys m1 Hm1) as [H3 H4].
    destruct (reassign_children els m1) as [els' m2]. cbn [fst snd] in *.
    rewrite length_app, zseq_app. split; [lia|].
    apply Forall2_app; [exact H2|].
    replace (maxid + 1 + Z.of_nat (length (live_ids x)))%Z with (m1 + 1)%Z by lia.
    exact H4.
Qed.

Lemma id_not_spid : lit "id" <> lit "o:spid".
Proof. discriminate. Qed.

Lemma renumbered_all e : renumbered e.
Proof.
  induction e as [c|name attrs els IH] using tree_ind.
  - intros maxid Hm. cbn. split; [lia|constructor].
  - intros maxid Hm. rewrite reassign_ids_eq.
    destruct (renumbered_children IH Hm) as [H1 H2].
    destruct (reassign_children els maxid) as [els' m1]. cbn [fst snd] in H1, H2.
    assert (Hm1 : (0 <= m1)%Z) by lia.
    cbn [live_ids]. rewrite length_app, zseq_app.
    destruct attrs as [|kv attrs].
    { cbn [fst snd live_ids dict_get length]. rewrite app_nil_r.
      split; [lia|]. cbn [zseq]. rewrite app_nil_r. exact H2. }
    cbv iota.
    set (attrs0 := kv :: attrs) in *.
    cbv zeta.
    match goal with
    | |- context [dict_set ?a (lit "id") _] => set (attrs1 := a)
    end.
    assert (Hid : dict_get attrs1 (lit "id") = dict_get attrs0 (lit "id")).
    { unfold attrs1.
      destruct (dict_get attrs0 (lit "o:spid")) as [[|[|c s]|z]|];
        try reflexivity.
      - apply dict_get_del_ne. exact id_not_spid.
      - destruct (z =? 0)%Z; [reflexivity|].
        apply dict_get_del_ne. exact id_not_spid. }
    rewrite Hid.
    replace (maxid + 1 + Z.of_nat (length (flat_map live_ids els)))%Z
      with (m1 + 1)%Z by lia.
    destruct (dict_get attrs0 (lit "id")) as [[|[|c s]|z]|] eqn:E.
    + cbn [fst snd live_ids attr_truthy length]. rewrite Hid.
      cbn [attr_truthy length zseq]. rewrite !app_nil_r.
      split; [lia|exact H2].
    + cbn [fst snd live_ids attr_truthy length]. rewrite Hid.
      rewrite eqb_refl. cbn [negb length zseq]. rewrite !app_nil_r.
      split; [lia|exact H2].
    + assert (Ht : attr_truthy (AttrStr (c :: s)) = true) by reflexivity.
      rewrite Ht. cbn [length zseq].
      destruct (int_parses (c :: s)); cbn [fst snd live_ids];
        rewrite dict_get_set_eq.
      * assert (Hz : attr_truthy (AttrInt (m1 + 1)) = true).
        { cbn. destruct (Z.eqb_spec (m1 + 1) 0); [lia|reflexivity]. }
        rewrite Hz. split; [lia|].
        apply Forall2_app; [exact H2|].
        constructor; [left; reflexivity|constructor].
      * assert (Hz : attr_truthy (AttrStr (lit "_id_n" ++ str_of_Z (m1 + 1)))
                     = true) by reflexivity.
        rewrite Hz. split; [lia|].
        apply Forall2_app; [exact H2|].
        constructor; [right; reflexivity|constructor].
    + cbn [attr_truthy]. destruct (Z.eqb_spec z 0) as [->|Hz].
      * cbn [negb fst snd live_ids length zseq]. rewrite Hid.
        cbn [attr_truthy]. change (0 =? 0)%Z with true. cbn [negb].
        rewrite !app_nil_r. split; [lia|exact H2].
      * cbn [negb fst snd live_ids length zseq]. rewrite dict_get_set_eq.
        assert (Hz' : attr_truthy (AttrInt (m1 + 1)) = true).
        { cbn. destruct (Z.eqb_spec (m1 + 1) 0); [lia|reflexivity]. }
        rewrite Hz'. split; [lia|].
        apply Forall2_app; [exact H2|].
        constructor; [left; reflexivity|constructor].
    + cbn [fst snd live_ids length zseq]. rewrite Hid.
      rewrite !app_nil_r. split; [lia|exact H2].
Qed.

(** X22: from a counter that is not negative, [__reassign_ids] gives
    every identifier in use a new value made from the next number of the
    counter, children first: the counter grows by the number of
    identifiers in use, the new values are the numbers after the old
    counter, as integers or after the prefix [_id_n], and no two of them
    are equal. *)
Theorem reassign_ids_gives_fresh_ids block maxid (Hm : (0 <= maxid)%Z) :
  snd (reassign_ids block maxid)
  = (maxid + Z.of_nat (length (live_ids block)))%Z
  /\ Forall2 fresh_id (live_ids (fst (reassign_ids block maxid)))
       (zseq (maxid + 1) (length (live_ids block)))
  /\ NoDup (live_ids (fst (reassign_ids block maxid))).
Proof.
  destruct (renumbered_all block Hm) as [H1 H2].
  split; [exact H1|]. split; [exact H2|].
  eapply Forall2_fresh_NoDup; [exact H2|apply zseq_NoDup].
Qed.

Lemma reassign_ids_gives_fresh_ids_witness :
  live_ids
    (fst (reassign_ids
            (XmlTag (lit "a") [(lit "id", AttrStr (lit "7"))]
               [XmlTag (lit "b") [(lit "id", AttrStr (lit "7"))] [];
                XmlTag (lit "c") [(lit "id", AttrStr (lit "x"))] []]) 10))
  = [AttrInt 11; AttrStr (lit "_id_n12"); AttrInt 13]
  /\ NoDup
       (live_ids
          (fst (reassign_ids
                  (XmlTag (lit "a") [(lit "id", AttrStr (lit "7"))]
                     [XmlTag (lit "b") [(lit "id", AttrStr (lit "7"))] [];
                      XmlTag (lit "c") [(lit "id", AttrStr (lit "x"))] []])
                  10))).
Proof.
  split; [reflexivity|].
  exact (proj2 (proj2 (@reassign_ids_gives_fresh_ids
                         (XmlTag (lit "a") [(lit "id", AttrStr (lit "7"))]
                            [XmlTag (lit "b") [(lit "id", AttrStr (lit "7"))] [];
                             XmlTag (lit "c") [(lit "id", AttrStr (lit "x"))] []])
                         10%Z ltac:(lia)))).
Defined.

End IdFacts.

(** ** Merging dictionaries and lists *)

Module TypesFacts.
Import PyStrFacts LedgerFacts Basics.

Lemma copy_lookup (d : scope) : forall acc k,
  unique_keys d ->
  dict_get (fold_left (fun acc kv => dict_set acc (fst kv) (snd kv)) d acc) k
  = match dict_get d k with
    | Some v => Some v
    | None => dict_get acc k
    end.
Proof.
  unfold unique_keys.
  induction d as [|[a v] d IH]; intros acc k Hu; [reflexivity|].
  inversion Hu as [|x l Hn Hd]; subst.
  cbn [fold_left fst snd dict_get]. rewrite IH by exact Hd.
  destruct (PyStr.eqb a k) eqn:E.
  - apply eqb_eq in E. subst a.
    rewrite (dict_get_absent _ _ Hn). apply dict_get_set_eq.
  - destruct (dict_get d k); [reflexivity|].
    apply dict_get_set_ne. apply eqb_neq in E. congruence.
Qed.

Lemma set_if_none_lookup_ne acc a v k :
  k <> a -> dict_get (set_if_none acc (a, v)) k = dict_get acc k.
Proof.
  intros Hne. unfold set_if_none. cbn [fst snd].
  destruct (dict_get acc a) as [w|]; [destruct (is_None w)|];
    try reflexivity; apply dict_get_set_ne; exact Hne.
Qed.

Lemma fill_lookup (d : scope) : forall acc k,
  unique_keys d ->
  dict_get (fold_left set_if_none d acc) k
  = match dict_get acc k with
    | Some v =>
        if is_None v then
          match dict_get d k with
          | Some v2 => Some v2
          | None => Some v
          end
        else Some v
    | None => dict_get d k
    end.
Proof.
  unfold unique_keys.
  induction d as [|[a v2] d IH]; intros acc k Hu.
  - cbn. destruct (dict_get acc k) as [v|]; [destruct (is_None v)|]; reflexivity.
  - inversion Hu as [|x l Hn Hd]; subst.
    cbn [fold_left dict_get]. rewrite IH by exact Hd.
    destruct (PyStr.eqb a k) eqn:E.
    + apply eqb_eq in E. subst a. rewrite (dict_get_absent _ _ Hn).
      unfold set_if_none. cbn [fst snd].
      destruct (dict_get acc k) as [w|] eqn:Ew.
      * destruct (is_None w) eqn:En.
        -- rewrite dict_get_set_eq. destruct (is_None v2); reflexivity.
        -- rewrite Ew, En. reflexivity.
      * rewrite dict_get_set_eq. destruct (is_None v2); reflexivity.
    + rewrite set_if_none_lookup_ne by (apply eqb_neq in E; congruence).
      reflexivity.
Qed.

(** X23: a key of the result of [merge_dicts] has the value of the first
    dictionary, unless that value is missing or [None]: then it has the
    value of the second dictionary when that has the key.  So a [None] of
    the first dictionary is overwritten. *)
Theorem merge_dicts_lookup dict1 dict2 k
    (H1 : unique_keys dict1) (H2 : unique_keys dict2) :
  dict_get (merge_dicts (Some dict1) (Some dict2)) k
  = match dict_get dict1 k with
    | Some v =>
        if is_None v then
          match dict_get dict2 k with
          | Some v2 => Some v2
          | None => Some v
          end
        else Some v
    | None => dict_get dict2 k
    end.
Proof.
  unfold merge_dicts. rewrite fill_lookup by exact H2.
  rewrite copy_lookup by exact H1.
  destruct (dict_get dict1 k); reflexivity.
Qed.

Lemma merge_dicts_lookup_witness :
  dict_get
    (merge_dicts (Some [(lit "a", VNone); (lit "b", VInt 1)])
       (Some [(lit "a", VInt 2); (lit "b", VInt 3)])) (lit "a")
  = Some (VInt 2)
  /\ dict_get
       (merge_dicts (Some [(lit "a", VNone); (lit "b", VInt 1)])
          (Some [(lit "a", VInt 2); (lit "b", VInt 3)])) (lit "b")
     = Some (VInt 1).
Proof.
  assert (H1 : unique_keys [(lit "a", VNone); (lit "b", VInt 1)])
    by (repeat constructor; simpl; intuition discriminate).
  assert (H2 : unique_keys [(lit "a", VInt 2); (lit "b", VInt 3)])
    by (repeat constructor; simpl; intuition discriminate).
  split.
  - exact (@merge_dicts_lookup _ _ (lit "a") H1 H2).
  - exact (@merge_dicts_lookup _ _ (lit "b") H1 H2).
Defined.

Lemma append_new_spec l p x : In x (append_new l p) <-> In x l \/ x = p.
Proof.
  unfold append_new. destruct (mem_str p l) eqn:E.
  - apply mem_str_In in E. split; [tauto|]. intros [H| ->]; assumption.
  - rewrite in_app_iff. simpl. intuition.
Qed.

(** X24: [merge_list_unique] returns the first list followed by the
    items of the second that it did not hold, each once: the result holds
    an item exactly when one of the lists does, and has no repetitions when
    the first list has none. *)
Theorem merge_list_unique_is_union list1 list2 (H1 : NoDup list1) :
  NoDup (merge_list_unique (Some list1) (Some list2))
  /\ (forall x, In x (merge_list_unique (Some list1) (Some list2))
                <-> In x list1 \/ In x list2)
  /\ exists added, merge_list_unique (Some list1) (Some list2)
                   = list1 ++ added.
Proof.
  unfold merge_list_unique. revert list1 H1.
  induction list2 as [|p l2 IH]; intros l1 H1.
  - cbn. split; [exact H1|]. split; [tauto|]. exists []. symmetry. apply app_nil_r.
  - cbn [fold_left].
    destruct (IH (append_new l1 p)) as (Hn & Hi & (added & Ha)).
    { apply append_new_count. exact H1. }
    split; [exact Hn|]. split.
    + intros x. rewrite Hi, append_new_spec. simpl. intuition.
    + rewrite Ha. unfold append_new. destruct (mem_str p l1).
      * exists added. reflexivity.
      * exists (p :: added). rewrite <- app_assoc. reflexivity.
Qed.

Lemma merge_list_unique_is_union_witness :
  NoDup (merge_list_unique (Some [lit "x"]) (Some [lit "x"; lit "y"; lit "y"])).
Proof.
  exact (proj1 (@merge_list_unique_is_union [lit "x"]
                  [lit "x"; lit "y"; lit "y"]
                  ltac:(repeat constructor; simpl; intuition))).
Defined.

End TypesFacts.
